(** * Bowser: an SSH bastion and certificate authority

    A shallow embedding of the session code of the bastion:
    - [Shell]: the account store and the public-key callback of the daemon
      (the variant of the daemon that serves interactive shells);
    - [Forward]: the session object of the forwarding daemon, with its
      [direct-tcpip] handler;
    - [Latch]: the two copy goroutines of a proxied channel and the
      [sync.Once] in front of their teardown closure.

    Go values are modelled as follows.  A [map[string]T] is a [gmap string T].
    A pointer to an [Account] is an address in a heap of accounts, so that the
    comparison of two pointers and the sharing of one cell by several pointers
    are those of the program.  An [error] is its text, [nil] is [None].  A
    compiled [*regexp.Regexp] is the predicate it decides on strings.  What a
    function does to the outside world (the client's agent, the network, the
    log) is recorded as a trace of events; what the outside world answers is
    read from an environment of oracles. *)

From stdpp Require Import gmap strings list fin_maps pretty.
From Stdlib Require Import Strings.Byte.

Open Scope string_scope.
Open Scope list_scope.

(** ** Values shared by both variants of the daemon *)

(** A Go [error] value, reduced to its text. *)
Definition error := string.

(** A Go pair [(value, err)]. *)
Inductive result (A : Type) : Type :=
| Ok (a : A)
| Err (e : error).
Arguments Ok {A} a.
Arguments Err {A} e.

(** A compiled regular expression, as the set of strings it matches. *)
Definition Regexp := string → bool.
Definition Match (re : Regexp) (b : string) : bool := re b.

(** An address of the heap of accounts: the target of a [*Account]. *)
Definition loc := nat.

(** [Account]: the fields the daemon reads.  [whitelistRe] and [blacklistRe]
    are pointers to compiled expressions, [None] when [nil]. *)
Record Account := {
  Username : string;
  Password : string;
  SSHKeysRaw : list string;
  TOTP : string;
  Shell_ : string;
  Whitelist : string;
  Blacklist : string;
  whitelistRe : option Regexp;
  blacklistRe : option Regexp
}.

(** The zero value of the struct. *)
Definition zeroAccount : Account :=
  {| Username := ""; Password := ""; SSHKeysRaw := []; TOTP := ""; Shell_ := "";
     Whitelist := ""; Blacklist := ""; whitelistRe := None; blacklistRe := None |}.

(** An [ssh.PublicKey], identified by its wire format. *)
Record PublicKey := { Marshal : string }.

(** An account key represents a mapping of ssh public key to account. *)
Record AccountKey := {
  akAccount : loc;
  Key : PublicKey;
  Comment : string;
  Options : list string
}.

(** [func (key *AccountKey) ID() string] *)
Definition ID (key : AccountKey) : string := Marshal (Key key).

(** One record of the structured log. *)
Record LogEntry := { level : string; message : string }.

(** ** The account store and the handshake (shell variant) *)

Module Shell.

Record SSHDState := {
  ConfigAccounts : string;
  log : list LogEntry;
  accounts : gmap string loc;
  keys : gmap string AccountKey;
  heap : list Account
}.

Definition badKeyError : error := "This is not the castle you are looking for...".

Section Store.

(** The two functions of other packages the store is built with:
    [LoadAccounts] reads the accounts file, [ssh.ParseAuthorizedKey] parses one
    line of it into a key, its comment and its options. *)
Variable LoadAccounts : string → result (list Account).
Variable ParseAuthorizedKey : string → result (PublicKey * string * list string).

(** [NewAccountKey(account, rawKey)]: the key of one authorized-keys line,
    bound to the account at address [account], or the parse error. *)
Definition NewAccountKey (account : loc) (rawKey : string) : result AccountKey :=
  match ParseAuthorizedKey rawKey with
  | Err err => Err err
  | Ok (key, comment, options) =>
      Ok {| akAccount := account; Key := key; Comment := comment; Options := options |}
  end.

(** The variables of [reloadAccounts] while its loops run: the two maps under
    construction, the heap and the log. *)
Record frame := {
  f_accounts : gmap string loc;
  f_keys : gmap string AccountKey;
  f_heap : list Account;
  f_log : list LogEntry
}.

Definition logged (lvl msg : string) (f : frame) : frame :=
  {| f_accounts := f_accounts f; f_keys := f_keys f; f_heap := f_heap f;
     f_log := f_log f ++ [{| level := lvl; message := msg |}] |}.

(** How a loop body leaves: to the next iteration, or out of the function. *)
Inductive flow := Next | Return.

(** [for _, key := range account.SSHKeysRaw], where [p] is [&account]. *)
Fixpoint range_keys (p : loc) (raws : list string) (f : frame) : flow * frame :=
  match raws with
  | [] => (Next, f)
  | raw :: raws =>
      match NewAccountKey p raw with
      | Err _ =>
          range_keys p raws (logged "warn" "Skipping key for account, couldn't parse" f)
      | Ok key =>
          match f_keys f !! ID key with
          | Some _ => (Return, logged "error" "Duplicate key" f)
          | None =>
              range_keys p raws
                {| f_accounts := f_accounts f; f_keys := <[ID key := key]> (f_keys f);
                   f_heap := f_heap f; f_log := f_log f |}
          end
      end
  end.

(** [for _, account := range rawAccounts].  The range variable [account] is
    one variable for the whole loop, at address [p]: each iteration assigns the
    next element to it, and [&account] is [p] in every iteration. *)
Fixpoint range_accounts (p : loc) (rawAccounts : list Account) (f : frame) : flow * frame :=
  match rawAccounts with
  | [] => (Next, f)
  | account :: rawAccounts =>
      let f := {| f_accounts := f_accounts f; f_keys := f_keys f;
                  f_heap := <[p := account]> (f_heap f); f_log := f_log f |} in
      match f_accounts f !! Username account with
      | Some _ => (Return, logged "error" "Duplicate username" f)
      | None =>
          let f := {| f_accounts := <[Username account := p]> (f_accounts f);
                      f_keys := f_keys f; f_heap := f_heap f; f_log := f_log f |} in
          match range_keys p (SSHKeysRaw account) f with
          | (Return, f) => (Return, f)
          | (Next, f) => range_accounts p rawAccounts f
          end
      end
  end.

(** [func (s *SSHDState) reloadAccounts()] *)
Definition reloadAccounts (s : SSHDState) : SSHDState :=
  match LoadAccounts (ConfigAccounts s) with
  | Err _ =>
      {| ConfigAccounts := ConfigAccounts s;
         log := log s ++ [{| level := "error"; message := "Failed to load accounts" |}];
         accounts := accounts s; keys := keys s; heap := heap s |}
  | Ok rawAccounts =>
      let p := length (heap s) in
      let f := {| f_accounts := ∅; f_keys := ∅;
                  f_heap := heap s ++ [zeroAccount]; f_log := log s |} in
      match range_accounts p rawAccounts f with
      | (Return, f) =>
          {| ConfigAccounts := ConfigAccounts s; log := f_log f;
             accounts := accounts s; keys := keys s; heap := f_heap f |}
      | (Next, f) =>
          {| ConfigAccounts := ConfigAccounts s; log := f_log f;
             accounts := f_accounts f; keys := f_keys f; heap := f_heap f |}
      end
  end.

(** The key identities an accounts file declares: the wire format of every
    line of [ssh-keys] that parses, in the order of the file. *)
Definition wire (rawKey : string) : option string :=
  match ParseAuthorizedKey rawKey with
  | Ok (key, _, _) => Some (Marshal key)
  | Err _ => None
  end.

Definition wires (rawAccounts : list Account) : list string :=
  account ← rawAccounts; omap wire (SSHKeysRaw account).

End Store.

(** The [PublicKeyCallback] of the server configuration built in [Run]:
    [Some None] is the pair [(nil, nil)] that lets the handshake proceed,
    [Some (Some err)] is [(nil, err)], and [None] is the run-time panic of a
    pointer that does not point to an account. *)
Definition PublicKeyCallback (s : SSHDState) (user : string) (key : PublicKey)
  : option (option error) :=
  match keys s !! Marshal key with
  | None => Some (Some badKeyError)
  | Some accountKey =>
      match heap s !! akAccount accountKey with
      | None => None
      | Some account =>
          if decide (user ≠ Username account) then Some (Some badKeyError)
          else Some None
      end
  end.

End Shell.

(** ** The session of the forwarding daemon *)

Module Forward.

(** *** The SSH library, as far as the session uses it *)

(** An open SSH channel and a TCP connection, by their identifiers. *)
Definition Channel := nat.
Definition NetConn := nat.

(** [agent.NewClient(rw)]: the agent client that talks over channel [rw]. *)
Record Agent := NewClient { agentChannel : Channel }.

(** A signer offered by the agent, with the public key it announces. *)
Record Signer := { signerId : nat; SignerPublicKey : PublicKey }.

Definition Signature := list byte.
Definition PrivateKey := nat.

(** [ssh.RejectionReason] *)
Inductive RejectionReason :=
| Prohibited
| ConnectionFailed
| UnknownChannelType
| ResourceShortage.

(** [ssh.NewChannel]: the request of the client to open a channel. *)
Record NewChannel := {
  ChannelType : string;
  ExtraData : list byte
}.

(** [ssh.Certificate], reduced to the fields the specification of the
    certificate authority names. *)
Record Certificate := {
  CertKey : PublicKey;
  KeyId : string;
  ValidPrincipals : list string;
  CriticalOptions : list (string * string)
}.

(** [agent.AddedKey]: fields not listed are left at their zero value. *)
Record AddedKey := {
  AddedPrivateKey : PrivateKey;
  AddedCertificate : Certificate;
  LifetimeSecs : N;
  AddedComment : string
}.

(** The message of a [direct-tcpip] channel request. *)
Record channelOpenDirectMsg := {
  RAddr : string;
  RPort : N;
  LAddr : string;
  LPort : N
}.

Definition zeroMsg : channelOpenDirectMsg :=
  {| RAddr := ""; RPort := 0; LAddr := ""; LPort := 0 |}.

(** The wire format read by [ssh.Unmarshal] (RFC 4251, section 5): a [uint32]
    is four bytes, most significant first; a [string] is a [uint32] length
    followed by that many bytes. *)
Definition parseUint32 (data : list byte) : option (N * list byte) :=
  match data with
  | b0 :: b1 :: b2 :: b3 :: rest =>
      Some (((Byte.to_N b0 * 256 + Byte.to_N b1) * 256 + Byte.to_N b2) * 256
            + Byte.to_N b3, rest)%N
  | _ => None
  end.

Definition parseString (data : list byte) : option (string * list byte) :=
  match parseUint32 data with
  | None => None
  | Some (len, rest) =>
      if decide (N.of_nat (length rest) `mod` 2 ^ 32 < len)%N then None
      else Some (String.string_of_list_byte (take (N.to_nat len) rest),
                 drop (N.to_nat len) rest)
  end.

(** [ssh.Unmarshal(data, &msg)] for a [channelOpenDirectMsg] that holds its
    zero value: the fields are assigned one after the other, in the order of
    the struct, and a field that cannot be read ends the call with an error;
    the fields read before it keep what was assigned to them.  Bytes left over
    after the last field are an error too.  (The text of the error is of no
    consequence here: the handler drops it.) *)
Definition Unmarshal (data : list byte) : channelOpenDirectMsg * option error :=
  match data with
  | [] => (zeroMsg, Some "ssh: parse error in message type 0")
  | _ =>
  match parseString data with
  | None => (zeroMsg, Some "ssh: short read")
  | Some (raddr, data) =>
  match parseUint32 data with
  | None => ({| RAddr := raddr; RPort := 0; LAddr := ""; LPort := 0 |},
             Some "ssh: short read")
  | Some (rport, data) =>
  match parseString data with
  | None => ({| RAddr := raddr; RPort := rport; LAddr := ""; LPort := 0 |},
             Some "ssh: short read")
  | Some (laddr, data) =>
  match parseUint32 data with
  | None => ({| RAddr := raddr; RPort := rport; LAddr := laddr; LPort := 0 |},
             Some "ssh: short read")
  | Some (lport, data) =>
      ({| RAddr := raddr; RPort := rport; LAddr := laddr; LPort := lport |},
       match data with
       | [] => None
       | _ => Some "ssh: parse error in message type 0"
       end)
  end end end end end.

(** *** The daemon and the session *)

(** [ssh.ServerConn]: the handshake's user name and the peer's address. *)
Record ServerConn := {
  User : string;
  RemoteAddr : string
}.

(** The state of the daemon a session points to: the fields the session code
    reads.  [heap] holds the accounts the pointers of [accounts], [keys] and of
    the sessions point to; [sessions] holds the identifiers of the registered
    sessions. *)
Record SSHDState := {
  ForceUser : string;
  ForceCommand : string;
  WebhookProviders : list string;
  accounts : gmap string loc;
  keys : gmap string AccountKey;
  sessions : gset string;
  heap : list Account
}.

(** An SSHSession represents one TCP connection, with one or more
    direct-tcpip channels.  [Account] and [Agent] are [None] when [nil]. *)
Record SSHSession := {
  UUID : string;
  State : SSHDState;
  Account_ : option loc;
  Conn : ServerConn;
  Agent_ : option Agent;
  Proxies : list NetConn;
  verified : bool
}.

(** What a goroutine started by the handler runs. *)
Inductive Goroutine :=
| DiscardRequests
| CopyThenClose (toClient : bool) (agentChan : Channel) (channel : option Channel)
    (conn : NetConn).

(** What the session does to the outside world, with the answer it got. *)
Inductive Event :=
| EOpenChannel (name : string) (r : result Channel)
| ESigners (a : Agent) (r : result (list Signer))
| ERandRead (n : nat) (r : result (list byte))
| ESign (signer : Signer) (data : list byte) (r : result Signature)
| EVerify (key : PublicKey) (data : list byte) (sig : Signature) (r : option error)
| ELog (lvl msg : string)
| EReject (reason : RejectionReason) (msg : string)
| EGenerate (uuid principal forceCommand : string) (r : result (Certificate * PrivateKey))
| EAdd (a : Agent) (key : AddedKey) (r : option error)
| ENotifySessionStart (provider user uuid addr remote : string)
| EDial (network address : string) (r : result NetConn)
| EAccept (r : result Channel)
| EConnClose
| EGo (g : Goroutine).

(** What the outside world answers. *)
Record Env := {
  OpenChannel : string → result Channel;
  Signers : Agent → result (list Signer);
  rand_Read : nat → result (list byte);
  Sign : Signer → list byte → result Signature;
  Verify : PublicKey → list byte → Signature → option error;
  ca_keypair : string → result (PublicKey * PrivateKey);
  Add : Agent → AddedKey → option error;
  Dial : string → string → result NetConn;
  Accept : result Channel
}.

(** Modelled from the spec: the certificate authority's [Generate], whose
    source file is not among the sources.  It makes a fresh key pair and wraps
    the public half in a certificate whose principals are exactly [principal],
    whose key identifier is the session's, and which carries a [force-command]
    critical option when [force_command] is not empty. *)
Definition ca_Generate (E : Env) (session_uuid principal force_command : string)
  : result (Certificate * PrivateKey) :=
  match ca_keypair E session_uuid with
  | Err err => Err err
  | Ok (pub, priv) =>
      Ok ({| CertKey := pub; KeyId := session_uuid; ValidPrincipals := [principal];
             CriticalOptions :=
               if decide (force_command = "") then []
               else [("force-command", force_command)] |}, priv)
  end.

(** *** Session code as state transformers *)

(** How a piece of a function body ends: with a value, with the [return] of
    the enclosing function, or with a run-time panic. *)
Inductive outcome (A : Type) : Type :=
| Value (a : A)
| Returned
| Panicked.
Arguments Value {A} a.
Arguments Returned {A}.
Arguments Panicked {A}.

(** A computation on the session that appends to the trace of events. *)
Definition M (A : Type) : Type := SSHSession → outcome A * SSHSession * list Event.

#[local] Instance M_ret : MRet M := λ A a s, (Value a, s, []).
#[local] Instance M_bind : MBind M := λ A B k m s,
  match m s with
  | (Value a, s', t) => let '(r, s'', t') := k a s' in (r, s'', t ++ t')
  | (Returned, s', t) => (Returned, s', t)
  | (Panicked, s', t) => (Panicked, s', t)
  end.

Definition get : M SSHSession := λ s, (Value s, s, []).
Definition put (s : SSHSession) : M unit := λ _, (Value tt, s, []).
Definition emit (e : Event) : M unit := λ s, (Value tt, s, [e]).
Definition return_ {A} : M A := λ s, (Returned, s, []).
Definition panic {A} : M A := λ s, (Panicked, s, []).

(** A call of a function: its [return] ends the call, not the caller. *)
Definition call (body : M unit) : M unit := λ s,
  match body s with
  | (Returned, s', t) => (Value tt, s', t)
  | r => r
  end.

(** [*p] for a pointer to an account. *)
Definition deref (s : SSHSession) (p : option loc) : option Account :=
  match p with
  | None => None
  | Some l => heap (State s) !! l
  end.

Definition set_Agent (a : Agent) (s : SSHSession) : SSHSession :=
  {| UUID := UUID s; State := State s; Account_ := Account_ s; Conn := Conn s;
     Agent_ := Some a; Proxies := Proxies s; verified := verified s |}.

Definition set_verified (b : bool) (s : SSHSession) : SSHSession :=
  {| UUID := UUID s; State := State s; Account_ := Account_ s; Conn := Conn s;
     Agent_ := Agent_ s; Proxies := Proxies s; verified := b |}.

Definition set_Proxies (l : list NetConn) (s : SSHSession) : SSHSession :=
  {| UUID := UUID s; State := State s; Account_ := Account_ s; Conn := Conn s;
     Agent_ := Agent_ s; Proxies := l; verified := verified s |}.

Definition set_State (st : SSHDState) (s : SSHSession) : SSHSession :=
  {| UUID := UUID s; State := st; Account_ := Account_ s; Conn := Conn s;
     Agent_ := Agent_ s; Proxies := Proxies s; verified := verified s |}.

(** [func NewSSHSession(state *SSHDState, conn *ssh.ServerConn) *SSHSession];
    the identifier is the fresh UUID the library draws. *)
Definition NewSSHSession (id : string) (state : SSHDState) (conn : ServerConn)
  : SSHSession * list Event :=
  ({| UUID := id; State := state; Account_ := accounts state !! User conn;
      Conn := conn; Agent_ := None; Proxies := []; verified := false |},
   [ELog "info" "New SSH session created"]).

(** [func (s *SSHSession) Close(message string)] *)
Definition Close (message : string) : M unit := emit EConnClose.

(** [func (s *SSHSession) canConnectTo(addr string) bool]; [None] is the panic
    of a session without account. *)
Definition canConnectTo (s : SSHSession) (addr : string) : option bool :=
  match deref s (Account_ s) with
  | None => None
  | Some account =>
      (* Check the whitelist first *)
      if match whitelistRe account with
         | Some re => negb (Match re addr)
         | None => false
         end
      then Some false
      else
        (* Then check against blacklist *)
        if match blacklistRe account with
           | Some re => Match re addr
           | None => false
           end
        then Some false
        else Some true
  end.

(** The principal a session asks a certificate for: the configured
    [force_user] when it is not empty, the name of the account of the session
    otherwise ([None] when the session has no account to read the name of). *)
Definition principal (s : SSHSession) : option string :=
  if decide (ForceUser (State s) ≠ "") then Some (ForceUser (State s))
  else Username <$> deref s (Account_ s).

(** The key [addTempAuth] hands to the agent. *)
Definition tempKey (cert : Certificate) (privateKey : PrivateKey) (addr : string)
  : AddedKey :=
  {| AddedPrivateKey := privateKey; AddedCertificate := cert; LifetimeSecs := 10;
     AddedComment := "temporary ssh certificate (" +:+ addr +:+ ")" |}.

(** The decision of the policy matcher as the specification words it: allow
    if and only if (the whitelist is absent or matches the host) and (the
    blacklist is absent or does not match the host). *)
Definition policy_allows (whitelist blacklist : option Regexp) (host : string) : bool :=
  match whitelist with None => true | Some re => Match re host end
  && match blacklist with None => true | Some re => negb (Match re host) end.

(** [func (s *SSHSession) addTempAuth(addr string) error] *)
Definition addTempAuth (E : Env) (addr : string) : M (option error) :=
  s ← get;
  username ←
    (if decide (ForceUser (State s) ≠ "") then mret (ForceUser (State s))
     else match deref s (Account_ s) with
          | Some account => mret (Username account)
          | None => panic
          end);
  let r := ca_Generate E (UUID s) username (ForceCommand (State s)) in
  emit (EGenerate (UUID s) username (ForceCommand (State s)) r);;
  match r with
  | Err err => mret (Some err)
  | Ok (cert, privateKey) =>
      (* Now we add the generated key and certificate to the users agent *)
      match Agent_ s with
      | None => panic
      | Some a =>
          let key := tempKey cert privateKey addr in
          emit (EAdd a key (Add E a key));;
          mret (Add E a key)
      end
  end.

(** The loop [for _, wp := range s.State.WebhookProviders] of
    [notifyConnection]. *)
Fixpoint range_providers (addr : string) (wps : list string) : M unit :=
  match wps with
  | [] => mret tt
  | wp :: wps =>
      s ← get;
      emit (ENotifySessionStart wp (User (Conn s)) (UUID s) addr (RemoteAddr (Conn s)));;
      range_providers addr wps
  end.

(** [func (s *SSHSession) notifyConnection(addr string)] *)
Definition notifyConnection (addr : string) : M unit :=
  s ← get;
  range_providers addr (WebhookProviders (State s)).

(** The events [notifyConnection] sends: one per provider, in order. *)
Definition notifications (s : SSHSession) (addr : string) : list Event :=
  (λ wp, ENotifySessionStart wp (User (Conn s)) (UUID s) addr (RemoteAddr (Conn s)))
    <$> WebhookProviders (State s).

Definition reject (reason : RejectionReason) (msg : string) : M unit :=
  emit (EReject reason msg).

Definition logf (lvl msg : string) : M unit := emit (ELog lvl msg).

(** The signer carries a key of the index that is bound to the account of
    the session (the two pointers are equal). *)
Definition matches (s : SSHSession) (signer : Signer) : Prop :=
  ∃ accountKey, keys (State s) !! Marshal (SignerPublicKey signer) = Some accountKey
                ∧ Some (akAccount accountKey) = Account_ s.

(** The events that report a failed step of the verification: the agent does
    not list its signers, no random token, no signature, or a signature that
    does not verify. *)
Definition verification_failure (e : Event) : bool :=
  match e with
  | ESigners _ (Err _) | ERandRead _ (Err _) | ESign _ _ (Err _)
  | EVerify _ _ _ (Some _) => true
  | _ => false
  end.

(** The events of the steps after the policy check: certificate issuance,
    addition to the agent, notification, dial, acceptance of the channel and
    the start of the copy goroutines. *)
Definition after_policy (e : Event) : bool :=
  match e with
  | EGenerate _ _ _ _ | EAdd _ _ _ | ENotifySessionStart _ _ _ _ _ | EDial _ _ _
  | EAccept _ | EGo (CopyThenClose _ _ _ _) => true
  | _ => false
  end.

(** The loop [for _, signer := range signers] of [handleChannelForward]:
    [continue] goes to the next signer, [break] ends the loop with a value,
    [return] ends the handler. *)
Fixpoint range_signers (E : Env) (signers : list Signer) : M unit :=
  match signers with
  | [] => mret tt
  | signer :: signers =>
      s ← get;
      (* Check if the public key exists *)
      match keys (State s) !! Marshal (SignerPublicKey signer) with
      | None => range_signers E signers
      | Some accountKey =>
          (* Verify whether the public key is for the current sessions account *)
          if decide (Some (akAccount accountKey) ≠ Account_ s)
          then range_signers E signers
          else
            (* If it is, validate a random string *)
            emit (ERandRead 128 (rand_Read E 128));;
            match rand_Read E 128 with
            | Err _ =>
                logf "error" "Rejecting forward: failed to generate random token";;
                reject Prohibited "cannot generate random token";;
                return_
            | Ok randomToken =>
                (* Sign the random token with the signer *)
                emit (ESign signer randomToken (Sign E signer randomToken));;
                match Sign E signer randomToken with
                | Err _ =>
                    logf "error" "Rejecting forward: failed to sign random token";;
                    reject Prohibited "cannot sign random token";;
                    return_
                | Ok sig =>
                    (* Verify the signature *)
                    emit (EVerify (Key accountKey) randomToken sig
                            (Verify E (Key accountKey) randomToken sig));;
                    match Verify E (Key accountKey) randomToken sig with
                    | Some _ =>
                        logf "error"
                          "Rejecting forward: failed to verify random token signature";;
                        reject Prohibited "signature verification failed";;
                        return_
                    | None =>
                        logf "info" "Public key verification completed";;
                        s ← get;
                        put (set_verified true s)
                    end
                end
            end
      end
  end.

(** The first part of [handleChannelForward], up to the end of the
    verification: it opens the channel to the agent of the client and, on a
    session that is not verified yet, has the agent sign a random token.  Its
    value is the channel to the agent. *)
Definition agentVerification (E : Env) : M Channel :=
  (* Attempt to open a channel to the auth agent *)
  emit (EOpenChannel "auth-agent@openssh.com" (OpenChannel E "auth-agent@openssh.com"));;
  match OpenChannel E "auth-agent@openssh.com" with
  | Err _ =>
      logf "error" "Rejecting forward: failed to open ssh agent";;
      reject Prohibited "you must have an ssh agent open and forwarded";;
      return_
  | Ok agentChan =>
      (* Just discard further requests *)
      emit (EGo DiscardRequests);;
      (* Open an agent on the channel *)
      s ← get;
      put (set_Agent (NewClient agentChan) s);;
      (* If the session has not been verified yet, we must do that now *)
      s ← get;
      (if negb (verified s) then
         match Agent_ s with
         | None => panic
         | Some a =>
             emit (ESigners a (Signers E a));;
             match Signers E a with
             | Err _ =>
                 logf "error"
                   "Rejecting forward: failed to get list of signers from agent";;
                 reject Prohibited "agent will not give us a list of signers";;
                 return_
             | Ok signers => range_signers E signers
             end
         end
       else mret tt);;
      mret agentChan
  end.

(** The second part of [handleChannelForward], from the decoding of the
    request on; [agentChan] is the channel the first part opened. *)
Definition forwardRequest (E : Env) (newChannel : NewChannel) (agentChan : Channel)
  : M unit :=
  (* Finally, we're ready to find out where the client wants to go *)
  let msg := (Unmarshal (ExtraData newChannel)).1 in
  let address := RAddr msg +:+ ":" +:+ pretty (RPort msg) in
  s ← get;
  match canConnectTo s (RAddr msg) with
  | None => panic
  | Some false =>
      logf "error"
        "Rejecting forward: destination does not match whitelist/blacklist checks";;
      reject ConnectionFailed "invalid permissions";;
      return_
  | Some true =>
      (* Now that we're verified, we must ask the SSH-CA to generate and
         sign a valid SSH key/cert that we can use to login. *)
      err ← addTempAuth E (RAddr msg);
      match err with
      | Some _ =>
          logf "error" "Rejecting forward: failed to generate or add ssh certificate";;
          reject Prohibited "failed to generate or add ssh certificate";;
          return_
      | None =>
          notifyConnection (RAddr msg);;
          emit (EDial "tcp" address (Dial E "tcp" address));;
          match Dial E "tcp" address with
          | Err err =>
              logf "error"
                "Rejecting forward: failed to open TCP connection to remote host";;
              reject ConnectionFailed ("error: " +:+ err);;
              return_
          | Ok conn =>
              s ← get;
              put (set_Proxies (Proxies s ++ [conn]) s);;
              emit (EAccept (Accept E));;
              let channel := match Accept E with
                             | Ok c => Some c
                             | Err _ => None
                             end in
              emit (EGo DiscardRequests);;
              emit (EGo (CopyThenClose true agentChan channel conn));;
              emit (EGo (CopyThenClose false agentChan channel conn))
          end
      end
  end.

(** [func (s *SSHSession) handleChannelForward(newChannel ssh.NewChannel)] *)
Definition handleChannelForward (E : Env) (newChannel : NewChannel) : M unit :=
  agentChan ← agentVerification E;
  forwardRequest E newChannel agentChan.

(** [func (s *SSHSession) handleChannel(newChannel ssh.NewChannel)] *)
Definition handleChannel (E : Env) (newChannel : NewChannel) : M unit :=
  if decide (ChannelType newChannel = "direct-tcpip")
  then call (handleChannelForward E newChannel)
  else
    logf "error" "Rejecting channel with invalid channel type";;
    reject UnknownChannelType "unknown channel type".

(** [func (s *SSHSession) handleChannels(chans <-chan ssh.NewChannel)]: the
    channels the client opens arrive with the answers the outside world gives
    while each is handled; the handlers run one after the other, in the order
    of arrival.  When the stream ends the session leaves the session table. *)
Fixpoint range_chans (chans : list (Env * NewChannel)) : M unit :=
  match chans with
  | [] => mret tt
  | (E, newChannel) :: chans => call (handleChannel E newChannel);; range_chans chans
  end.

Definition handleChannels (chans : list (Env * NewChannel)) : M unit :=
  range_chans chans;;
  s ← get;
  put (set_State
         {| ForceUser := ForceUser (State s); ForceCommand := ForceCommand (State s);
            WebhookProviders := WebhookProviders (State s);
            accounts := accounts (State s); keys := keys (State s);
            sessions := sessions (State s) ∖ {[UUID s]}; heap := heap (State s) |} s).

(** One method call on a session, by whoever holds the session. *)
Inductive Method :=
| mClose (message : string)
| mHandleChannels (chans : list (Env * NewChannel))
| mHandleChannel (E : Env) (newChannel : NewChannel)
| mHandleChannelForward (E : Env) (newChannel : NewChannel)
| mCanConnectTo (addr : string)
| mAddTempAuth (E : Env) (addr : string)
| mNotifyConnection (addr : string).

Definition invoke (m : Method) : M unit :=
  match m with
  | mClose message => Close message
  | mHandleChannels chans => call (handleChannels chans)
  | mHandleChannel E newChannel => call (handleChannel E newChannel)
  | mHandleChannelForward E newChannel => call (handleChannelForward E newChannel)
  | mCanConnectTo addr =>
      s ← get; match canConnectTo s addr with Some _ => mret tt | None => panic end
  | mAddTempAuth E addr => _ ← addTempAuth E addr; mret tt
  | mNotifyConnection addr => notifyConnection addr
  end.

(** The session and the trace after a sequence of method calls (a panic ends
    the sequence). *)
Fixpoint invoke_all (ms : list Method) (s : SSHSession) : SSHSession * list Event :=
  match ms with
  | [] => (s, [])
  | m :: ms =>
      match invoke m s with
      | (Value _, s', t) | (Returned, s', t) =>
          let '(s'', t') := invoke_all ms s' in (s'', t ++ t')
      | (Panicked, s', t) => (s', t)
      end
  end.

End Forward.

(** ** The teardown of a proxied channel *)

Module Latch.

(** The three endpoints the teardown closure closes. *)
Inductive Endpoint := agentChan | channel | conn.

#[global] Instance Endpoint_eq_dec : EqDecision Endpoint.
Proof. solve_decision. Defined.

(** [closeFunc]: the calls of [Close] its body makes, in order. *)
Definition closeFunc : list Endpoint := [agentChan; channel; conn].

(** [sync.Once]: whether its function has been run. *)
Record Once := { done : bool }.

(** The proxy of one channel: where each of the two goroutines stands, the
    latch [closer], and the calls of [Close] made so far. *)
Inductive pc :=
| Copying      (* inside io.Copy *)
| Triggering   (* io.Copy has returned, closer.Do(closeFunc) is next *)
| Finished.    (* closer.Do(closeFunc) has returned *)

Record Proxy := {
  toClient : pc;      (* go func() { io.Copy(channel, conn); closer.Do(closeFunc) }() *)
  toServer : pc;      (* go func() { io.Copy(conn, channel); closer.Do(closeFunc) }() *)
  closer : Once;
  closed : list Endpoint
}.

(** [func (o *Once) Do(f func())]: runs [f] if and only if [Do] is called for
    the first time on [o]; calls are serialised by the mutex of [o], so one
    call is one step. *)
Definition Do (o : Once) (f : list Endpoint) (closed : list Endpoint)
  : Once * list Endpoint :=
  if done o then (o, closed) else ({| done := true |}, closed ++ f).

(** The proxy when the handler has started both goroutines. *)
Definition start : Proxy :=
  {| toClient := Copying; toServer := Copying; closer := {| done := false |};
     closed := [] |}.

(** One step of one of the two goroutines. *)
Inductive step : Proxy → Proxy → Prop :=
| toClient_eof p :
    toClient p = Copying →
    step p {| toClient := Triggering; toServer := toServer p; closer := closer p;
              closed := closed p |}
| toClient_do p :
    toClient p = Triggering →
    step p {| toClient := Finished; toServer := toServer p;
              closer := (Do (closer p) closeFunc (closed p)).1;
              closed := (Do (closer p) closeFunc (closed p)).2 |}
| toServer_eof p :
    toServer p = Copying →
    step p {| toClient := toClient p; toServer := Triggering; closer := closer p;
              closed := closed p |}
| toServer_do p :
    toServer p = Triggering →
    step p {| toClient := toClient p; toServer := Finished;
              closer := (Do (closer p) closeFunc (closed p)).1;
              closed := (Do (closer p) closeFunc (closed p)).2 |}.

(** [n] calls of [closer.Do(closeFunc)] in a row. *)
Fixpoint Do_times (n : nat) (o : Once) (closed : list Endpoint) : Once * list Endpoint :=
  match n with
  | 0 => (o, closed)
  | S n => let '(o, closed) := Do o closeFunc closed in Do_times n o closed
  end.

(** How many times the body of the closure has run: each run closes [conn]
    once, as its last call. *)
Definition runs (closed : list Endpoint) : nat :=
  length (filter (λ e, e = conn) closed).

(** What holds of the proxy at every moment: the body of the closure has run
    once when the latch is set and not at all when it is not, and the latch is
    set exactly when one of the goroutines has been through its call of
    [Do]. *)
Definition latch_inv (p : Proxy) : Prop :=
  closed p = (if done (closer p) then closeFunc else []) ∧
  (done (closer p) = true ↔ toClient p = Finished ∨ toServer p = Finished).

End Latch.

(** ** Sample data

    Two accounts files, a store, a session and a few clients, to run the code
    on. *)

Module Sample.

(** Lines of authorized keys: an empty line does not parse, any other line is
    a key whose wire format is the line. *)
Definition ParseAuthorizedKey (raw : string) : result (PublicKey * string * list string) :=
  if decide (raw = "") then Err "ssh: no key found"
  else Ok ({| Marshal := raw |}, "", []).

Definition account (name : string) (sshKeys : list string)
    (whitelist blacklist : option Regexp) : Account :=
  {| Username := name; Password := ""; SSHKeysRaw := sshKeys; TOTP := "";
     Shell_ := "/bin/sh"; Whitelist := ""; Blacklist := "";
     whitelistRe := whitelist; blacklistRe := blacklist |}.

Definition key_alice : PublicKey := {| Marshal := "ssh-ed25519 AAAA-alice" |}.
Definition key_bob : PublicKey := {| Marshal := "ssh-ed25519 AAAA-bob" |}.

(** [alice] may go anywhere but to [evil.example.com]; [bob] may go to
    [db-01] only. *)
Definition alice : Account :=
  account "alice" ["ssh-ed25519 AAAA-alice"] None
    (Some (λ host, bool_decide (host = "evil.example.com"))).
Definition bob : Account :=
  account "bob" ["ssh-ed25519 AAAA-bob"]
    (Some (λ host, bool_decide (host = "db-01"))) None.

(** [accounts.json] lists [alice], then [bob]; [duplicate.json] lists [alice]
    twice. *)
Definition LoadAccounts (path : string) : result (list Account) :=
  if decide (path = "accounts.json") then Ok [alice; bob]
  else if decide (path = "duplicate.json") then Ok [alice; bob; alice]
  else Err "open: no such file or directory".

(** The daemon of the shell variant after its first load of [accounts.json],
    and the same daemon pointed at [duplicate.json]. *)
Definition boot : Shell.SSHDState :=
  {| Shell.ConfigAccounts := "accounts.json"; Shell.log := []; Shell.accounts := ∅;
     Shell.keys := ∅; Shell.heap := [] |}.

Definition store : Shell.SSHDState :=
  Shell.reloadAccounts LoadAccounts ParseAuthorizedKey boot.

Definition store_duplicate : Shell.SSHDState :=
  {| Shell.ConfigAccounts := "duplicate.json"; Shell.log := Shell.log store;
     Shell.accounts := Shell.accounts store; Shell.keys := Shell.keys store;
     Shell.heap := Shell.heap store |}.

(** The forwarding daemon, with [alice] at address 0 and [bob] at address 1. *)
Definition state : Forward.SSHDState :=
  {| Forward.ForceUser := ""; Forward.ForceCommand := "";
     Forward.WebhookProviders := ["discord"];
     Forward.accounts := {[ "alice" := 0; "bob" := 1 ]};
     Forward.keys :=
       {[ "ssh-ed25519 AAAA-alice" :=
            {| akAccount := 0; Key := key_alice; Comment := ""; Options := [] |};
          "ssh-ed25519 AAAA-bob" :=
            {| akAccount := 1; Key := key_bob; Comment := ""; Options := [] |} ]};
     Forward.sessions := {[ "6ba7b810"; "6ba7b811" ]};
     Forward.heap := [alice; bob] |}.

Definition session_alice : Forward.SSHSession :=
  (Forward.NewSSHSession "6ba7b810" state
     {| Forward.User := "alice"; Forward.RemoteAddr := "198.51.100.7:50022" |}).1.
Definition session_bob : Forward.SSHSession :=
  (Forward.NewSSHSession "6ba7b811" state
     {| Forward.User := "bob"; Forward.RemoteAddr := "198.51.100.8:50023" |}).1.

(** A client: whether it opens the channel to its agent (and which), the
    signers its agent lists, whether the signature verifies, and whether the
    agent takes a key. *)
Definition client (agentChannel : result Forward.Channel)
    (signers : result (list Forward.Signer)) (verify add : option error) : Forward.Env :=
  {| Forward.OpenChannel := λ _, agentChannel;
     Forward.Signers := λ _, signers;
     Forward.rand_Read := λ n, Ok (replicate n "*"%byte);
     Forward.Sign := λ _ data, Ok (reverse data);
     Forward.Verify := λ _ _ _, verify;
     Forward.ca_keypair := λ _, Ok ({| Marshal := "ssh-ed25519 AAAA-fresh" |}, 99);
     Forward.Add := λ _ _, add;
     Forward.Dial := λ _ _, Ok 3;
     Forward.Accept := Ok 5 |}.

Definition signer_alice : Forward.Signer :=
  {| Forward.signerId := 1; Forward.SignerPublicKey := key_alice |}.
Definition signer_stranger : Forward.Signer :=
  {| Forward.signerId := 2;
     Forward.SignerPublicKey := {| Marshal := "ssh-ed25519 AAAA-stranger" |} |}.

Definition honest : Forward.Env := client (Ok 7) (Ok [signer_stranger; signer_alice]) None None.
Definition honest_again : Forward.Env := client (Ok 8) (Ok [signer_alice]) None None.
Definition no_matching_signer : Forward.Env := client (Ok 7) (Ok [signer_stranger]) None None.
Definition wrong_signature : Forward.Env :=
  client (Ok 7) (Ok [signer_alice]) (Some "ssh: signature did not verify") None.
Definition full_agent : Forward.Env :=
  client (Ok 7) (Ok [signer_alice]) None (Some "agent: failure").

(** The wire format of a [uint32] and of a [string], to write requests with. *)
Definition putUint32 (n : N) : list byte :=
  (λ k, default "000"%byte (Byte.of_N ((n `div` 256 ^ k) `mod` 256)%N)) <$> [3; 2; 1; 0]%N.
Definition putString (s : string) : list byte :=
  putUint32 (N.of_nat (String.length s)) ++ String.list_byte_of_string s.

Definition direct_tcpip (raddr : string) (rport : N) : Forward.NewChannel :=
  {| Forward.ChannelType := "direct-tcpip";
     Forward.ExtraData :=
       putString raddr ++ putUint32 rport ++ putString "127.0.0.1" ++ putUint32 50100 |}.

(** A request cut short in the middle of its port. *)
Definition truncated : Forward.NewChannel :=
  {| Forward.ChannelType := "direct-tcpip";
     Forward.ExtraData := putString "db-01" ++ ["000"; "000"]%byte |}.

(** The two copy goroutines, the one towards the client finishing first. *)
Definition torn_down : Latch.Proxy :=
  {| Latch.toClient := Latch.Finished; Latch.toServer := Latch.Triggering;
     Latch.closer := {| Latch.done := true |};
     Latch.closed := [Latch.agentChan; Latch.channel; Latch.conn] |}.

End Sample.

(** ** Reading a trace of the forward handler *)

Module ForwardTrace.

Import Forward.

(** The two answers of the bastion to the request of a channel. *)
Definition verdict (e : Event) : bool :=
  match e with
  | EReject _ _ | EAccept _ => true
  | _ => false
  end.

(** A question to the agent of the client during the verification, or the
    random token drawn for it. *)
Definition challenge (e : Event) : bool :=
  match e with
  | ESigners _ _ | ERandRead _ _ | ESign _ _ _ | EVerify _ _ _ _ => true
  | _ => false
  end.

Definition signature_request (e : Event) : bool :=
  match e with
  | ESign _ _ _ => true
  | _ => false
  end.

Definition notification (e : Event) : bool :=
  match e with
  | ENotifySessionStart _ _ _ _ _ => true
  | _ => false
  end.

Definition dial (e : Event) : bool :=
  match e with
  | EDial _ _ _ => true
  | _ => false
  end.

(** The events of the first part of the handler. *)
Definition agent_step (e : Event) : bool :=
  match e with
  | EOpenChannel _ _ | EGo DiscardRequests | ESigners _ _ | ERandRead _ _
  | ESign _ _ _ | EVerify _ _ _ _ | ELog _ _ | EReject Prohibited _ => true
  | _ => false
  end.

(** What a method leaves of a session: its identifier, its account, its
    connection and everything of the daemon but the table of sessions, which
    does not grow; and the proxied connections it had, in front of those it
    has. *)
Definition kept (s s' : SSHSession) : Prop :=
  UUID s' = UUID s ∧ Account_ s' = Account_ s ∧ Conn s' = Conn s ∧
  ForceUser (State s') = ForceUser (State s) ∧
  ForceCommand (State s') = ForceCommand (State s) ∧
  WebhookProviders (State s') = WebhookProviders (State s) ∧
  accounts (State s') = accounts (State s) ∧
  keys (State s') = keys (State s) ∧
  heap (State s') = heap (State s) ∧
  sessions (State s') ⊆ sessions (State s) ∧
  Proxies s `prefix_of` Proxies s'.

End ForwardTrace.

(** ** The request of a [direct-tcpip] channel on the wire *)

Module Wire.

(** The extra data of a [direct-tcpip] channel (RFC 4254, section 7.2): the
    host and the port to connect to, then the address and the port the
    connection comes from. *)
Definition direct_tcpip_data (raddr : string) (rport : N) (laddr : string) (lport : N)
  : list byte :=
  Sample.putString raddr ++ Sample.putUint32 rport ++
  Sample.putString laddr ++ Sample.putUint32 lport.

End Wire.

(** ** Where the entries of the key index come from *)

Module StoreSpec.

(** The entry [accountKey] stored under [k] is the key of one of the lines
    [rawKeys]: the line parses to its key, comment and options, and [k] is the
    wire format of the key. *)
Definition from_line
    (ParseAuthorizedKey : string → result (PublicKey * string * list string))
    (rawKeys : list string) (k : string) (accountKey : AccountKey) : Prop :=
  ID accountKey = k ∧
  ∃ rawKey,
    rawKey ∈ rawKeys ∧
    ParseAuthorizedKey rawKey =
      Ok (Key accountKey, Comment accountKey, Options accountKey).

End StoreSpec.

(** ** The session of the shell variant *)

Module ShellSession.

Import Shell.

Definition Channel := nat.
Definition File := nat.

(** What the session reads of the configuration of the daemon. *)
Record Config := {
  RecordingPath : string;
  MOTD : string
}.

(** [ssh.ConnMetadata], as far as the daemon reads it. *)
Record ServerConn := {
  User : string;
  RemoteAddr : string;
  ClientVersion : string
}.

Record SSHSession := {
  UUID : string;
  State : SSHDState;
  Config_ : Config;
  Account_ : option loc;
  Conn : ServerConn;
  RecordingFile : option File
}.

(** [ssh.NewChannel] and [ssh.Request], as far as the session reads them. *)
Record NewChannel := { ChannelType : string }.

Record Request := {
  Type_ : string;
  WantReply : bool;
  Payload : list byte
}.

(** [Winsize], the argument of the [TIOCSWINSZ] call; its fields are
    [uint16]. *)
Record Winsize := {
  Height : N;
  Width : N;
  x : N;
  y : N
}.

(** Where a copy loop writes. *)
Inductive Sink :=
| ToShell
| ToClient
| ToRecording (file : File).

Inductive Goroutine :=
| DiscardRequests
| HandleChannels (s : SSHSession)
| CopyIn (connection : Channel) (bashf : File)
| CopyOut (connection : Channel) (bashf : File)
| Requests (bashf : File).

(** What the daemon does to the outside, in the order it does it. *)
Inductive Event :=
| EPrintf (message : string)
| ECreate (path : string) (r : result File)
| EReject (reason : Forward.RejectionReason) (message : string)
| EAccept (r : result Channel)
| ELog (lvl message : string)
| ETermWrite (data : string)
| EReadLine (r : result string)
| EValidate (passcode secret : string) (ok : bool)
| EConnClose
| EPtyStart (shell : string) (r : result File)
| EGo (g : Goroutine)
| EReply (ok : bool)
| ESetWinsize (fd : File) (ws : Winsize)
| EWrite (to : Sink) (data : list byte)
| EOnceDo.

(** How a function ends: it returns, the process exits ([log.Fatal]), or it
    panics. *)
Inductive ending := Done | Exit | Panic.

(** The answers of the outside to one channel: the result of
    [newChannel.Accept], the result of the [i]-th [term.ReadLine], the verdict
    of [totp.Validate] at the time of the [i]-th attempt, and the result of
    [pty.Start]. *)
Record Env := {
  Accept : result Channel;
  ReadLine : nat → result string;
  Validate : nat → string → string → bool;
  PtyStart : string → result File
}.

Definition CRLF : string :=
  String (Ascii.ascii_of_nat 13) (String (Ascii.ascii_of_nat 10) "").

(** [s.Account], followed. *)
Definition deref (s : SSHSession) : option Account :=
  p ← Account_ s; heap (State s) !! p.

(** [func NewSSHSession(state *SSHDState, conn *ssh.ServerConn) *SSHSession],
    with the identifier drawn for it and the result of [os.Create]. *)
Definition NewSSHSession (id : string) (create : result File) (config : Config)
    (state : SSHDState) (conn : ServerConn) : SSHSession * list Event :=
  let path := RecordingPath config +:+ id +:+ ".rec" in
  ({| UUID := id; State := state; Config_ := config;
      Account_ := accounts state !! User conn; Conn := conn;
      RecordingFile := match create with Ok file => Some file | Err _ => None end |},
   ECreate path create ::
   match create with
   | Ok _ => []
   | Err _ => [ELog "warn" "Couldn't create recording file"]
   end).

(** [for i := 0; i < 3; i++], with [n] iterations to go: the result is
    [valid], or [None] when [s.Account] is nil at the time its secret is
    read. *)
Fixpoint mfa (E : Env) (account : option Account) (i n : nat) : option bool * list Event :=
  match n with
  | 0 => (Some false, [])
  | S n =>
      let t := [ETermWrite "MFA Code: "; EReadLine (ReadLine E i)] in
      match ReadLine E i with
      | Err _ => (Some false, t)
      | Ok line =>
          match account with
          | None => (None, t)
          | Some a =>
              if Validate E i line (TOTP a)
              then (Some true, t ++ [EValidate line (TOTP a) true])
              else
                let '(valid, t') := mfa E account (S i) n in
                (valid, t ++ EValidate line (TOTP a) false :: t')
          end
      end
  end.

(** [func (s *SSHSession) handleChannel(newChannel ssh.NewChannel)].  When
    [pty.Start] fails the handler calls its teardown [close], which closes the
    connection and then waits for [bash.Process]: no process was started, the
    pointer is nil, and the call panics. *)
Definition handleChannel (E : Env) (newChannel : NewChannel) (s : SSHSession)
  : ending * list Event :=
  if decide (ChannelType newChannel ≠ "session") then
    (Done, [EReject Forward.UnknownChannelType
              ("unknown channel type: " +:+ ChannelType newChannel)])
  else
    match Accept E with
    | Err _ => (Done, [EAccept (Accept E); ELog "warn" "Could not accept channel"])
    | Ok connection =>
        let t0 := [EAccept (Ok connection);
                   ETermWrite ("Session " +:+ UUID s +:+ " opened" +:+ CRLF);
                   ETermWrite (MOTD (Config_ s) +:+ CRLF)] in
        match mfa E (deref s) 0 3 with
        | (None, t) => (Panic, t0 ++ t)
        | (Some false, t) => (Done, t0 ++ t ++ [EConnClose])
        | (Some true, t) =>
            match deref s with
            | None => (Panic, t0 ++ t)
            | Some a =>
                let t1 := [ELog "info" "shell created";
                           EPtyStart (Shell_ a) (PtyStart E (Shell_ a))] in
                match PtyStart E (Shell_ a) with
                | Err _ =>
                    (Panic, t0 ++ t ++ t1 ++ [ELog "warn" "could not start pty"; EConnClose])
                | Ok bashf =>
                    (Done, t0 ++ t ++ t1 ++
                           [EGo (CopyIn connection bashf); EGo (CopyOut connection bashf);
                            EGo (Requests bashf)])
                end
            end
        end
    end.

(** [binary.BigEndian.Uint32(b)], which panics on fewer than four bytes. *)
Definition Uint32 (b : list byte) : option N :=
  match b with
  | b0 :: b1 :: b2 :: b3 :: _ =>
      Some (((Byte.to_N b0 * 256 + Byte.to_N b1) * 256 + Byte.to_N b2) * 256
            + Byte.to_N b3)%N
  | _ => None
  end.

(** [func parseDims(b []byte) (uint32, uint32)]; [None] is the panic of a
    buffer that is too short. *)
Definition parseDims (b : list byte) : option (N * N) :=
  w ← Uint32 b;
  h ← (if decide (length b < 4)%nat then None else Uint32 (drop 4 b));
  Some (w, h).

(** [func SetWinsize(fd uintptr, w, h uint32)]: the two conversions to
    [uint16], then the system call. *)
Definition SetWinsize (fd : File) (w h : N) : Event :=
  ESetWinsize fd {| Height := h `mod` 2 ^ 16; Width := w `mod` 2 ^ 16; x := 0; y := 0 |}%N.

(** The body of [for req := range requests].  [termLen] is a [byte], and so
    is [termLen+4]. *)
Definition serve (bashf : File) (req : Request) : ending * list Event :=
  if decide (Type_ req = "shell") then
    if decide (length (Payload req) = 0) then (Done, [EReply true]) else (Done, [])
  else if decide (Type_ req = "pty-req") then
    match Payload req !! 3 with
    | None => (Panic, [])
    | Some termLen =>
        let from := N.to_nat ((Byte.to_N termLen + 4) `mod` 256)%N in
        if decide (length (Payload req) < from)%nat then (Panic, [])
        else
          match parseDims (drop from (Payload req)) with
          | None => (Panic, [])
          | Some (w, h) => (Done, [SetWinsize bashf w h; EReply true])
          end
    end
  else if decide (Type_ req = "window-change") then
    match parseDims (Payload req) with
    | None => (Panic, [])
    | Some (w, h) => (Done, [SetWinsize bashf w h])
    end
  else (Done, []).

(** [for req := range requests] *)
Fixpoint range_requests (bashf : File) (requests : list Request) : ending * list Event :=
  match requests with
  | [] => (Done, [])
  | req :: requests =>
      match serve bashf req with
      | (Done, t) => let '(r, t') := range_requests bashf requests in (r, t ++ t')
      | (r, t) => (r, t)
      end
  end.

Definition io_EOF : error := "EOF".

(** The loop [for err != io.EOF] of the goroutine that copies the output of
    the shell to the client and to the recording, over the results of the
    successive calls of [bashf.Read] (the bytes [buffer[:size]] and the
    error).  The result says whether the loop has come to [once.Do(close)];
    it has not when the reads known so far do not end it. *)
Fixpoint copy_out (recording : option File) (reads : list (list byte * option error))
  : bool * list Event :=
  match reads with
  | [] => (false, [])
  | (data, err) :: reads =>
      let t := EWrite ToClient data ::
               match recording with
               | Some file => [EWrite (ToRecording file) data]
               | None => []
               end in
      if decide (err = Some io_EOF) then (true, t ++ [EOnceDo])
      else let '(over, t') := copy_out recording reads in (over, t ++ t')
  end.

(** The loop of the goroutine that copies the input of the client to the
    shell, over the results of [connection.Read]. *)
Fixpoint copy_in (reads : list (list byte * option error)) : bool * list Event :=
  match reads with
  | [] => (false, [])
  | (data, err) :: reads =>
      if decide (err = Some io_EOF) then (true, [EWrite ToShell data; EOnceDo])
      else let '(over, t') := copy_in reads in (over, EWrite ToShell data :: t')
  end.

(** What [listener.Accept] and [ssh.NewServerConn] give for one incoming
    connection.  A handshake that fails gives a nil connection with its
    error; one that succeeds comes with the identifier drawn for the session
    and the result of the creation of its recording file. *)
Inductive Incoming :=
| AcceptFails (err : error)
| HandshakeFails (err : error)
| Handshaken (conn : ServerConn) (id : string) (create : result File).

(** [for { ... }] of [Run], over the connections that have come in so far. *)
Fixpoint accept_loop (config : Config) (s : SSHDState) (incoming : list Incoming)
  : ending * list Event :=
  match incoming with
  | [] => (Done, [])
  | AcceptFails err :: incoming =>
      let '(r, t) := accept_loop config s incoming in
      (r, EPrintf "Failed to accept incoming connection" :: t)
  | HandshakeFails err :: incoming => (Panic, [])
  | Handshaken conn id create :: incoming =>
      let '(session, t0) := NewSSHSession id create config s conn in
      let '(r, t) := accept_loop config s incoming in
      (r, t0 ++ [ELog "info" "New SSH connection"; EGo DiscardRequests;
                 EGo (HandleChannels session)] ++ t)
  end.

(** [func (s *SSHDState) Run()], given the results of [ioutil.ReadFile],
    [ssh.ParsePrivateKey] and [net.Listen]. *)
Definition Run (config : Config) (readFile parsePrivateKey listen : option error)
    (s : SSHDState) (incoming : list Incoming) : ending * list Event :=
  match readFile with
  | Some _ => (Exit, [EPrintf "Failed to load private key"])
  | None =>
      match parsePrivateKey with
      | Some _ => (Exit, [EPrintf "Failed to parse private key"])
      | None =>
          match listen with
          | Some _ => (Exit, [EPrintf "Failed to listen on 2200"])
          | None =>
              let '(r, t) := accept_loop config s incoming in
              (r, EPrintf "Listening" :: t)
          end
      end
  end.

(** The sessions a trace has started. *)
Definition started (e : Event) : option SSHSession :=
  match e with
  | EGo (HandleChannels s) => Some s
  | _ => None
  end.

(** The reading of a code, and the start of the shell. *)
Definition attempt (e : Event) : bool :=
  match e with
  | EReadLine _ => true
  | _ => false
  end.

Definition shell_start (e : Event) : bool :=
  match e with
  | EPtyStart _ _ => true
  | _ => false
  end.

(** The [k]-th code read validates, and the codes read before it were read
    without error and did not validate. *)
Definition passes (E : Env) (secret : string) (k : nat) : Prop :=
  (∃ line, ReadLine E k = Ok line ∧ Validate E k line secret = true) ∧
  ∀ j, (j < k)%nat →
    ∃ line, ReadLine E j = Ok line ∧ Validate E j line secret = false.

(** The bytes a trace writes to a sink, in order. *)
Definition written (to : Sink) (e : Event) : list byte :=
  match e with
  | EWrite to' data =>
      match to, to' with
      | ToShell, ToShell | ToClient, ToClient => data
      | ToRecording f, ToRecording f' => if decide (f = f') then data else []
      | _, _ => []
      end
  | _ => []
  end.

(** The reads of a copy loop up to the first that returns [io.EOF], this
    one included. *)
Fixpoint until_EOF (reads : list (list byte * option error))
  : list (list byte * option error) :=
  match reads with
  | [] => []
  | (data, err) :: reads =>
      (data, err) :: if decide (err = Some io_EOF) then [] else until_EOF reads
  end.

(** The sessions of the connections whose handshake went well. *)
Definition sessions_of (config : Config) (s : SSHDState) (incoming : list Incoming)
  : list SSHSession :=
  omap (λ c, match c with
             | Handshaken conn id create =>
                 Some (NewSSHSession id create config s conn).1
             | _ => None
             end) incoming.

(** The replies of a trace. *)
Definition reply (e : Event) : bool :=
  match e with
  | EReply _ => true
  | _ => false
  end.

(** The payload of a [pty-req] request (RFC 4254, section 6.2), from the name
    of the terminal to the dimensions in characters; [rest] holds the
    dimensions in pixels and the terminal modes.  And the payload of a
    [window-change] request (section 6.7). *)
Definition pty_req_data (term : string) (cols rows : N) (rest : list byte) : list byte :=
  Sample.putString term ++ Sample.putUint32 cols ++ Sample.putUint32 rows ++ rest.

Definition window_change_data (cols rows : N) (rest : list byte) : list byte :=
  Sample.putUint32 cols ++ Sample.putUint32 rows ++ rest.

End ShellSession.

(** ** Sample data of the shell variant *)

Module SampleShell.

Import Shell ShellSession.

(** [accounts.json] lists [carol], then [dave]. *)
Definition carol : Account :=
  {| Username := "carol"; Password := ""; SSHKeysRaw := ["ssh-ed25519 AAAA-carol"];
     TOTP := "JBSWY3DPEHPK3PXP"; Shell_ := "/bin/bash"; Whitelist := ""; Blacklist := "";
     whitelistRe := None; blacklistRe := None |}.
Definition dave : Account :=
  {| Username := "dave"; Password := ""; SSHKeysRaw := ["ssh-ed25519 AAAA-dave"];
     TOTP := "GEZDGNBVGY3TQOJQ"; Shell_ := "/bin/zsh"; Whitelist := ""; Blacklist := "";
     whitelistRe := None; blacklistRe := None |}.

Definition LoadAccounts (path : string) : result (list Account) :=
  if decide (path = "accounts.json") then Ok [carol; dave]
  else Err "open: no such file or directory".

Definition boot : SSHDState :=
  {| ConfigAccounts := "accounts.json"; log := []; accounts := ∅; keys := ∅; heap := [] |}.

Definition config : Config :=
  {| RecordingPath := "/var/lib/bowser/"; MOTD := "Authorized use only" |}.

Definition conn_carol : ServerConn :=
  {| User := "carol"; RemoteAddr := "198.51.100.9:50031";
     ClientVersion := "SSH-2.0-OpenSSH_7.4" |}.
Definition conn_dave : ServerConn :=
  {| User := "dave"; RemoteAddr := "198.51.100.10:50032";
     ClientVersion := "SSH-2.0-OpenSSH_7.4" |}.

(** A client that types the codes [codes], then hangs up; [code] is the code
    that is valid for [secret] at the time. *)
Definition typist (codes : list string) (secret code : string) : Env :=
  {| Accept := Ok 4;
     ReadLine := λ i, match codes !! i with Some line => Ok line | None => Err io_EOF end;
     Validate := λ _ passcode s, bool_decide (passcode = code ∧ s = secret);
     PtyStart := λ _, Ok 9 |}.

Definition session_channel : NewChannel := {| ChannelType := "session" |}.

Definition shell_request : Request :=
  {| Type_ := "shell"; WantReply := true; Payload := [] |}.
Definition empty_pty_req : Request :=
  {| Type_ := "pty-req"; WantReply := true; Payload := [] |}.
Definition window_change (cols rows : N) : Request :=
  {| Type_ := "window-change"; WantReply := false;
     Payload := window_change_data cols rows (Sample.putUint32 640 ++ Sample.putUint32 480) |}.

End SampleShell.

(** ** The client of the HTTP API *)

Module API.

Definition InvalidSSHAuthSock : error := "Invalid SSH_AUTH_SOCK, is an agent running".
Definition InvalidSSHClientInformation : error := "Invalid SSH_CLIENT information".
Definition APIRequestFailed : error := "API Request failed".

(** [strings.Split(s, " ")]: the pieces of [s] between its spaces; a string
    without space is its only piece. *)
Fixpoint Split (s : string) : list string :=
  match s with
  | "" => [""]
  | String c s =>
      if decide (c = Ascii.Space) then "" :: Split s
      else
        match Split s with
        | piece :: pieces => String c piece :: pieces
        | [] => [String c ""]
        end
  end.

(** The characters of a string. *)
Fixpoint chars (s : string) : list Ascii.ascii :=
  match s with
  | "" => []
  | String c s => c :: chars s
  end.

Definition Socket := nat.

(** [agent.Key], by what [String] prints of it, and [ssh.Signature]. *)
Record Key := { String_ : string }.
Record Signature := { Format : string; Blob : list byte }.

(** [http.Request] and [http.Response], as far as the client touches them. *)
Record Request := {
  Method : string;
  URL : string;
  Body : option string;
  Header : gmap string (list string)
}.

Record Response := {
  StatusCode : Z;
  ResponseBody : nat
}.

Inductive Event :=
| EDial (network address : string) (r : result Socket)
| EList (socket : Socket) (r : result (list Key))
| ESign (socket : Socket) (key : Key) (data : list byte) (r : result Signature)
| EDo (req : Request) (r : result Response)
| EReadAll (body : nat) (r : result (list byte)).

(** How a call ends: it returns, or it panics. *)
Inductive returns (A : Type) : Type :=
| Return (a : A)
| Panics.
Arguments Return {A} a.
Arguments Panics {A}.

(** The environment of the process and the answers of the outside: the
    agent behind a socket, the clock, the server of the API, and the functions
    of the standard library that encode and decode.  [Decode] gives what
    [json.Unmarshal] leaves in the pointer [result]: the session read, by its
    [UUID], or [None] for the nil pointer that the JSON value [null] leaves
    there without error. *)
Record Env := {
  Getenv : string → string;
  DialTimeout : string → string → result Socket;
  List_ : Socket → result (list Key);
  Now_Unix : Z;
  Sign : Socket → Key → list byte → result Signature;
  base64 : list byte → string;
  NewRequest_err : string → string → option error;
  Do : Request → result Response;
  ReadAll : nat → result (list byte);
  Decode : list byte → result (option string);
  QueryEscape : string → string
}.

(** The conversion [int32(x)] of an [int64]. *)
Definition int32 (x : Z) : Z := ((x + 2 ^ 31) `mod` 2 ^ 32 - 2 ^ 31)%Z.

(** [func GetSSHClientConnection() (string, string, error)] *)
Definition GetSSHClientConnection (E : Env) : result (string * string) :=
  match Split (Getenv E "SSH_CLIENT") with
  | part0 :: part1 :: _ => Ok (part0, part1)
  | _ => Err InvalidSSHClientInformation
  end.

Definition Set_ (key value : string) (req : Request) : Request :=
  {| Method := Method req; URL := URL req; Body := Body req;
     Header := <[key := [value]]> (Header req) |}.

Definition Add (key value : string) (req : Request) : Request :=
  {| Method := Method req; URL := URL req; Body := Body req;
     Header := <[key := default [] (Header req !! key) ++ [value]]> (Header req) |}.

(** [func AuthenticateRequest(req *http.Request) error]: the error returned
    ([None] is nil), the request as the call leaves it, and what the call has
    done. *)
Definition AuthenticateRequest (E : Env) (req : Request)
  : returns (option error) * Request * list Event :=
  let authSock := Getenv E "SSH_AUTH_SOCK" in
  if decide (authSock = "") then (Return (Some InvalidSSHAuthSock), req, [])
  else
    let t0 := [EDial "unix" authSock (DialTimeout E "unix" authSock)] in
    match DialTimeout E "unix" authSock with
    | Err err => (Return (Some err), req, t0)
    | Ok socket =>
        let t1 := t0 ++ [EList socket (List_ E socket)] in
        match List_ E socket with
        | Err err => (Return (Some err), req, t1)
        | Ok keys =>
            let timestamp := pretty (int32 (Now_Unix E)) in
            match keys with
            | [] => (Panics, req, t1)
            | key :: _ =>
                let data := String.list_byte_of_string timestamp in
                let t2 := t1 ++ [ESign socket key data (Sign E socket key data)] in
                match Sign E socket key data with
                | Err err => (Return (Some err), req, t2)
                | Ok sig =>
                    match GetSSHClientConnection E with
                    | Err err => (Return (Some err), req, t2)
                    | Ok (sourceHost, sourcePort) =>
                        (Return None,
                         Set_ "SSH-Auth-Timestamp" timestamp
                           (Set_ "SSH-Auth-Signature" (base64 E (Blob sig))
                              (Set_ "SSH-Auth-Connection" (sourceHost +:+ ":" +:+ sourcePort)
                                 (Set_ "SSH-Auth-Key" (String_ key) req))),
                         t2)
                    end
                end
            end
        end
    end.

Record BowserAPIClient := { url : string }.

(** [func NewBowserAPIClient(proto string, port string)] *)
Definition NewBowserAPIClient (E : Env) (proto port : string) : result BowserAPIClient :=
  match GetSSHClientConnection E with
  | Err err => Err err
  | Ok (host, _) => Ok {| url := proto +:+ "://" +:+ host +:+ ":" +:+ port |}
  end.

(** [func (b *BowserAPIClient) request(method, url string, body io.Reader)]:
    the response and the error returned. *)
Definition request (E : Env) (b : BowserAPIClient) (method path : string)
    (body : option string)
  : returns (option Response * option error) * list Event :=
  match NewRequest_err E method (url b +:+ path) with
  | Some err => (Return (None, Some err), [])
  | None =>
      let req := Add "Content-Type" "application/x-www-form-urlencoded"
                   {| Method := method; URL := url b +:+ path; Body := body;
                      Header := ∅ |} in
      match AuthenticateRequest E req with
      | (Panics, _, t) => (Panics, t)
      | (Return (Some err), _, t) => (Return (None, Some err), t)
      | (Return None, req, t) =>
          let t := t ++ [EDo req (Do E req)] in
          match Do E req with
          | Err err => (Return (None, Some err), t)
          | Ok res =>
              if decide (StatusCode res ≠ 200 ∧ StatusCode res ≠ 204)%Z
              then (Return (Some res, Some APIRequestFailed), t)
              else (Return (Some res, None), t)
          end
      end
  end.

(** [func (b *BowserAPIClient) GetCurrentSessionInfo()], with the [UUID] of
    the session for the session; [Ok None] is the pair of a nil session and a
    nil error. *)
Definition GetCurrentSessionInfo (E : Env) (b : BowserAPIClient)
  : returns (result (option string)) * list Event :=
  match GetSSHClientConnection E with
  | Err err => (Return (Err err), [])
  | Ok (remoteHost, remotePort) =>
      match request E b "GET" ("/sessions/find/" +:+ remoteHost +:+ ":" +:+ remotePort)
              None with
      | (Panics, t) => (Panics, t)
      | (Return (_, Some err), t) => (Return (Err err), t)
      | (Return (None, None), t) => (Panics, t)
      | (Return (Some res, None), t) =>
          let t := t ++ [EReadAll (ResponseBody res) (ReadAll E (ResponseBody res))] in
          match ReadAll E (ResponseBody res) with
          | Err err => (Return (Err err), t)
          | Ok data =>
              match Decode E data with
              | Err err => (Return (Err err), t)
              | Ok result => (Return (Ok result), t)
              end
          end
      end
  end.

(** [func (b *BowserAPIClient) Jump(destination string) (err error)]; it
    reads [current.UUID] without a look at the pointer. *)
Definition Jump (E : Env) (b : BowserAPIClient) (destination : string)
  : returns (option error) * list Event :=
  match GetCurrentSessionInfo E b with
  | (Panics, t) => (Panics, t)
  | (Return (Err err), t) => (Return (Some err), t)
  | (Return (Ok None), t) => (Panics, t)
  | (Return (Ok (Some uuid)), t) =>
      match request E b "POST" ("/sessions/" +:+ uuid +:+ "/jump")
              (Some ("destination=" +:+ QueryEscape E destination)) with
      | (Panics, t') => (Panics, t ++ t')
      | (Return (_, err), t') => (Return err, t ++ t')
      end
  end.

(** The requests a trace has sent to the server, and its questions to the
    agent. *)
Definition sent (e : Event) : option Request :=
  match e with
  | EDo req _ => Some req
  | _ => None
  end.

Definition signed (e : Event) : option (Key * list byte) :=
  match e with
  | ESign _ key data _ => Some (key, data)
  | _ => None
  end.

(** A request that carries the four headers of the authentication, for
    the key and the data of one signature of the agent. *)
Definition authenticated (E : Env) (req : Request) (key : Key) (data : list byte) : Prop :=
  ∃ timestamp sig sourceHost sourcePort,
    timestamp = pretty (int32 (Now_Unix E)) ∧
    data = String.list_byte_of_string timestamp ∧
    Header req !! "SSH-Auth-Timestamp" = Some [timestamp] ∧
    Header req !! "SSH-Auth-Key" = Some [String_ key] ∧
    (∃ socket, Sign E socket key data = Ok sig) ∧
    Header req !! "SSH-Auth-Signature" = Some [base64 E (Blob sig)] ∧
    GetSSHClientConnection E = Ok (sourceHost, sourcePort) ∧
    Header req !! "SSH-Auth-Connection" = Some [sourceHost +:+ ":" +:+ sourcePort].

End API.

(** ** The account-creation utility *)

Module CreateAccount.

(** The alphabet of [base32.StdEncoding] (RFC 4648, section 6). *)
Definition encodeStd : string := "ABCDEFGHIJKLMNOPQRSTUVWXYZ234567".

(** The character of the [i]-th group of five bits of the forty bits [n]. *)
Definition quintet (n : N) (i : N) : Ascii.ascii :=
  default Ascii.zero
    (String.get (N.to_nat ((n `div` 2 ^ (35 - 5 * i)) `mod` 32)%N) encodeStd).

Definition forty (b0 b1 b2 b3 b4 : byte) : N :=
  ((((Byte.to_N b0 * 256 + Byte.to_N b1) * 256 + Byte.to_N b2) * 256 + Byte.to_N b3) * 256
   + Byte.to_N b4)%N.

Definition pad : Ascii.ascii := Ascii.ascii_of_nat 61.

(** The eight characters of forty bits. *)
Definition octet (n : N) : list Ascii.ascii :=
  quintet n <$> [0; 1; 2; 3; 4; 5; 6; 7]%N.

(** [base32.StdEncoding.EncodeToString]: every five bytes give eight
    characters; what is left at the end is filled with zero bits up to the next
    character and with [=] up to eight characters. *)
Fixpoint EncodeToString (src : list byte) : string :=
  match src with
  | [] => ""
  | b0 :: b1 :: b2 :: b3 :: b4 :: src =>
      String.string_of_list_ascii (octet (forty b0 b1 b2 b3 b4)) +:+ EncodeToString src
  | [b0; b1; b2; b3] =>
      String.string_of_list_ascii (take 7 (octet (forty b0 b1 b2 b3 "000")) ++ replicate 1 pad)
  | [b0; b1; b2] =>
      String.string_of_list_ascii (take 5 (octet (forty b0 b1 b2 "000" "000")) ++ replicate 3 pad)
  | [b0; b1] =>
      String.string_of_list_ascii (take 4 (octet (forty b0 b1 "000" "000" "000")) ++ replicate 4 pad)
  | [b0] =>
      String.string_of_list_ascii
        (take 2 (octet (forty b0 "000" "000" "000" "000")) ++ replicate 6 pad)
  end.

(** The slice [s[:n]] of a string, which panics when [n] is out of range. *)
Definition upto (n : Z) (s : string) : option string :=
  if decide (0 ≤ n ≤ Z.of_nat (String.length s))%Z
  then Some (String.substring 0 (Z.to_nat n) s)
  else None.

(** The account that is printed. *)
Record Account := {
  Username : string;
  Password : string;
  SSHKeysRaw : list string;
  TOTP : string
}.

(** What the utility does; the texts it prints are given without their
    carriage returns and line feeds. *)
Inductive Event :=
| EPrint (text : string)
| EMakeRaw (r : option error)
| ERestore
| ERandRead (r : result (list byte))
| EQR (content : string)
| EMarshal (account : Account).

Inductive ending := Done | Panic.

(** What the utility is given: the two lines read from the standard input
    as [ReadString] returns them, with their line end when there is one; the
    result of [terminal.MakeRaw]; the two passwords; the hash [bcrypt] gives;
    and the 32 bytes of [rand.Read], or its error. *)
Record Input := {
  username : string;
  sshKey : string;
  MakeRaw : option error;
  a : string;
  b : string;
  GenerateFromPassword : string → Z → string;
  rand_Read : result (list byte)
}.

(** The deferred [terminal.Restore] runs when [main] returns and when it
    panics. *)
Definition deferred (r : ending * list Event) : ending * list Event :=
  (r.1, r.2 ++ [ERestore]).

(** [func main()] *)
Definition main (I : Input) : ending * list Event :=
  let t0 := [EPrint "Username: "; EPrint "SSH Key: "; EMakeRaw (MakeRaw I)] in
  match MakeRaw I with
  | Some _ => (Panic, t0)
  | None =>
      deferred
        (let t1 := t0 ++ [EPrint "Password: "; EPrint "Confirm: "] in
         if decide (a I ≠ b I) then (Done, t1 ++ [EPrint "Passwords do not match!"])
         else
           let bcryptHash := GenerateFromPassword I (a I) 12 in
           let t2 := t1 ++ [ERestore; EPrint ""; ERandRead (rand_Read I)] in
           match rand_Read I with
           | Err _ => (Done, t2 ++ [EPrint "Failed to generate TOTP token"])
           | Ok totpRaw =>
               match upto 16 (EncodeToString totpRaw) with
               | None => (Panic, t2)
               | Some totpEncoded =>
                   match upto (Z.of_nat (String.length (username I)) - 1) (username I) with
                   | None => (Panic, t2)
                   | Some name =>
                       let t3 := t2 ++
                         [EQR ("otpauth://totp/SSH:" +:+ name +:+ "?secret=" +:+ totpEncoded);
                          EPrint "Please scan the above QR code with your TOTP app"] in
                       match upto (Z.of_nat (String.length (sshKey I)) - 1) (sshKey I) with
                       | None => (Panic, t3)
                       | Some key =>
                           let account :=
                             {| Username := name; Password := bcryptHash;
                                SSHKeysRaw := [key]; TOTP := totpEncoded |} in
                           (Done, t3 ++ [EMarshal account])
                       end
                   end
               end
           end)
  end.

(** The accounts a trace prints. *)
Definition printed (e : Event) : option Account :=
  match e with
  | EMarshal account => Some account
  | _ => None
  end.

Definition restore (e : Event) : bool :=
  match e with
  | ERestore => true
  | _ => false
  end.

Definition newline : string := String (Ascii.ascii_of_nat 10) "".

End CreateAccount.

(** ** Sample data of the client and of the utility *)

Module SampleTools.

(** A shell on the bastion, reached from [198.51.100.7], with an agent that
    holds one key; the server answers every request with status 200. *)
Definition env : API.Env :=
  {| API.Getenv := λ name,
       if decide (name = "SSH_CLIENT") then "198.51.100.7 50022 22"
       else if decide (name = "SSH_AUTH_SOCK") then "/tmp/ssh-agent.sock"
       else "";
     API.DialTimeout := λ _ _, Ok 3;
     API.List_ := λ _, Ok [{| API.String_ := "ssh-ed25519 AAAA-alice" |}];
     API.Now_Unix := 1500000000;
     API.Sign := λ _ _ data, Ok {| API.Format := "ssh-ed25519"; API.Blob := reverse data |};
     API.base64 := String.string_of_list_byte;
     API.NewRequest_err := λ _ _, None;
     API.Do := λ _, Ok {| API.StatusCode := 200; API.ResponseBody := 1 |};
     API.ReadAll := λ _, Ok [];
     API.Decode := λ _, Ok (Some "6ba7b810");
     API.QueryEscape := λ s, s |}.

(** What is typed into the utility. *)
Definition typed : CreateAccount.Input :=
  {| CreateAccount.username := "carol" +:+ CreateAccount.newline;
     CreateAccount.sshKey := "ssh-ed25519 AAAA-carol" +:+ CreateAccount.newline;
     CreateAccount.MakeRaw := None;
     CreateAccount.a := "correct horse";
     CreateAccount.b := "correct horse";
     CreateAccount.GenerateFromPassword := λ _ _, "$2a$12$hash";
     CreateAccount.rand_Read :=
       Ok (String.list_byte_of_string "0123456789abcdefghijklmnopqrstuv") |}.

End SampleTools.

(** * Properties *)

(** ** The account store *)

Section StoreFacts.

Import Shell.

Variable LoadAccounts : string → result (list Account).
Variable ParseAuthorizedKey : string → result (PublicKey * string * list string).

Local Abbreviation range_keys := (range_keys ParseAuthorizedKey).
Local Abbreviation range_accounts := (range_accounts ParseAuthorizedKey).
Local Abbreviation reloadAccounts := (reloadAccounts LoadAccounts ParseAuthorizedKey).
Local Abbreviation wire := (wire ParseAuthorizedKey).
Local Abbreviation wires := (wires ParseAuthorizedKey).

Lemma NewAccountKey_wire p raw :
  match NewAccountKey ParseAuthorizedKey p raw with
  | Ok key => wire raw = Some (ID key) ∧ akAccount key = p
  | Err _ => wire raw = None
  end.
Proof.
  unfold NewAccountKey, Shell.wire.
  destruct (ParseAuthorizedKey raw) as [[[key comment] options]|err]; done.
Qed.

(** The inner loop touches neither the accounts nor the heap. *)
Lemma range_keys_frame p raws f :
  f_accounts (range_keys p raws f).2 = f_accounts f ∧
  f_heap (range_keys p raws f).2 = f_heap f.
Proof.
  revert f. induction raws as [|raw raws IH]; intros f; simpl; [done|].
  destruct (NewAccountKey ParseAuthorizedKey p raw) as [key|err].
  - destruct (f_keys f !! ID key); simpl; [done|].
    destruct (IH {| f_accounts := f_accounts f; f_keys := <[ID key:=key]> (f_keys f);
                    f_heap := f_heap f; f_log := f_log f |}) as [-> ->]. done.
  - destruct (IH (logged "warn" "Skipping key for account, couldn't parse" f))
      as [-> ->]. done.
Qed.

(** When the inner loop runs to its end, the lines it read name pairwise
    different keys, none of them in the index before, and the index holds
    them all afterwards. *)
Lemma range_keys_Next p raws f f' :
  range_keys p raws f = (Next, f') →
  NoDup (omap wire raws) ∧
  (∀ k, k ∈ omap wire raws → f_keys f !! k = None) ∧
  (∀ k, is_Some (f_keys f' !! k) ↔ is_Some (f_keys f !! k) ∨ k ∈ omap wire raws).
Proof.
  revert f. induction raws as [|raw raws IH]; intros f; simpl.
  - intros [= <-]. split; [constructor|]. split; [by intros k ?%elem_of_nil|].
    intros k. rewrite elem_of_nil. tauto.
  - pose proof (NewAccountKey_wire p raw) as Hw.
    destruct (NewAccountKey ParseAuthorizedKey p raw) as [key|err].
    + destruct Hw as [Hw _]. rewrite Hw.
      destruct (f_keys f !! ID key) eqn:Hk; [done|].
      intros (Hnd & Hfresh & Hdom)%IH. simpl in *.
      split; [|split].
      * constructor; [|done]. intros Hin%Hfresh.
        by rewrite lookup_insert_eq in Hin.
      * intros k [->|Hin]%elem_of_cons; [done|].
        specialize (Hfresh k Hin). rewrite lookup_insert in Hfresh.
        by case_decide.
      * intros k. rewrite Hdom, elem_of_cons, lookup_insert.
        case_decide as Hne; subst; [|clear -Hne; intuition congruence].
        split; [tauto|]. intros _. left. by eexists.
    + rewrite Hw. intros (Hnd & Hfresh & Hdom)%IH. done.
Qed.

(** The outer loop writes the heap at the address of its variable only. *)
Lemma range_accounts_heap p rawAccounts f l :
  l ≠ p →
  f_heap (range_accounts p rawAccounts f).2 !! l = f_heap f !! l.
Proof.
  intros Hl. revert f. induction rawAccounts as [|account rawAccounts IH]; intros f;
    simpl; [done|].
  destruct (f_accounts f !! Username account); simpl.
  { by rewrite list_lookup_insert_ne. }
  match goal with |- context [range_keys p ?raws ?g] =>
    pose proof (range_keys_frame p raws g) as [_ Hh];
    destruct (range_keys p raws g) as [[] f1] end; simpl in *.
  - rewrite IH, Hh. simpl. by rewrite list_lookup_insert_ne.
  - rewrite Hh. simpl. by rewrite list_lookup_insert_ne.
Qed.

(** When the outer loop runs to its end, the file has no two accounts of one
    name and no two lines of one key. *)
Lemma range_accounts_Next p rawAccounts f f' :
  range_accounts p rawAccounts f = (Next, f') →
  (NoDup (Username <$> rawAccounts) ∧
   ∀ u, u ∈ Username <$> rawAccounts → f_accounts f !! u = None) ∧
  (NoDup (wires rawAccounts) ∧
   ∀ k, k ∈ wires rawAccounts → f_keys f !! k = None).
Proof.
  revert f. induction rawAccounts as [|account rawAccounts IH]; intros f; simpl.
  - intros _. split; (split; [constructor|by intros ? ?%elem_of_nil]).
  - destruct (f_accounts f !! Username account) eqn:Hu; [done|].
    match goal with |- context [range_keys p ?raws ?g] =>
      pose proof (range_keys_frame p raws g) as [Ha _];
      pose proof (range_keys_Next p raws g) as Hk;
      destruct (range_keys p raws g) as [[] f1] end; [|done].
    specialize (Hk f1 eq_refl) as (Hnd & Hfresh & Hdom). simpl in *.
    intros [[Hnd1 Hfresh1] [Hnd2 Hfresh2]]%IH.
    split; split.
    + constructor; [|done]. intros Hin%Hfresh1.
      by rewrite Ha, lookup_insert_eq in Hin.
    + intros u [->|Hin]%elem_of_cons; [done|].
      specialize (Hfresh1 u Hin). rewrite Ha, lookup_insert in Hfresh1.
      by case_decide.
    + unfold Shell.wires. simpl. apply NoDup_app. split; [done|]. split; [|done].
      intros k Hin1 Hin2. specialize (Hfresh2 k Hin2).
      assert (is_Some (f_keys f1 !! k)) as [? ?] by (apply Hdom; by right).
      congruence.
    + unfold Shell.wires. simpl. intros k [Hin|Hin]%elem_of_app; [by apply Hfresh|].
      specialize (Hfresh2 k Hin).
      destruct (f_keys f !! k) eqn:Hfk; [|done].
      assert (is_Some (f_keys f1 !! k)) as [? ?] by (apply Hdom; left; by eexists).
      congruence.
Qed.

(** C5. A reload of an accounts file that names one user twice, or one key
    (by wire format) twice, is abandoned: the map of accounts and the index of
    keys of the store are those of before the call, and so is every account
    they point to. *)
Theorem reloadAccounts_duplicate_keeps_store (s : SSHDState) (rawAccounts : list Account) :
  LoadAccounts (ConfigAccounts s) = Ok rawAccounts →
  ¬ NoDup (Username <$> rawAccounts) ∨ ¬ NoDup (wires rawAccounts) →
  accounts (reloadAccounts s) = accounts s ∧
  keys (reloadAccounts s) = keys s ∧
  ∀ l account, heap s !! l = Some account → heap (reloadAccounts s) !! l = Some account.
Proof.
  intros Hload Hdup. unfold Shell.reloadAccounts. rewrite Hload.
  match goal with |- context [range_accounts ?p ?raws ?g] =>
    pose proof (range_accounts_Next p raws g) as HN;
    pose proof (range_accounts_heap p raws g) as HH;
    destruct (range_accounts p raws g) as [[] f1] end; simpl in *.
  - destruct (HN f1 eq_refl) as [[? _] [? _]]. tauto.
  - split; [done|]. split; [done|].
    intros l account Hl. rewrite HH.
    + by apply lookup_app_l_Some.
    + apply lookup_lt_Some in Hl. lia.
Qed.

(** When the lines name pairwise different keys, none of them in the index,
    the inner loop runs to its end. *)
Lemma range_keys_complete p raws f :
  NoDup (omap wire raws) →
  (∀ k, k ∈ omap wire raws → f_keys f !! k = None) →
  (range_keys p raws f).1 = Next.
Proof.
  revert f. induction raws as [|raw raws IH]; intros f; simpl; [done|].
  pose proof (NewAccountKey_wire p raw) as Hw.
  destruct (NewAccountKey ParseAuthorizedKey p raw) as [key|err].
  - destruct Hw as [Hw _]. rewrite Hw. intros [Hnotin Hnd]%NoDup_cons Hfresh.
    rewrite (Hfresh (ID key)) by apply list_elem_of_here.
    apply IH; [done|]. simpl. intros k Hin. rewrite lookup_insert.
    case_decide; [by subst|]. apply Hfresh. by apply list_elem_of_further.
  - rewrite Hw. intros Hnd Hfresh. by apply IH.
Qed.

(** When the file names pairwise different users and keys, none of them in
    the maps, the outer loop runs to its end. *)
Lemma range_accounts_complete p rawAccounts f :
  NoDup (Username <$> rawAccounts) →
  (∀ u, u ∈ Username <$> rawAccounts → f_accounts f !! u = None) →
  NoDup (wires rawAccounts) →
  (∀ k, k ∈ wires rawAccounts → f_keys f !! k = None) →
  (range_accounts p rawAccounts f).1 = Next.
Proof.
  revert f. induction rawAccounts as [|account rawAccounts IH]; intros f; [done|].
  simpl. unfold Shell.wires. simpl. fold (wires rawAccounts).
  intros [Hnotin Hnd]%NoDup_cons Hfresh (Hnd1 & Hdisj & Hnd2)%NoDup_app Hfreshk.
  rewrite (Hfresh (Username account)) by apply list_elem_of_here.
  match goal with |- context [range_keys p ?raws ?g] =>
    pose proof (range_keys_frame p raws g) as [Ha _];
    pose proof (range_keys_complete p raws g Hnd1) as Hc;
    pose proof (range_keys_Next p raws g) as Hk;
    destruct (range_keys p raws g) as [r f1] end.
  simpl in *.
  assert (r = Next) as ->.
  { apply Hc. intros k Hin. apply Hfreshk, elem_of_app. by left. }
  destruct (Hk f1 eq_refl) as (_ & _ & Hdom).
  apply IH; [done| |done|].
  - intros u Hin. rewrite Ha, lookup_insert. case_decide; [by subst|].
    apply Hfresh. by apply list_elem_of_further.
  - intros k Hin. destruct (f_keys f1 !! k) eqn:Hf1; [|done].
    assert (is_Some (f_keys f1 !! k)) as [His|His]%Hdom by by eexists.
    + rewrite Hfreshk in His; [by destruct His|]. apply elem_of_app. by right.
    + by destruct (Hdisj k).
Qed.

End StoreFacts.

(** ** The forward handler *)

Section ForwardFacts.

Import Forward.

(** Unfolding of the plumbing of [M]. *)
Ltac msimpl :=
  repeat (unfold mbind, mret, M_bind, M_ret, emit, logf, reject, return_, panic,
            get, put, call in *; simpl in *).

(** A signer the loop passes over: the rest of the loop decides. *)
Ltac skip_signer IH :=
  match goal with
  | |- context [range_signers ?E ?signers ?s] =>
      destruct (range_signers E signers s) as [[? ?] ?];
      destruct IH as [[[= -> -> ->] ?]
                     |[(sg & ak & tok & sig & ? & ? & ? & [= -> -> ->])
                      |(t0 & lmsg & msg & [= -> -> ->] & ?)]];
      [ left; split; [done|]; constructor; [|done];
        intros (ak & ? & ?); congruence
      | right; left; exists sg, ak, tok, sig; rewrite elem_of_cons; eauto 10
      | right; right; eauto 10 ]
  end.

(** The three ways the loop over the signers ends: no signer matches; the
    first signer that matches signs the token and the signature verifies; or
    one of the three steps fails for it. *)
Lemma range_signers_spec (E : Env) (signers : list Signer) (s : SSHSession) :
  (range_signers E signers s = (Value tt, s, []) ∧
   Forall (λ signer, ¬ matches s signer) signers)
  ∨ (∃ signer accountKey randomToken sig,
       signer ∈ signers ∧
       keys (State s) !! Marshal (SignerPublicKey signer) = Some accountKey ∧
       Some (akAccount accountKey) = Account_ s ∧
       range_signers E signers s =
         (Value tt, set_verified true s,
          [ERandRead 128 (Ok randomToken); ESign signer randomToken (Ok sig);
           EVerify (Key accountKey) randomToken sig None;
           ELog "info" "Public key verification completed"]))
  ∨ (∃ t lmsg msg,
       range_signers E signers s =
         (Returned, s, t ++ [ELog "error" lmsg; EReject Prohibited msg]) ∧
       ((∃ e, t = [ERandRead 128 (Err e)])
        ∨ (∃ tok signer e, t = [ERandRead 128 (Ok tok); ESign signer tok (Err e)])
        ∨ (∃ tok signer sig key e,
             t = [ERandRead 128 (Ok tok); ESign signer tok (Ok sig);
                  EVerify key tok sig (Some e)]))).
Proof.
  induction signers as [|signer signers IH]; simpl.
  { left. split; [done|constructor]. }
  msimpl.
  destruct (keys (State s) !! Marshal (SignerPublicKey signer)) as [accountKey|] eqn:Hk.
  2:{ skip_signer IH. }
  case_decide as Hacc.
  { skip_signer IH. }
  clear IH.
  destruct (rand_Read E 128) as [randomToken|e] eqn:Hrand; msimpl.
  2:{ right; right. exists [ERandRead 128 (Err e)]. eauto 10. }
  destruct (Sign E signer randomToken) as [sig|e] eqn:Hsign; msimpl.
  2:{ right; right. exists [ERandRead 128 (Ok randomToken); ESign signer randomToken (Err e)].
      eauto 10. }
  destruct (Verify E (Key accountKey) randomToken sig) as [e|] eqn:Hver; msimpl.
  { right; right.
    exists [ERandRead 128 (Ok randomToken); ESign signer randomToken (Ok sig);
            EVerify (Key accountKey) randomToken sig (Some e)]. eauto 15. }
  right; left. exists signer, accountKey, randomToken, sig.
  rewrite elem_of_cons. eauto 10.
Qed.

Lemma notifyConnection_spec (addr : string) (s : SSHSession) :
  notifyConnection addr s = (Value tt, s, notifications s addr).
Proof.
  unfold notifyConnection, notifications. msimpl.
  enough (∀ wps, range_providers addr wps s =
            (Value tt, s,
             (λ wp, ENotifySessionStart wp (User (Conn s)) (UUID s) addr
                      (RemoteAddr (Conn s))) <$> wps)) as -> by done.
  induction wps as [|wp wps IH]; [done|]. msimpl. by rewrite IH.
Qed.

Lemma addTempAuth_spec (E : Env) (addr : string) (s : SSHSession) :
  addTempAuth E addr s =
  match principal s with
  | None => (Panicked, s, [])
  | Some username =>
      let r := ca_Generate E (UUID s) username (ForceCommand (State s)) in
      match r with
      | Err err =>
          (Value (Some err), s, [EGenerate (UUID s) username (ForceCommand (State s)) r])
      | Ok (cert, privateKey) =>
          match Agent_ s with
          | None => (Panicked, s, [EGenerate (UUID s) username (ForceCommand (State s)) r])
          | Some a =>
              (Value (Add E a (tempKey cert privateKey addr)), s,
               [EGenerate (UUID s) username (ForceCommand (State s)) r;
                EAdd a (tempKey cert privateKey addr)
                  (Add E a (tempKey cert privateKey addr))])
          end
      end
  end.
Proof.
  unfold addTempAuth, principal. msimpl.
  case_decide; msimpl.
  - destruct (ca_Generate E _ _ _) as [[cert privateKey]|err]; msimpl; [|done].
    by destruct (Agent_ s).
  - destruct (deref s (Account_ s)) as [account|]; msimpl; [|done].
    destruct (ca_Generate E _ _ _) as [[cert privateKey]|err]; msimpl; [|done].
    by destruct (Agent_ s).
Qed.

(** The second part of the handler, path by path. *)
Lemma forwardRequest_spec (E : Env) (newChannel : NewChannel) (agentChan : Channel)
    (s : SSHSession) :
  forwardRequest E newChannel agentChan s =
  let msg := (Unmarshal (ExtraData newChannel)).1 in
  let address := RAddr msg +:+ ":" +:+ pretty (RPort msg) in
  match canConnectTo s (RAddr msg) with
  | None => (Panicked, s, [])
  | Some false =>
      (Returned, s,
       [ELog "error"
          "Rejecting forward: destination does not match whitelist/blacklist checks";
        EReject ConnectionFailed "invalid permissions"])
  | Some true =>
      match principal s with
      | None => (Panicked, s, [])
      | Some username =>
          let r := ca_Generate E (UUID s) username (ForceCommand (State s)) in
          let gen := EGenerate (UUID s) username (ForceCommand (State s)) r in
          match r with
          | Err _ =>
              (Returned, s,
               [gen;
                ELog "error" "Rejecting forward: failed to generate or add ssh certificate";
                EReject Prohibited "failed to generate or add ssh certificate"])
          | Ok (cert, privateKey) =>
              match Agent_ s with
              | None => (Panicked, s, [gen])
              | Some a =>
                  let key := tempKey cert privateKey (RAddr msg) in
                  match Add E a key with
                  | Some err =>
                      (Returned, s,
                       [gen; EAdd a key (Some err);
                        ELog "error"
                          "Rejecting forward: failed to generate or add ssh certificate";
                        EReject Prohibited "failed to generate or add ssh certificate"])
                  | None =>
                      match Dial E "tcp" address with
                      | Err err =>
                          (Returned, s,
                           [gen; EAdd a key None] ++ notifications s (RAddr msg) ++
                           [EDial "tcp" address (Err err);
                            ELog "error"
                              "Rejecting forward: failed to open TCP connection to remote host";
                            EReject ConnectionFailed ("error: " +:+ err)])
                      | Ok conn =>
                          let channel := match Accept E with
                                         | Ok c => Some c
                                         | Err _ => None
                                         end in
                          (Value tt, set_Proxies (Proxies s ++ [conn]) s,
                           [gen; EAdd a key None] ++ notifications s (RAddr msg) ++
                           [EDial "tcp" address (Ok conn); EAccept (Accept E);
                            EGo DiscardRequests;
                            EGo (CopyThenClose true agentChan channel conn);
                            EGo (CopyThenClose false agentChan channel conn)])
                      end
                  end
              end
          end
      end
  end.
Proof.
  unfold forwardRequest. msimpl.
  destruct (canConnectTo s _) as [[]|]; msimpl; [|done|done].
  rewrite addTempAuth_spec.
  destruct (principal s) as [username|]; msimpl; [|done].
  destruct (ca_Generate E _ _ _) as [[cert privateKey]|err]; msimpl; [|done].
  destruct (Agent_ s) as [a|]; msimpl; [|done].
  destruct (Add E a _); msimpl; [done|].
  rewrite notifyConnection_spec. msimpl.
  by destruct (Dial E _ _); msimpl.
Qed.

(** The first part of the handler, path by path. *)
Lemma agentVerification_spec (E : Env) (s : SSHSession) :
  agentVerification E s =
  let name := "auth-agent@openssh.com" in
  let open := EOpenChannel name (OpenChannel E name) in
  match OpenChannel E name with
  | Err _ =>
      (Returned, s,
       [open; ELog "error" "Rejecting forward: failed to open ssh agent";
        EReject Prohibited "you must have an ssh agent open and forwarded"])
  | Ok agentChan =>
      let a := NewClient agentChan in
      if verified s then
        (Value agentChan, set_Agent a s, [open; EGo DiscardRequests])
      else
        match Signers E a with
        | Err _ =>
            (Returned, set_Agent a s,
             [open; EGo DiscardRequests; ESigners a (Signers E a);
              ELog "error" "Rejecting forward: failed to get list of signers from agent";
              EReject Prohibited "agent will not give us a list of signers"])
        | Ok signers =>
            match range_signers E signers (set_Agent a s) with
            | (Value _, s', t) =>
                (Value agentChan, s',
                 [open; EGo DiscardRequests; ESigners a (Ok signers)] ++ t)
            | (Returned, s', t) =>
                (Returned, s',
                 [open; EGo DiscardRequests; ESigners a (Ok signers)] ++ t)
            | (Panicked, s', t) =>
                (Panicked, s',
                 [open; EGo DiscardRequests; ESigners a (Ok signers)] ++ t)
            end
        end
  end.
Proof.
  unfold agentVerification. msimpl.
  destruct (OpenChannel E _) as [agentChan|err]; msimpl; [|done].
  destruct (verified s); msimpl; [done|].
  destruct (Signers E _) as [signers|err]; msimpl; [|done].
  destruct (range_signers E signers _) as [[[[]| |] s'] t]; msimpl; by rewrite ?app_nil_r.
Qed.

(** The outcomes of the first part: the channel to the agent does not open;
    or it opens and the session is verified already; or the agent does not
    list its signers; or no signer matches; or the first signer that matches
    passes the challenge; or it fails one of its three steps. *)
Lemma agentVerification_cases (E : Env) (s : SSHSession) :
  (∃ e, OpenChannel E "auth-agent@openssh.com" = Err e ∧
        agentVerification E s =
          (Returned, s,
           [EOpenChannel "auth-agent@openssh.com" (Err e);
            ELog "error" "Rejecting forward: failed to open ssh agent";
            EReject Prohibited "you must have an ssh agent open and forwarded"]))
  ∨ ∃ agentChan, OpenChannel E "auth-agent@openssh.com" = Ok agentChan ∧
      ((verified s = true ∧
        agentVerification E s =
          (Value agentChan, set_Agent (NewClient agentChan) s,
           [EOpenChannel "auth-agent@openssh.com" (Ok agentChan); EGo DiscardRequests]))
       ∨ (verified s = false ∧ ∃ e, Signers E (NewClient agentChan) = Err e ∧
          agentVerification E s =
            (Returned, set_Agent (NewClient agentChan) s,
             [EOpenChannel "auth-agent@openssh.com" (Ok agentChan); EGo DiscardRequests;
              ESigners (NewClient agentChan) (Err e);
              ELog "error" "Rejecting forward: failed to get list of signers from agent";
              EReject Prohibited "agent will not give us a list of signers"]))
       ∨ (verified s = false ∧ ∃ signers, Signers E (NewClient agentChan) = Ok signers ∧
          ((Forall (λ signer, ¬ matches s signer) signers ∧
            agentVerification E s =
              (Value agentChan, set_Agent (NewClient agentChan) s,
               [EOpenChannel "auth-agent@openssh.com" (Ok agentChan); EGo DiscardRequests;
                ESigners (NewClient agentChan) (Ok signers)]))
           ∨ (∃ signer accountKey randomToken sig,
                signer ∈ signers ∧
                keys (State s) !! Marshal (SignerPublicKey signer) = Some accountKey ∧
                Some (akAccount accountKey) = Account_ s ∧
                agentVerification E s =
                  (Value agentChan, set_verified true (set_Agent (NewClient agentChan) s),
                   [EOpenChannel "auth-agent@openssh.com" (Ok agentChan);
                    EGo DiscardRequests;
                    ESigners (NewClient agentChan) (Ok signers);
                    ERandRead 128 (Ok randomToken); ESign signer randomToken (Ok sig);
                    EVerify (Key accountKey) randomToken sig None;
                    ELog "info" "Public key verification completed"]))
           ∨ (∃ t lmsg msg,
                agentVerification E s =
                  (Returned, set_Agent (NewClient agentChan) s,
                   [EOpenChannel "auth-agent@openssh.com" (Ok agentChan);
                    EGo DiscardRequests;
                    ESigners (NewClient agentChan) (Ok signers)] ++
                   t ++ [ELog "error" lmsg; EReject Prohibited msg]) ∧
                Exists (λ e, verification_failure e = true) t)))).
Proof.
  rewrite agentVerification_spec. simpl.
  destruct (OpenChannel E _) as [agentChan|e]; [right|left; eauto].
  exists agentChan. split; [done|].
  destruct (verified s) eqn:Hv; [by left|right].
  destruct (Signers E _) as [signers|e]; [right|left; eauto].
  split; [done|]. exists signers. split; [done|].
  destruct (range_signers_spec E signers (set_Agent (NewClient agentChan) s))
    as [[-> Hall]|[(sg & ak & tok & sig & Hin & Hk & Hacc & ->)
                  |(t & lmsg & msg & -> & Ht)]].
  - by left.
  - right; left. exists sg, ak, tok, sig. done.
  - right; right. exists t, lmsg, msg. split; [done|].
    destruct Ht as [(e & ->)|[(tok & sg & e & ->)|(tok & sg & sig & key & e & ->)]];
      repeat first [by apply Exists_cons_hd | apply Exists_cons_tl].
Qed.

Lemma handleChannelForward_unfold (E : Env) (newChannel : NewChannel) (s : SSHSession) :
  handleChannelForward E newChannel s =
  match agentVerification E s with
  | (Value agentChan, s1, t1) =>
      let '(r, s2, t2) := forwardRequest E newChannel agentChan s1 in (r, s2, t1 ++ t2)
  | (Returned, s1, t1) => (Returned, s1, t1)
  | (Panicked, s1, t1) => (Panicked, s1, t1)
  end.
Proof. reflexivity. Qed.

Lemma notifications_no_failure (s : SSHSession) (addr : string) :
  Forall (λ e, verification_failure e = false) (notifications s addr).
Proof. unfold notifications. apply Forall_fmap, Forall_true. done. Qed.

(** The second part of the handler leaves the flag alone and reports no
    failure of the verification. *)
Lemma forwardRequest_verified (E : Env) (newChannel : NewChannel) (agentChan : Channel)
    (s : SSHSession) :
  verified (forwardRequest E newChannel agentChan s).1.2 = verified s ∧
  Forall (λ e, verification_failure e = false) (forwardRequest E newChannel agentChan s).2.
Proof.
  rewrite forwardRequest_spec. simpl.
  repeat case_match; simpl; (split; [done|]);
    repeat first [ apply Forall_nil_2 | apply Forall_cons_2; [done|]
                 | apply Forall_app_2; [apply notifications_no_failure|] ].
Qed.

(** The first part of the handler never clears the flag. *)
Lemma agentVerification_verified (E : Env) (s : SSHSession) :
  verified s = true → verified (agentVerification E s).1.2 = true.
Proof.
  intros Hv.
  destruct (agentVerification_cases E s)
    as [(e & _ & ->)|(c & _ & [[_ ->]|[[Hf _]|[Hf _]]])]; simpl; congruence.
Qed.

Lemma handleChannelForward_verified (E : Env) (newChannel : NewChannel) (s : SSHSession) :
  verified s = true → verified (handleChannelForward E newChannel s).1.2 = true.
Proof.
  intros Hv. rewrite handleChannelForward_unfold.
  pose proof (agentVerification_verified E s Hv) as H1.
  destruct (agentVerification E s) as [[[c| |] s1] t1]; simpl in *; [|done|done].
  pose proof (forwardRequest_verified E newChannel c s1) as [H2 _].
  destruct (forwardRequest E newChannel c s1) as [[r s2] t2]; simpl in *. congruence.
Qed.

Lemma call_state (body : M unit) (s : SSHSession) :
  (call body s).1.2 = (body s).1.2.
Proof. unfold call. by destruct (body s) as [[[]] ?]. Qed.

Lemma handleChannel_verified (E : Env) (newChannel : NewChannel) (s : SSHSession) :
  verified s = true → verified (handleChannel E newChannel s).1.2 = true.
Proof.
  intros Hv. unfold handleChannel. case_decide; [|done].
  rewrite call_state. by apply handleChannelForward_verified.
Qed.

Lemma range_chans_verified (chans : list (Env * NewChannel)) (s : SSHSession) :
  verified s = true → verified (range_chans chans s).1.2 = true.
Proof.
  revert s. induction chans as [|[E newChannel] chans IH]; intros s Hv; [done|].
  simpl. unfold mbind, M_bind.
  pose proof (handleChannel_verified E newChannel s Hv) as H1.
  rewrite <- call_state in H1.
  destruct (call (handleChannel E newChannel) s) as [[[[]| |] s1] t1]; simpl in *;
    [|done|done].
  specialize (IH s1 H1). by destruct (range_chans chans s1) as [[r s2] t2].
Qed.

(** No method of the session clears the flag. *)
Lemma invoke_verified (m : Method) (s : SSHSession) :
  verified s = true → verified (invoke m s).1.2 = true.
Proof.
  intros Hv. destruct m as [msg|chans|E ch|E ch|addr|E addr|addr]; simpl.
  - done.
  - rewrite call_state. unfold handleChannels. msimpl.
    pose proof (range_chans_verified chans s Hv) as H1.
    by destruct (range_chans chans s) as [[[[]| |] s1] t1].
  - rewrite call_state. by apply handleChannel_verified.
  - rewrite call_state. by apply handleChannelForward_verified.
  - msimpl. by destruct (canConnectTo s addr).
  - unfold mbind, M_bind. rewrite addTempAuth_spec. simpl.
    repeat case_match; by simplify_eq.
  - by rewrite notifyConnection_spec.
Qed.

Lemma invoke_all_verified (ms : list Method) (s : SSHSession) :
  verified s = true → verified (invoke_all ms s).1 = true.
Proof.
  revert s. induction ms as [|m ms IH]; intros s Hv; [done|]. simpl.
  pose proof (invoke_verified m s Hv) as H1.
  destruct (invoke m s) as [[[[]| |] s1] t1]; simpl in *; [| |done].
  - specialize (IH s1 H1). by destruct (invoke_all ms s1).
  - specialize (IH s1 H1). by destruct (invoke_all ms s1).
Qed.

(** C1. The flag [verified] of a session is monotone: no sequence of method
    calls on a verified session leaves it unverified.  The handler of a
    forward channel sets it only right after the signature of the agent on the
    random token has been verified against a key of the account; and when a
    step of the verification fails (the agent does not list its signers, no
    random token, no signature, or the signature does not verify) the handler
    ends with a rejection of the channel with reason "prohibited" and the
    session is still unverified. *)
Theorem verified_monotone_and_set_by_verification :
  (∀ (ms : list Method) (s : SSHSession),
     verified s = true → verified (invoke_all ms s).1 = true) ∧
  (∀ (E : Env) (newChannel : NewChannel) (s s' : SSHSession) r t,
     handleChannelForward E newChannel s = (r, s', t) →
     (verified s = false → verified s' = true →
      ∃ agentChan signers signer accountKey randomToken sig t',
        signer ∈ signers ∧
        keys (State s) !! Marshal (SignerPublicKey signer) = Some accountKey ∧
        Some (akAccount accountKey) = Account_ s ∧
        t = [EOpenChannel "auth-agent@openssh.com" (Ok agentChan); EGo DiscardRequests;
             ESigners (NewClient agentChan) (Ok signers);
             ERandRead 128 (Ok randomToken); ESign signer randomToken (Ok sig);
             EVerify (Key accountKey) randomToken sig None;
             ELog "info" "Public key verification completed"] ++ t') ∧
     (Exists (λ e, verification_failure e = true) t →
      verified s = false ∧ verified s' = false ∧ r = Returned ∧
      ∃ t0 lmsg msg, t = t0 ++ [ELog "error" lmsg; EReject Prohibited msg])).
Proof.
  split; [apply invoke_all_verified|].
  intros E newChannel s s' r t. rewrite handleChannelForward_unfold.
  destruct (agentVerification_cases E s)
    as [(e & _ & ->)
       |(c & _ & [[Hv ->]|[[Hv (e & _ & ->)]
                          |[Hv (signers & _ & [[_ ->]|[(sg & ak & tok & sig & ? & ? & ? & ->)
                                                       |(t0 & lmsg & msg & -> & Hfail)]])]]])].
  - intros [= <- <- <-]. split; [congruence|].
    intros Hex. by repeat (apply Exists_cons in Hex as [Hex|Hex]; [done|]);
      apply Exists_nil in Hex.
  - pose proof (forwardRequest_verified E newChannel c (set_Agent (NewClient c) s))
      as [H2 Hnf].
    destruct (forwardRequest E newChannel c _) as [[r2 s2] t2]; simpl in *.
    intros [= <- <- <-]. split; [congruence|].
    intros Hex. repeat (apply Exists_cons in Hex as [Hex|Hex]; [done|]).
    apply Exists_exists in Hex as (ev & Hin & Hev).
    rewrite Forall_forall in Hnf. specialize (Hnf ev Hin). congruence.
  - intros [= <- <- <-]. split; [simpl; congruence|].
    intros _. simpl. split; [done|]. split; [done|]. split; [done|].
    by eexists [_; _; _], _, _.
  - pose proof (forwardRequest_verified E newChannel c (set_Agent (NewClient c) s))
      as [H2 Hnf].
    destruct (forwardRequest E newChannel c _) as [[r2 s2] t2]; simpl in *.
    intros [= <- <- <-]. split; [congruence|].
    intros Hex. repeat (apply Exists_cons in Hex as [Hex|Hex]; [done|]).
    apply Exists_exists in Hex as (ev & Hin & Hev).
    rewrite Forall_forall in Hnf. specialize (Hnf ev Hin). congruence.
  - pose proof (forwardRequest_verified E newChannel c
                  (set_verified true (set_Agent (NewClient c) s))) as [H2 Hnf].
    destruct (forwardRequest E newChannel c _) as [[r2 s2] t2]; simpl in *.
    intros [= <- <- <-]. split.
    + intros _ _. exists c, signers, sg, ak, tok, sig, t2. done.
    + intros Hex. repeat (apply Exists_cons in Hex as [Hex|Hex]; [done|]).
      apply Exists_exists in Hex as (ev & Hin & Hev).
      rewrite Forall_forall in Hnf. specialize (Hnf ev Hin). congruence.
  - intros [= <- <- <-]. split; [simpl; congruence|].
    intros _. simpl. split; [done|]. split; [done|]. split; [done|].
    exists ([EOpenChannel "auth-agent@openssh.com" (Ok c); EGo DiscardRequests;
             ESigners (NewClient c) (Ok signers)] ++ t0), lmsg, msg.
    by rewrite <- !app_assoc.
Qed.

(** What the policy matcher and the choice of the principal read of a
    session: its account and the state of the daemon. *)
Lemma canConnectTo_ext (s1 s : SSHSession) (addr : string) :
  State s1 = State s → Account_ s1 = Account_ s →
  canConnectTo s1 addr = canConnectTo s addr.
Proof. unfold canConnectTo, deref. by intros -> ->. Qed.

Lemma principal_ext (s1 s : SSHSession) :
  State s1 = State s → Account_ s1 = Account_ s → principal s1 = principal s.
Proof. unfold principal, deref. by intros -> ->. Qed.

(** The first part of the handler writes the agent and the flag only. *)
Lemma agentVerification_frame (E : Env) (s : SSHSession) :
  UUID (agentVerification E s).1.2 = UUID s ∧
  State (agentVerification E s).1.2 = State s ∧
  Account_ (agentVerification E s).1.2 = Account_ s ∧
  Conn (agentVerification E s).1.2 = Conn s ∧
  Proxies (agentVerification E s).1.2 = Proxies s.
Proof.
  destruct (agentVerification_cases E s)
    as [(e & _ & ->)
       |(c & _ & [[_ ->]|[[_ (e & _ & ->)]
                         |[_ (signers & _ & [[_ ->]|[(sg & ak & tok & sig & _ & _ & _ & ->)
                                                      |(t0 & lmsg & msg & -> & _)]])]]])];
    done.
Qed.

(** The policy matcher, against the decision the specification gives. *)
Lemma canConnectTo_policy (s : SSHSession) (account : Account) (addr : string) :
  deref s (Account_ s) = Some account →
  canConnectTo s addr =
    Some (policy_allows (whitelistRe account) (blacklistRe account) addr).
Proof.
  intros Hacc. unfold canConnectTo, policy_allows. rewrite Hacc.
  destruct (whitelistRe account) as [wl|], (blacklistRe account) as [bl|]; simpl;
    repeat (destruct (Match _ addr); simpl); done.
Qed.

Lemma canConnectTo_principal (s : SSHSession) (addr : string) (b : bool) :
  canConnectTo s addr = Some b → is_Some (principal s).
Proof.
  unfold canConnectTo, principal.
  destruct (deref s (Account_ s)); [|done]. intros _. case_decide; by eexists.
Qed.

(** When no signer matches, the loop ends without a word to the agent. *)
Lemma range_signers_no_match (E : Env) (signers : list Signer) (s : SSHSession) :
  Forall (λ signer, ¬ matches s signer) signers →
  range_signers E signers s = (Value tt, s, []).
Proof.
  induction 1 as [|signer signers Hno _ IH]; [done|]. simpl. msimpl.
  destruct (keys (State s) !! Marshal (SignerPublicKey signer)) as [accountKey|] eqn:Hk.
  - case_decide as Hacc; [by rewrite IH|]. destruct Hno. by exists accountKey.
  - by rewrite IH.
Qed.

(** C2. On a session that is not verified, when the agent lists its signers
    and none of them carries a key that is known and bound to the account of
    the session, the handler does not reject the channel for want of a
    verification: it leaves the loop without a rejection and, when the policy
    allows the destination, asks the certificate authority for a certificate
    (the first step of [addTempAuth]) while the session is still unverified,
    as it is when the handler ends. *)
Theorem unverified_session_reaches_issuance (E : Env) (newChannel : NewChannel)
    (s : SSHSession) (agentChan : Channel) (signers : list Signer) :
  verified s = false →
  OpenChannel E "auth-agent@openssh.com" = Ok agentChan →
  Signers E (NewClient agentChan) = Ok signers →
  Forall (λ signer, ¬ matches s signer) signers →
  canConnectTo s (RAddr (Unmarshal (ExtraData newChannel)).1) = Some true →
  ∃ r s' username t',
    principal s = Some username ∧
    handleChannelForward E newChannel s =
      (r, s',
       [EOpenChannel "auth-agent@openssh.com" (Ok agentChan); EGo DiscardRequests;
        ESigners (NewClient agentChan) (Ok signers);
        EGenerate (UUID s) username (ForceCommand (State s))
          (ca_Generate E (UUID s) username (ForceCommand (State s)))] ++ t') ∧
    verified s' = false.
Proof.
  intros Hv Hopen Hsig Hno Hcan.
  destruct (canConnectTo_principal _ _ _ Hcan) as [username Hp].
  rewrite handleChannelForward_unfold, agentVerification_spec. simpl.
  rewrite Hopen, Hv, Hsig.
  rewrite (range_signers_no_match E signers (set_Agent (NewClient agentChan) s)) by done.
  rewrite forwardRequest_spec. simpl.
  change (canConnectTo (set_Agent _ s)) with (canConnectTo s).
  change (principal (set_Agent _ s)) with (principal s).
  rewrite Hcan, Hp.
  destruct (ca_Generate E _ _ _) as [[cert privateKey]|err] eqn:Hgen; simpl.
  - destruct (Add E _ _) as [err|]; simpl.
    { eexists _, _, username, _. rewrite Hgen.
      split; [done|]. split; [reflexivity|done]. }
    destruct (Dial E _ _); simpl;
      (eexists _, _, username, _; rewrite Hgen;
       split; [done|]; split; [reflexivity|done]).
  - eexists _, _, username, _. rewrite Hgen.
    split; [done|]. split; [reflexivity|done].
Qed.

(** C4. The decision of the policy matcher is the one the specification
    gives, for every account and every host; and the forward handler takes it
    on the field [RAddr] of the request as decoded: past the verification it
    rejects the channel exactly when the matcher denies that host, and goes on
    to the certificate authority exactly when the matcher allows it. *)
Theorem policy_decision_on_raw_host (E : Env) (newChannel : NewChannel)
    (s : SSHSession) (account : Account) :
  deref s (Account_ s) = Some account →
  (∀ host, canConnectTo s host =
             Some (policy_allows (whitelistRe account) (blacklistRe account) host)) ∧
  ∀ agentChan s1 t1,
    agentVerification E s = (Value agentChan, s1, t1) →
    if policy_allows (whitelistRe account) (blacklistRe account)
         (RAddr (Unmarshal (ExtraData newChannel)).1)
    then ∃ r s' username t2,
           handleChannelForward E newChannel s =
             (r, s',
              t1 ++ EGenerate (UUID s) username (ForceCommand (State s))
                      (ca_Generate E (UUID s) username (ForceCommand (State s))) :: t2)
    else handleChannelForward E newChannel s =
           (Returned, s1,
            t1 ++ [ELog "error"
                     "Rejecting forward: destination does not match whitelist/blacklist checks";
                   EReject ConnectionFailed "invalid permissions"]).
Proof.
  intros Hacc. split; [intros host; by apply canConnectTo_policy|].
  intros agentChan s1 t1 Hfirst.
  pose proof (agentVerification_frame E s) as (Hu & Hst & Ha & _).
  rewrite Hfirst in Hu, Hst, Ha. simpl in *.
  pose proof (canConnectTo_policy s account (RAddr (Unmarshal (ExtraData newChannel)).1) Hacc)
    as Hcan.
  rewrite handleChannelForward_unfold, Hfirst, forwardRequest_spec. simpl.
  rewrite (canConnectTo_ext s1 s), Hcan by done.
  destruct (policy_allows _ _ _); [|done].
  destruct (canConnectTo_principal _ _ _ Hcan) as [username Hp].
  rewrite (principal_ext s1 s), Hp, Hu, Hst by done.
  destruct (ca_Generate E _ _ _) as [[cert privateKey]|err] eqn:Hgen; simpl.
  - destruct (Agent_ s1); [|eexists _, _, username, _; by rewrite Hgen].
    destruct (Add E _ _) as [err|]; simpl; [eexists _, _, username, _; by rewrite Hgen|].
    destruct (Dial E _ _); simpl; eexists _, _, username, _; by rewrite Hgen.
  - eexists _, _, username, _; by rewrite Hgen.
Qed.

(** The first part of the handler comes before the policy check: it issues
    no certificate, adds nothing to the agent, notifies nobody, dials
    nowhere. *)
Lemma agentVerification_before_policy (E : Env) (s : SSHSession) :
  Forall (λ e, after_policy e = false) (agentVerification E s).2.
Proof.
  rewrite agentVerification_spec. simpl.
  destruct (OpenChannel E _) as [agentChan|e]; simpl; [|by repeat constructor].
  destruct (verified s); simpl; [by repeat constructor|].
  destruct (Signers E _) as [signers|e]; simpl; [|by repeat constructor].
  destruct (range_signers_spec E signers (set_Agent (NewClient agentChan) s))
    as [[-> _]|[(sg & ak & tok & sig & _ & _ & _ & ->)
               |(t & lmsg & msg & -> & Ht)]]; simpl.
  - by repeat constructor.
  - by repeat constructor.
  - destruct Ht as [(e & ->)|[(tok & sg & e & ->)|(tok & sg & sig & key & e & ->)]];
      by repeat constructor.
Qed.

Lemma notifications_not_Add (s : SSHSession) (addr : string) a key res :
  EAdd a key res ∉ notifications s addr.
Proof. unfold notifications. by intros (wp & ? & _)%list_elem_of_fmap. Qed.

Lemma ca_Generate_principals (E : Env) (uuid username cmd : string) cert privateKey :
  ca_Generate E uuid username cmd = Ok (cert, privateKey) →
  ValidPrincipals cert = [username] ∧ KeyId cert = uuid.
Proof.
  unfold ca_Generate. destruct (ca_keypair E uuid) as [[pub priv]|err]; [|done].
  by intros [= <- <-].
Qed.

Lemma principal_cases (s : SSHSession) (username : string) :
  principal s = Some username →
  (ForceUser (State s) ≠ "" ∧ username = ForceUser (State s))
  ∨ (ForceUser (State s) = "" ∧
     ∃ account, deref s (Account_ s) = Some account ∧ username = Username account).
Proof.
  unfold principal. case_decide as Hf.
  - intros [= <-]. by left.
  - destruct (deref s (Account_ s)) as [account|]; [|done]. intros [= <-].
    right. split; [by destruct (decide (ForceUser (State s) = ""))|by exists account].
Qed.

(** C6. Whenever the handler of a forward channel adds a key to the agent,
    the key has a lifetime of 10 seconds, its comment names the destination
    host, and its certificate is the one the certificate authority made for
    the principal [force_user] when that is configured, and for the name of
    the account of the session otherwise; and when the agent refuses the key
    the channel is rejected with reason "prohibited". *)
Theorem injected_credential (E : Env) (newChannel : NewChannel) (s s' : SSHSession)
    r t a key res :
  handleChannelForward E newChannel s = (r, s', t) →
  EAdd a key res ∈ t →
  ∃ username cert privateKey,
    ((ForceUser (State s) ≠ "" ∧ username = ForceUser (State s))
     ∨ (ForceUser (State s) = "" ∧
        ∃ account, deref s (Account_ s) = Some account ∧ username = Username account)) ∧
    ca_Generate E (UUID s) username (ForceCommand (State s)) = Ok (cert, privateKey) ∧
    AddedCertificate key = cert ∧
    AddedPrivateKey key = privateKey ∧
    ValidPrincipals cert = [username] ∧
    LifetimeSecs key = 10%N ∧
    AddedComment key =
      "temporary ssh certificate (" +:+ RAddr (Unmarshal (ExtraData newChannel)).1 +:+ ")" ∧
    Agent_ s' = Some a ∧
    res = Add E a key ∧
    (res ≠ None →
     r = Returned ∧
     ∃ t0, t = t0 ++
       [ELog "error" "Rejecting forward: failed to generate or add ssh certificate";
        EReject Prohibited "failed to generate or add ssh certificate"]).
Proof.
  rewrite handleChannelForward_unfold.
  pose proof (agentVerification_before_policy E s) as Hbefore.
  pose proof (agentVerification_frame E s) as (Hu & Hst & Ha & _).
  destruct (agentVerification E s) as [[[agentChan| |] s1] t1]; simpl in *.
  2,3: intros [= <- <- <-] Hin; rewrite Forall_forall in Hbefore;
       by specialize (Hbefore _ Hin).
  rewrite forwardRequest_spec. simpl.
  rewrite (principal_ext s1 s), Hu, Hst by done.
  assert (∀ t2, EAdd a key res ∈ t1 ++ t2 → EAdd a key res ∈ t2) as Hskip.
  { intros t2 [Hin|Hin]%elem_of_app; [|done].
    rewrite Forall_forall in Hbefore. by specialize (Hbefore _ Hin). }
  destruct (canConnectTo s1 _) as [[]|].
  2,3: intros [= <- <- <-] Hin%Hskip;
       repeat (apply elem_of_cons in Hin as [?|Hin]; [done|]); by apply elem_of_nil in Hin.
  destruct (principal s) as [username|] eqn:Hp.
  2: intros [= <- <- <-] Hin%Hskip; by apply elem_of_nil in Hin.
  simpl. destruct (ca_Generate E _ _ _) as [[cert privateKey]|err] eqn:Hgen.
  2: intros [= <- <- <-] Hin%Hskip;
     repeat (apply elem_of_cons in Hin as [?|Hin]; [done|]); by apply elem_of_nil in Hin.
  destruct (ca_Generate_principals _ _ _ _ _ _ Hgen) as [Hprinc _].
  destruct (Agent_ s1) as [a1|] eqn:Hagent.
  2: intros [= <- <- <-] Hin%Hskip;
     repeat (apply elem_of_cons in Hin as [?|Hin]; [done|]); by apply elem_of_nil in Hin.
  assert (∀ t3, EAdd a key res ∈
            EGenerate (UUID s) username (ForceCommand (State s)) (Ok (cert, privateKey))
            :: EAdd a1 (tempKey cert privateKey (RAddr (Unmarshal (ExtraData newChannel)).1))
                 (Add E a1 (tempKey cert privateKey
                              (RAddr (Unmarshal (ExtraData newChannel)).1))) :: t3 →
            (∀ a' key' res', EAdd a' key' res' ∉ t3) →
            a = a1 ∧
            key = tempKey cert privateKey (RAddr (Unmarshal (ExtraData newChannel)).1) ∧
            res = Add E a1 key) as Hhere.
  { intros t3 Hin Hno. apply elem_of_cons in Hin as [?|Hin]; [done|].
    apply elem_of_cons in Hin as [[= -> -> ->]|Hin]; [done|]. by apply Hno in Hin. }
  destruct (Add E a1 _) as [err|] eqn:Hadd.
  - intros [= <- <- <-] Hin%Hskip.
    apply Hhere in Hin as (-> & -> & ->).
    2:{ intros a' key' res' Hin'.
        repeat (apply elem_of_cons in Hin' as [?|Hin']; [done|]).
        by apply elem_of_nil in Hin'. }
    exists username, cert, privateKey.
    split; [by apply principal_cases|]. rewrite Hadd.
    do 8 (split; [done|]). intros _. split; [done|].
    eexists (t1 ++ [_; _]). by rewrite <- app_assoc.
  - assert (∀ t4, (∀ a' key' res', EAdd a' key' res' ∉ t4) →
              ∀ a' key' res',
                EAdd a' key' res' ∉
                  notifications s1 (RAddr (Unmarshal (ExtraData newChannel)).1) ++ t4)
      as Hno.
    { intros t4 H4 a' key' res' [Hin|Hin]%elem_of_app;
        [by apply notifications_not_Add in Hin|by apply H4 in Hin]. }
    destruct (Dial E _ _) as [conn|err]; simpl.
    + intros [= <- <- <-] Hin%Hskip.
      apply Hhere in Hin as (-> & -> & ->).
      2:{ apply Hno. intros a' key' res' Hin'.
          repeat (apply elem_of_cons in Hin' as [?|Hin']; [done|]).
          by apply elem_of_nil in Hin'. }
      exists username, cert, privateKey.
      split; [by apply principal_cases|]. rewrite Hadd.
      by do 8 (split; [done|]).
    + intros [= <- <- <-] Hin%Hskip.
      apply Hhere in Hin as (-> & -> & ->).
      2:{ apply Hno. intros a' key' res' Hin'.
          repeat (apply elem_of_cons in Hin' as [?|Hin']; [done|]).
          by apply elem_of_nil in Hin'. }
      exists username, cert, privateKey.
      split; [by apply principal_cases|]. rewrite Hadd.
      by do 8 (split; [done|]).
Qed.

Lemma notifications_not_Dial (s : SSHSession) (addr : string) network address res :
  EDial network address res ∉ notifications s addr.
Proof. unfold notifications. by intros (wp & ? & _)%list_elem_of_fmap. Qed.


(** C8, as the code has it.  Every forward channel starts by asking the
    client for a channel [auth-agent@openssh.com] of its own.  When the client
    opens it, the handle the session holds afterwards is a new agent client
    over that channel, whatever handle an earlier channel stored; when the
    client does not, the handle stays as it was and the channel is rejected:
    the handler logs the failure, rejects the channel with reason
    "prohibited" and returns, the session being as it was. *)
Theorem agent_handle_per_channel (E : Env) (newChannel : NewChannel) (s : SSHSession) :
  ∃ t',
    (handleChannelForward E newChannel s).2 =
      EOpenChannel "auth-agent@openssh.com" (OpenChannel E "auth-agent@openssh.com") :: t' ∧
    match OpenChannel E "auth-agent@openssh.com" with
    | Ok agentChan =>
        Agent_ (handleChannelForward E newChannel s).1.2 = Some (NewClient agentChan)
    | Err err =>
        Agent_ (handleChannelForward E newChannel s).1.2 = Agent_ s ∧
        handleChannelForward E newChannel s =
          (Returned, s,
           [EOpenChannel "auth-agent@openssh.com" (Err err);
            ELog "error" "Rejecting forward: failed to open ssh agent";
            EReject Prohibited "you must have an ssh agent open and forwarded"])
    end.
Proof.
  rewrite handleChannelForward_unfold.
  assert (∀ agentChan s1, Agent_ s1 = Some (NewClient agentChan) →
            Agent_ (forwardRequest E newChannel agentChan s1).1.2
            = Some (NewClient agentChan)) as Hsecond.
  { intros agentChan s1 Hs1. rewrite forwardRequest_spec. simpl.
    repeat case_match; by simplify_eq. }
  destruct (agentVerification_cases E s)
    as [(e & Hopen & Heq)
       |(c & Hopen & [[_ Heq]|[[_ (e & _ & Heq)]
                     |[_ (signers & _ & [[_ Heq]|[(sg & ak & tok & sig & _ & _ & _ & Heq)
                                                   |(t0 & lmsg & msg & Heq & _)]])]]])];
    rewrite ?handleChannelForward_unfold, Heq, Hopen; simpl; try by eexists.
  - specialize (Hsecond c (set_Agent (NewClient c) s) eq_refl).
    destruct (forwardRequest E newChannel c _) as [[r2 s2] t2]. by eexists.
  - specialize (Hsecond c (set_Agent (NewClient c) s) eq_refl).
    destruct (forwardRequest E newChannel c _) as [[r2 s2] t2]. by eexists.
  - specialize (Hsecond c (set_verified true (set_Agent (NewClient c) s)) eq_refl).
    destruct (forwardRequest E newChannel c _) as [[r2 s2] t2]. by eexists.
Qed.

(** The request as [Unmarshal] leaves it: nothing is assigned when the
    first field cannot be read, a field that was read keeps its value, and the
    field that cannot be read and those after it keep their zero value. *)
Lemma Unmarshal_fields (data : list byte) :
  (parseString data = None → (Unmarshal data).1 = zeroMsg) ∧
  (∀ raddr rest1, parseString data = Some (raddr, rest1) →
     RAddr (Unmarshal data).1 = raddr ∧
     (parseUint32 rest1 = None →
      (Unmarshal data).1 = {| RAddr := raddr; RPort := 0; LAddr := ""; LPort := 0 |}) ∧
     ∀ rport rest2, parseUint32 rest1 = Some (rport, rest2) →
       RPort (Unmarshal data).1 = rport ∧
       (parseString rest2 = None →
        (Unmarshal data).1 =
          {| RAddr := raddr; RPort := rport; LAddr := ""; LPort := 0 |}) ∧
       ∀ laddr rest3, parseString rest2 = Some (laddr, rest3) →
         (parseUint32 rest3 = None →
          (Unmarshal data).1 =
            {| RAddr := raddr; RPort := rport; LAddr := laddr; LPort := 0 |}) ∧
         ∀ lport rest4, parseUint32 rest3 = Some (lport, rest4) →
           (Unmarshal data).1 =
             {| RAddr := raddr; RPort := rport; LAddr := laddr; LPort := lport |} ∧
           ((Unmarshal data).2 = None ↔ rest4 = [])).
Proof.
  unfold Unmarshal. destruct data as [|b data]; [done|].
  destruct (parseString (b :: data)) as [[raddr rest1]|]; [|done].
  split; [done|]. intros ? ? [= <- <-].
  destruct (parseUint32 rest1) as [[rport rest2]|]; [|by split; [|split]].
  split.
  { by destruct (parseString rest2) as [[? r3]|]; [destruct (parseUint32 r3) as [[]|]|]. }
  split; [done|]. intros ? ? [= <- <-].
  destruct (parseString rest2) as [[laddr rest3]|]; [|by split; [|split]].
  split; [by destruct (parseUint32 rest3) as [[]|]|].
  split; [done|]. intros ? ? [= <- <-].
  destruct (parseUint32 rest3) as [[lport rest4]|]; [|by split].
  split; [done|]. intros ? ? [= <- <-]. split; [done|]. by destruct rest4.
Qed.

(** C10, as the code has it.  The handler never looks at the error of
    [ssh.Unmarshal]: a channel whose extra data does not decode is handled as
    any channel that decodes to the same fields.  The policy decision is taken
    on the [RAddr] of the request as the decoder left it (a denied host is
    rejected for the policy, an allowed one goes on to the certificate
    authority) and every dial goes to that [RAddr] and [RPort].  In that
    request every field read before the failure holds the value read, and the
    field that could not be read and those after it are zero; all four are
    read when the only fault is in the bytes left over.  Host and port are the
    empty host and port 0 exactly when the host cannot be read, or is read as
    the empty string with a port that cannot be read or is read as 0. *)
Theorem unmarshal_error_discarded (E : Env) (newChannel : NewChannel) (s : SSHSession)
    (err : error) :
  (Unmarshal (ExtraData newChannel)).2 = Some err →
  (∀ newChannel',
     (Unmarshal (ExtraData newChannel')).1 = (Unmarshal (ExtraData newChannel)).1 →
     handleChannelForward E newChannel' s = handleChannelForward E newChannel s) ∧
  (∀ agentChan s1 t1,
     agentVerification E s = (Value agentChan, s1, t1) →
     canConnectTo s (RAddr (Unmarshal (ExtraData newChannel)).1) = Some false →
     handleChannelForward E newChannel s =
       (Returned, s1,
        t1 ++ [ELog "error"
                 "Rejecting forward: destination does not match whitelist/blacklist checks";
               EReject ConnectionFailed "invalid permissions"])) ∧
  (∀ agentChan s1 t1,
     agentVerification E s = (Value agentChan, s1, t1) →
     canConnectTo s (RAddr (Unmarshal (ExtraData newChannel)).1) = Some true →
     ∃ r s' username t2,
       handleChannelForward E newChannel s =
         (r, s',
          t1 ++ EGenerate (UUID s) username (ForceCommand (State s))
                  (ca_Generate E (UUID s) username (ForceCommand (State s))) :: t2)) ∧
  (∀ network address res,
     EDial network address res ∈ (handleChannelForward E newChannel s).2 →
     network = "tcp" ∧
     address = RAddr (Unmarshal (ExtraData newChannel)).1 +:+ ":" +:+
               pretty (RPort (Unmarshal (ExtraData newChannel)).1)) ∧
  (parseString (ExtraData newChannel) = None →
   (Unmarshal (ExtraData newChannel)).1 = zeroMsg) ∧
  (∀ raddr rest1,
     parseString (ExtraData newChannel) = Some (raddr, rest1) →
     RAddr (Unmarshal (ExtraData newChannel)).1 = raddr ∧
     (parseUint32 rest1 = None →
      (Unmarshal (ExtraData newChannel)).1 =
        {| RAddr := raddr; RPort := 0; LAddr := ""; LPort := 0 |}) ∧
     ∀ rport rest2,
       parseUint32 rest1 = Some (rport, rest2) →
       RPort (Unmarshal (ExtraData newChannel)).1 = rport ∧
       (parseString rest2 = None →
        (Unmarshal (ExtraData newChannel)).1 =
          {| RAddr := raddr; RPort := rport; LAddr := ""; LPort := 0 |}) ∧
       ∀ laddr rest3,
         parseString rest2 = Some (laddr, rest3) →
         (parseUint32 rest3 = None →
          (Unmarshal (ExtraData newChannel)).1 =
            {| RAddr := raddr; RPort := rport; LAddr := laddr; LPort := 0 |}) ∧
         ∀ lport rest4,
           parseUint32 rest3 = Some (lport, rest4) →
           (Unmarshal (ExtraData newChannel)).1 =
             {| RAddr := raddr; RPort := rport; LAddr := laddr; LPort := lport |} ∧
           rest4 ≠ []) ∧
  (RAddr (Unmarshal (ExtraData newChannel)).1 = "" ∧
   RPort (Unmarshal (ExtraData newChannel)).1 = 0%N ↔
   parseString (ExtraData newChannel) = None ∨
   ∃ rest1,
     parseString (ExtraData newChannel) = Some ("", rest1) ∧
     (parseUint32 rest1 = None ∨ ∃ rest2, parseUint32 rest1 = Some (0%N, rest2))).
Proof.
  intros Herr. split; [|split; [|split; [|split; [|split; [|split]]]]].
  - intros newChannel' Heq. unfold handleChannelForward, forwardRequest.
    by rewrite Heq.
  - intros agentChan s1 t1 Hfirst Hcan.
    pose proof (agentVerification_frame E s) as (_ & Hst & Ha & _).
    rewrite Hfirst in Hst, Ha. simpl in *.
    rewrite handleChannelForward_unfold, Hfirst, forwardRequest_spec. simpl.
    by rewrite (canConnectTo_ext s1 s), Hcan.
  - intros agentChan s1 t1 Hfirst Hcan.
    pose proof (agentVerification_frame E s) as (Hu & Hst & Ha & _).
    rewrite Hfirst in Hu, Hst, Ha. simpl in *.
    rewrite handleChannelForward_unfold, Hfirst, forwardRequest_spec. simpl.
    rewrite (canConnectTo_ext s1 s), Hcan by done.
    destruct (canConnectTo_principal _ _ _ Hcan) as [username Hp].
    rewrite (principal_ext s1 s), Hp, Hu, Hst by done.
    destruct (ca_Generate E _ _ _) as [[cert privateKey]|e] eqn:Hgen; simpl.
    + destruct (Agent_ s1); [|eexists _, _, username, _; by rewrite Hgen].
      destruct (Add E _ _) as [e|]; simpl; [eexists _, _, username, _; by rewrite Hgen|].
      destruct (Dial E _ _); simpl; eexists _, _, username, _; by rewrite Hgen.
    + eexists _, _, username, _; by rewrite Hgen.
  - intros network address res. rewrite handleChannelForward_unfold.
    pose proof (agentVerification_before_policy E s) as Hbefore.
    destruct (agentVerification E s) as [[[agentChan| |] s1] t1]; simpl in *.
    2,3: intros Hin; rewrite Forall_forall in Hbefore; by specialize (Hbefore _ Hin).
    rewrite forwardRequest_spec. simpl.
    assert (∀ t2, EDial network address res ∈ t1 ++ t2 → EDial network address res ∈ t2)
      as Hskip.
    { intros t2 [Hin|Hin]%elem_of_app; [|done].
      rewrite Forall_forall in Hbefore. by specialize (Hbefore _ Hin). }
    destruct (canConnectTo s1 _) as [[]|]; simpl.
    2,3: intros Hin%Hskip;
         repeat (apply elem_of_cons in Hin as [?|Hin]; [done|]);
         by apply elem_of_nil in Hin.
    destruct (principal s1) as [username|]; simpl.
    2: intros Hin%Hskip; by apply elem_of_nil in Hin.
    destruct (ca_Generate E _ _ _) as [[cert privateKey]|e]; simpl.
    2: intros Hin%Hskip;
       repeat (apply elem_of_cons in Hin as [?|Hin]; [done|]);
       by apply elem_of_nil in Hin.
    destruct (Agent_ s1) as [a|]; simpl.
    2: intros Hin%Hskip;
       repeat (apply elem_of_cons in Hin as [?|Hin]; [done|]);
       by apply elem_of_nil in Hin.
    destruct (Add E a _) as [e|]; simpl.
    1: intros Hin%Hskip;
       repeat (apply elem_of_cons in Hin as [?|Hin]; [done|]);
       by apply elem_of_nil in Hin.
    destruct (Dial E _ _) as [conn|e] eqn:Hdial; simpl; intros Hin%Hskip;
      (do 2 (apply elem_of_cons in Hin as [?|Hin]; [done|]));
      (apply elem_of_app in Hin as [Hin|Hin];
       [by apply notifications_not_Dial in Hin|]);
      (apply elem_of_cons in Hin as [[= -> -> ->]|Hin]; [done|]);
      repeat (apply elem_of_cons in Hin as [?|Hin]; [done|]);
      by apply elem_of_nil in Hin.
  - apply Unmarshal_fields.
  - destruct (Unmarshal_fields (ExtraData newChannel)) as [_ Hfields].
    intros raddr rest1 Hp1. destruct (Hfields _ _ Hp1) as (H1 & H2 & H3).
    split; [done|]. split; [done|]. intros rport rest2 Hp2.
    destruct (H3 _ _ Hp2) as (H4 & H5 & H6).
    split; [done|]. split; [done|]. intros laddr rest3 Hp3.
    destruct (H6 _ _ Hp3) as (H7 & H8).
    split; [done|]. intros lport rest4 Hp4. destruct (H8 _ _ Hp4) as (H9 & H10).
    split; [done|]. intros ->. rewrite (proj2 H10 eq_refl) in Herr. done.
  - destruct (Unmarshal_fields (ExtraData newChannel)) as [Hnone Hfields].
    destruct (parseString (ExtraData newChannel)) as [[raddr rest1]|] eqn:Hp1.
    + destruct (Hfields _ _ eq_refl) as (H1 & H2 & H3). rewrite H1.
      destruct (parseUint32 rest1) as [[rport rest2]|] eqn:Hp2.
      * destruct (H3 _ _ eq_refl) as (H4 & _). rewrite H4. split.
        -- intros [-> ->]. right. exists rest1. split; [done|]. right. by exists rest2.
        -- intros [?|(r1 & Heq & [?|(r2 & Heq')])]; [done| |]; by simplify_eq.
      * rewrite (H2 eq_refl). simpl. split.
        -- intros [-> _]. right. exists rest1. split; [done|]. by left.
        -- intros [?|(r1 & Heq & _)]; [done|]. by simplify_eq.
    + rewrite (Hnone eq_refl). split; [by left|done].
Qed.

End ForwardFacts.

(** ** The teardown latch *)

Section LatchFacts.

Import Latch.

Lemma latch_inv_start : latch_inv start.
Proof. split; [done|]. simpl. split; [done|]. by intros [|]. Qed.

Lemma latch_inv_step (p p' : Proxy) : latch_inv p → step p p' → latch_inv p'.
Proof.
  intros [Hclosed Hdone] Hstep.
  destruct Hstep as [p Hpc|p Hpc|p Hpc|p Hpc]; unfold latch_inv, Do; simpl.
  - split; [done|]. rewrite Hdone, Hpc. clear. intuition discriminate.
  - destruct (done (closer p)) eqn:Hd; simpl.
    + rewrite ?Hd. split; [done|]. split; [intros _; auto|done].
    + rewrite Hclosed. split; [done|]. split; [intros _; auto|done].
  - split; [done|]. rewrite Hdone, Hpc. clear. intuition discriminate.
  - destruct (done (closer p)) eqn:Hd; simpl.
    + rewrite ?Hd. split; [done|]. split; [intros _; auto|done].
    + rewrite Hclosed. split; [done|]. split; [intros _; auto|done].
Qed.

Lemma latch_inv_reachable (p : Proxy) : rtc step start p → latch_inv p.
Proof.
  revert p. apply (rtc_ind_r latch_inv start); [apply latch_inv_start|].
  intros y z _ Hstep IH. by eapply latch_inv_step.
Qed.

Lemma Do_times_set (n : nat) (closed : list Endpoint) :
  Do_times n {| done := true |} closed = ({| done := true |}, closed).
Proof. induction n as [|n IH]; [done|]. simpl. by rewrite IH. Qed.

(** C9. However the two copy goroutines of a proxied channel interleave, the
    body of the teardown closure never runs twice; and as soon as one of them
    has been through its call of the latch, whichever it is, the body has run
    exactly once: the agent channel, the client channel and the TCP connection
    have been closed once each.  The same holds for any number of calls of the
    latch, as long as there is one. *)
Theorem teardown_runs_exactly_once :
  (∀ p : Proxy,
     rtc step start p →
     (runs (closed p) ≤ 1)%nat ∧
     (toClient p = Finished ∨ toServer p = Finished →
      closed p = [agentChan; channel; conn] ∧ runs (closed p) = 1)) ∧
  (∀ n : nat,
     (0 < n)%nat →
     (Do_times n {| done := false |} []).2 = [agentChan; channel; conn] ∧
     runs (Do_times n {| done := false |} []).2 = 1).
Proof.
  split.
  - intros p [Hclosed Hdone]%latch_inv_reachable. rewrite Hclosed.
    destruct (done (closer p)).
    + split; [by vm_compute|]. done.
    + split; [by vm_compute; lia|]. intros Hf%Hdone. done.
  - intros [|n] Hn; [lia|]. simpl. unfold Do. simpl. by rewrite Do_times_set.
Qed.

End LatchFacts.


(** ** The handshake after a reload *)

Section Handshake.

Import Shell Sample.

(** C3. The accounts file lists [alice] with her key and then [bob] with
    his.  After the reload the entry of the key of [alice] points to the one
    variable of the loop, which holds the account read last: the callback lets
    the handshake of user [bob] proceed on the key of [alice], and fails the
    handshake of [alice] on her own key. *)
Theorem handshake_checks_last_account_of_file :
  LoadAccounts (ConfigAccounts boot) = Ok [alice; bob] ∧
  store = reloadAccounts LoadAccounts ParseAuthorizedKey boot ∧
  (∃ accountKey,
     keys store !! Marshal key_alice = Some accountKey ∧
     Username <$> heap store !! akAccount accountKey = Some "bob") ∧
  PublicKeyCallback store "bob" key_alice = Some None ∧
  PublicKeyCallback store "alice" key_alice = Some (Some badKeyError).
Proof.
  split; [done|]. split; [done|]. split; [|split; by vm_compute].
  eexists. split; by vm_compute.
Qed.

(** A run of C5: the store loaded from [accounts.json] survives a reload of
    [duplicate.json]. *)
Lemma reloadAccounts_duplicate_keeps_store_run :
  accounts (reloadAccounts LoadAccounts ParseAuthorizedKey store_duplicate)
    = accounts store_duplicate ∧
  keys (reloadAccounts LoadAccounts ParseAuthorizedKey store_duplicate)
    = keys store_duplicate ∧
  ∀ l account,
    heap store_duplicate !! l = Some account →
    heap (reloadAccounts LoadAccounts ParseAuthorizedKey store_duplicate) !! l
      = Some account.
Proof.
  apply (reloadAccounts_duplicate_keeps_store LoadAccounts ParseAuthorizedKey
           store_duplicate [alice; bob; alice]).
  - reflexivity.
  - left. intros Hnd. apply NoDup_cons in Hnd as [Hnotin _]. apply Hnotin.
    rewrite !elem_of_cons. auto.
Defined.

End Handshake.

(** ** Runs of the forward handler *)

Section Runs.

Import Forward Sample.

(** A well-formed request decodes to its four fields, without error. *)
Lemma Unmarshal_direct_tcpip :
  Unmarshal (ExtraData (direct_tcpip "db-01" 5432)) =
    ({| RAddr := "db-01"; RPort := 5432; LAddr := "127.0.0.1"; LPort := 50100 |}, None).
Proof. by vm_compute. Qed.

(** The whole of a forward that goes well: [alice] forwards her agent and
    asks for [db-01:5432]. *)
Lemma forward_run :
  (handleChannelForward honest (direct_tcpip "db-01" 5432) session_alice).2 =
    [EOpenChannel "auth-agent@openssh.com" (Ok 7); EGo DiscardRequests;
     ESigners (NewClient 7) (Ok [signer_stranger; signer_alice]);
     ERandRead 128 (Ok (replicate 128 "*"%byte));
     ESign signer_alice (replicate 128 "*"%byte) (Ok (replicate 128 "*"%byte));
     EVerify key_alice (replicate 128 "*"%byte) (replicate 128 "*"%byte) None;
     ELog "info" "Public key verification completed";
     EGenerate "6ba7b810" "alice" ""
       (Ok ({| CertKey := {| Marshal := "ssh-ed25519 AAAA-fresh" |}; KeyId := "6ba7b810";
               ValidPrincipals := ["alice"]; CriticalOptions := [] |}, 99));
     EAdd (NewClient 7)
       (tempKey {| CertKey := {| Marshal := "ssh-ed25519 AAAA-fresh" |};
                   KeyId := "6ba7b810"; ValidPrincipals := ["alice"];
                   CriticalOptions := [] |} 99 "db-01") None;
     ENotifySessionStart "discord" "alice" "6ba7b810" "db-01" "198.51.100.7:50022";
     EDial "tcp" "db-01:5432" (Ok 3); EAccept (Ok 5); EGo DiscardRequests;
     EGo (CopyThenClose true 7 (Some 5) 3); EGo (CopyThenClose false 7 (Some 5) 3)] ∧
  verified (handleChannelForward honest (direct_tcpip "db-01" 5432) session_alice).1.2
    = true ∧
  Proxies (handleChannelForward honest (direct_tcpip "db-01" 5432) session_alice).1.2
    = [3].
Proof. repeat split; by vm_compute. Qed.

(** A run of C1: once [alice] has been verified, a later channel whose
    signature does not verify and the end of the session leave her so. *)
Lemma verified_monotone_run :
  verified (handleChannelForward honest (direct_tcpip "db-01" 5432) session_alice).1.2
    = true ∧
  verified
    (invoke_all [mHandleChannelForward wrong_signature truncated; mClose "bye"]
       (handleChannelForward honest (direct_tcpip "db-01" 5432) session_alice).1.2).1
    = true.
Proof.
  split; [by vm_compute|].
  apply (proj1 verified_monotone_and_set_by_verification). by vm_compute.
Defined.

(** A run of C2: the agent of the client of [alice] holds the key of a
    stranger only. *)
Lemma unverified_session_reaches_issuance_run :
  ∃ r s' username t',
    principal session_alice = Some username ∧
    handleChannelForward no_matching_signer (direct_tcpip "db-01" 5432) session_alice =
      (r, s',
       [EOpenChannel "auth-agent@openssh.com" (Ok 7); EGo DiscardRequests;
        ESigners (NewClient 7) (Ok [signer_stranger]);
        EGenerate (UUID session_alice) username (ForceCommand (State session_alice))
          (ca_Generate no_matching_signer (UUID session_alice) username
             (ForceCommand (State session_alice)))] ++ t') ∧
    verified s' = false.
Proof.
  apply (unverified_session_reaches_issuance no_matching_signer
           (direct_tcpip "db-01" 5432) session_alice 7 [signer_stranger]).
  - reflexivity.
  - reflexivity.
  - reflexivity.
  - constructor; [|constructor]. intros (accountKey & Hk & _).
    vm_compute in Hk. discriminate.
  - by vm_compute.
Defined.

(** A run of C4: [bob] may go to [db-01], and the matcher is asked about
    [db-01], not about [db-01:5432]. *)
Lemma policy_decision_on_raw_host_run :
  canConnectTo session_bob "db-01" = Some true ∧
  canConnectTo session_bob "db-01:5432" = Some false.
Proof.
  destruct (policy_decision_on_raw_host honest (direct_tcpip "db-01" 5432)
              session_bob bob eq_refl) as [Hdecision _].
  rewrite !Hdecision. split; by vm_compute.
Defined.

(** A run of C6: the agent of the client refuses the key. *)
Lemma injected_credential_run :
  (handleChannelForward full_agent (direct_tcpip "db-01" 5432) session_alice).1.1
    = Returned.
Proof.
  destruct (handleChannelForward full_agent (direct_tcpip "db-01" 5432) session_alice)
    as [[r s'] t] eqn:Hrun.
  destruct (injected_credential full_agent (direct_tcpip "db-01" 5432) session_alice
              s' r t (NewClient 7)
              (tempKey {| CertKey := {| Marshal := "ssh-ed25519 AAAA-fresh" |};
                          KeyId := "6ba7b810"; ValidPrincipals := ["alice"];
                          CriticalOptions := [] |} 99 "db-01")
              (Some "agent: failure") Hrun)
    as (username & cert & privateKey & _ & _ & _ & _ & _ & _ & _ & _ & _ & Hrejected).
  - apply (f_equal snd) in Hrun. simpl in Hrun. subst t.
    apply list_elem_of_lookup_2 with (i := 8). by vm_compute.
  - by apply Hrejected.
Defined.



(** C8, as stated, fails.  The first channel of [alice] leaves the agent
    client over channel 7 on the session; the second channel asks the client
    for a new channel to its agent all the same, and the session then holds
    the agent client over channel 8. *)
Lemma agent_handle_counterexample :
  Agent_ session_alice = None ∧
  Agent_ (handleChannelForward honest (direct_tcpip "db-01" 5432) session_alice).1.2
    = Some (NewClient 7) ∧
  (handleChannelForward honest_again (direct_tcpip "db-01" 5432)
     (handleChannelForward honest (direct_tcpip "db-01" 5432) session_alice).1.2).2 !! 0
    = Some (EOpenChannel "auth-agent@openssh.com" (Ok 8)) ∧
  Agent_
    (handleChannelForward honest_again (direct_tcpip "db-01" 5432)
       (handleChannelForward honest (direct_tcpip "db-01" 5432) session_alice).1.2).1.2
    = Some (NewClient 8).
Proof. repeat split; by vm_compute. Qed.

(** A run of C10: the request cut short in its port. *)
Lemma unmarshal_error_discarded_run :
  (Unmarshal (ExtraData truncated)).2 = Some "ssh: short read" ∧
  RAddr (Unmarshal (ExtraData truncated)).1 = "db-01".
Proof.
  split; [by vm_compute|].
  destruct (unmarshal_error_discarded honest_again truncated session_bob "ssh: short read")
    as (_ & _ & _ & _ & _ & Hfields & _); [by vm_compute|].
  apply (Hfields "db-01" ["000"; "000"]%byte). by vm_compute.
Defined.

(** C10, as stated, fails.  The extra data holds the host [db-01] and two
    bytes of a port: it does not decode, and the request the handler goes on
    with is not the zero value.  [bob] may go to [db-01] only, so that the
    empty host is denied; the handler takes the decision on [db-01], allows the
    channel and dials [db-01:0]. *)
Lemma unmarshal_error_counterexample :
  Unmarshal (ExtraData truncated) =
    ({| RAddr := "db-01"; RPort := 0; LAddr := ""; LPort := 0 |}, Some "ssh: short read") ∧
  canConnectTo session_bob "" = Some false ∧
  canConnectTo session_bob "db-01" = Some true ∧
  (handleChannelForward honest_again truncated
     (set_verified true session_bob)).2 =
    [EOpenChannel "auth-agent@openssh.com" (Ok 8); EGo DiscardRequests;
     EGenerate "6ba7b811" "bob" ""
       (Ok ({| CertKey := {| Marshal := "ssh-ed25519 AAAA-fresh" |}; KeyId := "6ba7b811";
               ValidPrincipals := ["bob"]; CriticalOptions := [] |}, 99));
     EAdd (NewClient 8)
       (tempKey {| CertKey := {| Marshal := "ssh-ed25519 AAAA-fresh" |};
                   KeyId := "6ba7b811"; ValidPrincipals := ["bob"];
                   CriticalOptions := [] |} 99 "db-01") None;
     ENotifySessionStart "discord" "bob" "6ba7b811" "db-01" "198.51.100.8:50023";
     EDial "tcp" "db-01:0" (Ok 3); EAccept (Ok 5); EGo DiscardRequests;
     EGo (CopyThenClose true 8 (Some 5) 3); EGo (CopyThenClose false 8 (Some 5) 3)].
Proof. repeat split; by vm_compute. Qed.

End Runs.

(** ** A run of the teardown *)

Section LatchRuns.

Import Latch Sample.

(** A run of C9: the goroutine towards the client is through its call of the
    latch, the other one is about to make its own. *)
Lemma teardown_runs_exactly_once_run :
  closed torn_down = [agentChan; channel; conn] ∧ runs (closed torn_down) = 1.
Proof.
  apply (proj1 teardown_runs_exactly_once torn_down); [|by left].
  eapply rtc_l; [by apply toClient_eof|].
  eapply rtc_l; [by apply toServer_eof|].
  eapply rtc_l; [by apply toClient_do|].
  apply rtc_refl.
Defined.

End LatchRuns.

(** ** More on the session of the forwarding daemon *)

Section SessionFrame.

Import Forward ForwardTrace.

Lemma kept_refl (s : SSHSession) : kept s s.
Proof. by repeat split. Qed.

Lemma kept_trans (s1 s2 s3 : SSHSession) : kept s1 s2 → kept s2 s3 → kept s1 s3.
Proof.
  unfold kept. intros (?&?&?&?&?&?&?&?&?&?&?) (?&?&?&?&?&?&?&?&?&?&?).
  repeat split; try congruence; by etrans.
Qed.

Lemma forwardRequest_kept (E : Env) (newChannel : NewChannel) (agentChan : Channel)
    (s : SSHSession) :
  kept s (forwardRequest E newChannel agentChan s).1.2.
Proof.
  rewrite forwardRequest_spec. simpl.
  destruct (canConnectTo s _) as [[]|]; [|apply kept_refl..].
  destruct (principal s) as [username|]; [|apply kept_refl]. simpl.
  destruct (ca_Generate E _ _ _) as [[cert privateKey]|e]; [|apply kept_refl].
  destruct (Agent_ s) as [a|]; [|apply kept_refl].
  destruct (Add E a _) as [e|]; [apply kept_refl|].
  destruct (Dial E _ _) as [conn|e]; [|apply kept_refl].
  repeat split; try done. by apply prefix_app_r.
Qed.

Lemma agentVerification_kept (E : Env) (s : SSHSession) :
  kept s (agentVerification E s).1.2.
Proof.
  pose proof (agentVerification_frame E s) as (Hu & Hst & Ha & Hc & Hp).
  unfold kept. rewrite Hu, Hst, Ha, Hc, Hp. by repeat split.
Qed.

Lemma handleChannelForward_kept (E : Env) (newChannel : NewChannel) (s : SSHSession) :
  kept s (handleChannelForward E newChannel s).1.2.
Proof.
  rewrite handleChannelForward_unfold.
  pose proof (agentVerification_kept E s) as H1.
  destruct (agentVerification E s) as [[[c| |] s1] t1]; simpl in *; [|done|done].
  pose proof (forwardRequest_kept E newChannel c s1) as H2.
  destruct (forwardRequest E newChannel c s1) as [[r2 s2] t2]; simpl in *.
  by eapply kept_trans.
Qed.

Lemma handleChannel_kept (E : Env) (newChannel : NewChannel) (s : SSHSession) :
  kept s (handleChannel E newChannel s).1.2.
Proof.
  unfold handleChannel. case_decide; [|apply kept_refl].
  rewrite call_state. apply handleChannelForward_kept.
Qed.

Lemma range_chans_kept (chans : list (Env * NewChannel)) (s : SSHSession) :
  kept s (range_chans chans s).1.2.
Proof.
  revert s. induction chans as [|[E newChannel] chans IH]; intros s; [apply kept_refl|].
  simpl. unfold mbind, M_bind.
  pose proof (handleChannel_kept E newChannel s) as H1.
  rewrite <- call_state in H1.
  destruct (call (handleChannel E newChannel) s) as [[[[]| |] s1] t1]; simpl in *;
    [|done|done].
  specialize (IH s1). destruct (range_chans chans s1) as [[r s2] t2]; simpl in *.
  by eapply kept_trans.
Qed.

Lemma invoke_kept (m : Method) (s : SSHSession) : kept s (invoke m s).1.2.
Proof.
  destruct m as [msg|chans|E ch|E ch|addr|E addr|addr]; simpl.
  - apply kept_refl.
  - rewrite call_state. unfold handleChannels, mbind, M_bind.
    pose proof (range_chans_kept chans s) as H1.
    destruct (range_chans chans s) as [[[[]| |] s1] t1]; simpl in *; [|done|done].
    eapply kept_trans; [done|]. repeat split; try done. simpl.
    by apply subseteq_difference_l.
  - rewrite call_state. apply handleChannel_kept.
  - rewrite call_state. apply handleChannelForward_kept.
  - unfold mbind, M_bind, get. simpl. destruct (canConnectTo s addr); apply kept_refl.
  - unfold mbind, M_bind. rewrite addTempAuth_spec. simpl.
    repeat case_match; simplify_eq; apply kept_refl.
  - rewrite notifyConnection_spec. apply kept_refl.
Qed.

(** Whatever methods are called on a session, in whatever order, and whatever
    the client and the network answer, the session keeps its identifier, its
    account and its connection, the daemon keeps its configuration, its
    accounts and its keys, no session is added to the table, and the list of
    proxied connections is only ever added to at its end. *)
Theorem session_frame (ms : list Method) (s : SSHSession) :
  kept s (invoke_all ms s).1.
Proof.
  revert s. induction ms as [|m ms IH]; intros s; [apply kept_refl|]. simpl.
  pose proof (invoke_kept m s) as H1.
  destruct (invoke m s) as [[[[]| |] s1] t1]; simpl in *; [| |done].
  - specialize (IH s1). destruct (invoke_all ms s1). by eapply kept_trans.
  - specialize (IH s1). destruct (invoke_all ms s1). by eapply kept_trans.
Qed.

(** The handlers leave the daemon and the identifier alone altogether. *)
Lemma handleChannel_State (E : Env) (newChannel : NewChannel) (s : SSHSession) :
  State (handleChannel E newChannel s).1.2 = State s ∧
  UUID (handleChannel E newChannel s).1.2 = UUID s.
Proof.
  unfold handleChannel. case_decide; [|done].
  rewrite call_state, handleChannelForward_unfold.
  pose proof (agentVerification_frame E s) as (Hu & Hst & _).
  destruct (agentVerification E s) as [[[c| |] s1] t1]; simpl in *; [|done|done].
  rewrite forwardRequest_spec. simpl.
  destruct (canConnectTo s1 _) as [[]|]; [|done..].
  destruct (principal s1) as [username|]; [|done]. simpl.
  destruct (ca_Generate E _ _ _) as [[cert privateKey]|e]; [|done].
  destruct (Agent_ s1) as [a|]; [|done].
  destruct (Add E a _) as [e|]; [done|].
  by destruct (Dial E _ _) as [conn|e].
Qed.

Lemma range_chans_State (chans : list (Env * NewChannel)) (s : SSHSession) :
  State (range_chans chans s).1.2 = State s ∧ UUID (range_chans chans s).1.2 = UUID s.
Proof.
  revert s. induction chans as [|[E newChannel] chans IH]; intros s; [done|].
  simpl. unfold mbind, M_bind.
  pose proof (handleChannel_State E newChannel s) as [H1 H2].
  rewrite <- call_state in H1, H2.
  destruct (call (handleChannel E newChannel) s) as [[[[]| |] s1] t1]; simpl in *;
    [|done|done].
  destruct (IH s1) as [H3 H4]. destruct (range_chans chans s1) as [[r s2] t2]; simpl in *.
  split; congruence.
Qed.

(** When the stream of channels of a session ends, and no handler has
    panicked, the table of sessions is the table of before without the
    identifier of this session: the session is gone from it and every other
    session is still there, however many channels were handled and however they
    ended. *)
Theorem handleChannels_leaves_table (chans : list (Env * NewChannel))
    (s s' : SSHSession) (t : list Event) :
  handleChannels chans s = (Value tt, s', t) →
  sessions (State s') = sessions (State s) ∖ {[UUID s]} ∧
  (UUID s ∉ sessions (State s')) ∧
  (∀ id, id ≠ UUID s → id ∈ sessions (State s) → id ∈ sessions (State s')).
Proof.
  unfold handleChannels, mbind, M_bind.
  pose proof (range_chans_State chans s) as [Hst Hu].
  destruct (range_chans chans s) as [[[[]| |] s1] t1]; simpl in *; [|done|done].
  intros [= <- <-]. simpl. rewrite Hst, Hu.
  split; [done|]. split.
  - rewrite elem_of_difference, elem_of_singleton. tauto.
  - intros id Hne Hin. rewrite elem_of_difference, elem_of_singleton. tauto.
Qed.

End SessionFrame.

(** ** The verdict on a channel *)

Section Verdict.

Import Forward ForwardTrace.

Lemma notifications_no_verdict (s : SSHSession) (addr : string) :
  Forall (λ e, verdict e = false) (notifications s addr).
Proof. unfold notifications. apply Forall_fmap, Forall_true. done. Qed.

(** The first part of the handler: it never panics; when it returns it has
    rejected the channel, as its last step and with reason "prohibited"; when
    it goes on it has given no verdict yet. *)
Lemma agentVerification_verdict (E : Env) (s : SSHSession) :
  match agentVerification E s with
  | (Value agentChan, s1, t1) =>
      OpenChannel E "auth-agent@openssh.com" = Ok agentChan ∧
      Agent_ s1 = Some (NewClient agentChan) ∧
      Forall (λ e, verdict e = false) t1
  | (Returned, s1, t1) =>
      Proxies s1 = Proxies s ∧
      ∃ t0 msg, t1 = t0 ++ [EReject Prohibited msg] ∧ Forall (λ e, verdict e = false) t0
  | (Panicked, _, _) => False
  end.
Proof.
  rewrite agentVerification_spec. simpl.
  destruct (OpenChannel E _) as [agentChan|e]; simpl.
  2:{ split; [done|]. eexists [_; _], _. split; [done|]. by repeat constructor. }
  destruct (verified s); simpl; [split; [done|split; [done|by repeat constructor]]|].
  destruct (Signers E _) as [signers|e]; simpl.
  2:{ split; [done|]. eexists [_; _; _; _], _. split; [done|]. by repeat constructor. }
  destruct (range_signers_spec E signers (set_Agent (NewClient agentChan) s))
    as [[-> _]|[(sg & ak & tok & sig & _ & _ & _ & ->)
               |(t & lmsg & msg & -> & Ht)]]; simpl.
  - split; [done|split; [done|by repeat constructor]].
  - split; [done|split; [done|by repeat constructor]].
  - split; [done|].
    exists ([EOpenChannel "auth-agent@openssh.com" (Ok agentChan); EGo DiscardRequests;
             ESigners (NewClient agentChan) (Ok signers)] ++ t ++ [ELog "error" lmsg]), msg.
    split; [by rewrite <- !app_assoc|].
    destruct Ht as [(e & ->)|[(tok & sg & e & ->)|(tok & sg & sig & key & e & ->)]];
      by repeat constructor.
Qed.

(** Every channel gets at most one verdict, and it is the last word of its
    handler on the matter.  A channel handed to [handleChannel] is either
    rejected, once and as the last event, and then no connection is added to
    the session; or accepted, once, after the dial has succeeded, the
    connection has been added to the session and right before the three
    goroutines are started, even when [Accept] itself fails (the copy
    goroutines then run on a nil channel); or, when the session has no
    account, left without any verdict by a panic at the policy check. *)
Theorem channel_verdict (E : Env) (newChannel : NewChannel) (s : SSHSession) :
  (∃ t0 reason msg,
     (handleChannel E newChannel s).2 = t0 ++ [EReject reason msg] ∧
     Forall (λ e, verdict e = false) t0 ∧
     (handleChannel E newChannel s).1.1 = Value tt ∧
     Proxies (handleChannel E newChannel s).1.2 = Proxies s)
  ∨ (∃ t0 agentChan conn,
       (handleChannel E newChannel s).2 =
         t0 ++ [EAccept (Accept E); EGo DiscardRequests;
                EGo (CopyThenClose true agentChan
                       match Accept E with Ok c => Some c | Err _ => None end conn);
                EGo (CopyThenClose false agentChan
                       match Accept E with Ok c => Some c | Err _ => None end conn)] ∧
       Forall (λ e, verdict e = false) t0 ∧
       (handleChannel E newChannel s).1.1 = Value tt ∧
       OpenChannel E "auth-agent@openssh.com" = Ok agentChan ∧
       Proxies (handleChannel E newChannel s).1.2 = Proxies s ++ [conn])
  ∨ ((handleChannel E newChannel s).1.1 = Panicked ∧
     deref s (Account_ s) = None ∧
     Forall (λ e, verdict e = false) (handleChannel E newChannel s).2 ∧
     Forall (λ e, after_policy e = false) (handleChannel E newChannel s).2).
Proof.
  unfold handleChannel. case_decide as Htype.
  2:{ left. eexists [_], _, _. split; [done|]. split; [by repeat constructor|done]. }
  unfold call. rewrite handleChannelForward_unfold.
  pose proof (agentVerification_verdict E s) as Hfirst.
  pose proof (agentVerification_frame E s) as (Hu & Hst & Ha & _ & Hp).
  pose proof (agentVerification_before_policy E s) as Hbefore.
  destruct (agentVerification E s) as [[[agentChan| |] s1] t1]; simpl in *; [| |done].
  2:{ destruct Hfirst as (Hprox & t0 & msg & -> & Hnone). left. by exists t0, Prohibited, msg. }
  destruct Hfirst as (Hopen & Hagent & Hnone).
  rewrite forwardRequest_spec. simpl.
  rewrite (canConnectTo_ext s1 s), (principal_ext s1 s), Hagent by done.
  destruct (canConnectTo s _) as [[]|] eqn:Hcan.
  3:{ right; right. simpl. rewrite app_nil_r.
      split; [done|]. split; [|done]. unfold canConnectTo in Hcan.
      destruct (deref s (Account_ s)); [|done]. by repeat case_match. }
  2:{ left. eexists (t1 ++ [_]), _, _. simpl. rewrite <- app_assoc. split; [done|].
      split; [|done]. apply Forall_app. split; [done|by repeat constructor]. }
  destruct (canConnectTo_principal _ _ _ Hcan) as [username ->]. simpl.
  destruct (ca_Generate E _ _ _) as [[cert privateKey]|e] eqn:Hgen; simpl.
  2:{ left. eexists (t1 ++ [_; _]), _, _. rewrite <- app_assoc. split; [done|].
      split; [|done]. apply Forall_app. split; [done|by repeat constructor]. }
  destruct (Add E _ _) as [e|]; simpl.
  { left. eexists (t1 ++ [_; _; _]), _, _. rewrite <- app_assoc. split; [done|].
    split; [|done]. apply Forall_app. split; [done|by repeat constructor]. }
  destruct (Dial E _ _) as [conn|e]; simpl.
  - right; left.
    eexists (t1 ++ [_; _] ++ notifications s1 _ ++ [_]), agentChan, conn.
    rewrite <- ?app_assoc. simpl. rewrite <- ?app_assoc. simpl.
    split; [done|]. split; [|by rewrite Hp].
    apply Forall_app. split; [done|]. do 2 (constructor; [done|]).
    apply Forall_app. split; [apply notifications_no_verdict|by repeat constructor].
  - left.
    eexists (t1 ++ [_; _] ++ notifications s1 _ ++ [_; _]), _, _.
    rewrite <- ?app_assoc. simpl. rewrite <- ?app_assoc. simpl.
    split; [done|]. split; [|done].
    apply Forall_app. split; [done|]. do 2 (constructor; [done|]).
    apply Forall_app. split; [apply notifications_no_verdict|by repeat constructor].
Qed.

End Verdict.

(** ** The challenge of the agent *)

Section Challenge.

Import Forward ForwardTrace.

Lemma notifications_no_challenge (s : SSHSession) (addr : string) :
  Forall (λ e, challenge e = false) (notifications s addr).
Proof. unfold notifications. apply Forall_fmap, Forall_true. done. Qed.

Lemma forwardRequest_no_challenge (E : Env) (newChannel : NewChannel)
    (agentChan : Channel) (s : SSHSession) :
  Forall (λ e, challenge e = false) (forwardRequest E newChannel agentChan s).2.
Proof.
  rewrite forwardRequest_spec. simpl.
  destruct (canConnectTo s _) as [[]|]; [|by repeat constructor..].
  destruct (principal s) as [username|]; [|by repeat constructor]. simpl.
  destruct (ca_Generate E _ _ _) as [[cert privateKey]|e]; [|by repeat constructor].
  destruct (Agent_ s) as [a|]; [|by repeat constructor].
  destruct (Add E a _) as [e|]; [by repeat constructor|].
  destruct (Dial E _ _) as [conn|e]; simpl;
    (do 2 (constructor; [done|])); apply Forall_app;
    (split; [apply notifications_no_challenge|by repeat constructor]).
Qed.

(** On a session that is verified already the handler of a forward channel
    asks the agent of the client nothing: it neither lists the signers nor
    draws a token nor asks for a signature. *)
Theorem verified_session_not_challenged (E : Env) (newChannel : NewChannel)
    (s : SSHSession) :
  verified s = true →
  Forall (λ e, challenge e = false) (handleChannelForward E newChannel s).2.
Proof.
  intros Hv. rewrite handleChannelForward_unfold, agentVerification_spec. simpl.
  destruct (OpenChannel E _) as [agentChan|e]; simpl; [|by repeat constructor].
  rewrite Hv.
  pose proof (forwardRequest_no_challenge E newChannel agentChan
                (set_Agent (NewClient agentChan) s)) as H2.
  destruct (forwardRequest E newChannel agentChan _) as [[r2 s2] t2]; simpl in *.
  by do 2 (constructor; [done|]).
Qed.

(** The signers in front of the first one that matches are passed over. *)
Lemma range_signers_first_match (E : Env) (before after : list Signer)
    (signer : Signer) (s : SSHSession) :
  Forall (λ signer, ¬ matches s signer) before →
  range_signers E (before ++ signer :: after) s = range_signers E (signer :: after) s.
Proof.
  remember (range_signers E (signer :: after) s) as rest eqn:Hrest.
  induction 1 as [|sg before Hno _ IH]; [done|].
  change ((sg :: before) ++ signer :: after) with (sg :: (before ++ signer :: after)).
  cbn [range_signers]. unfold mbind, M_bind, get. simpl.
  destruct (keys (State s) !! Marshal (SignerPublicKey sg)) as [accountKey|] eqn:Hk.
  - case_decide as Hacc.
    + rewrite IH. by destruct rest as [[? ?] ?].
    + destruct Hno. by exists accountKey.
  - rewrite IH. by destruct rest as [[? ?] ?].
Qed.

(** The verification is decided by the first signer of the agent that
    carries a key of the account of the session, and by it alone: the session
    is verified when the token is drawn, that signer signs it and the
    signature verifies against the key of the index; otherwise the channel is
    rejected with reason "prohibited" and the session stays unverified, whatever
    the signers after it would have answered. *)
Theorem first_matching_signer_decides (E : Env) (newChannel : NewChannel)
    (s : SSHSession) (agentChan : Channel) (before after : list Signer)
    (signer : Signer) (accountKey : AccountKey) :
  verified s = false →
  OpenChannel E "auth-agent@openssh.com" = Ok agentChan →
  Signers E (NewClient agentChan) = Ok (before ++ signer :: after) →
  Forall (λ signer, ¬ matches s signer) before →
  keys (State s) !! Marshal (SignerPublicKey signer) = Some accountKey →
  Some (akAccount accountKey) = Account_ s →
  (verified (handleChannelForward E newChannel s).1.2 = true ↔
   ∃ randomToken sig,
     rand_Read E 128 = Ok randomToken ∧
     Sign E signer randomToken = Ok sig ∧
     Verify E (Key accountKey) randomToken sig = None) ∧
  (verified (handleChannelForward E newChannel s).1.2 = false →
   (handleChannelForward E newChannel s).1.1 = Returned ∧
   ∃ t0 msg, (handleChannelForward E newChannel s).2 = t0 ++ [EReject Prohibited msg]) ∧
  (length (filter (λ e, signature_request e = true)
             (handleChannelForward E newChannel s).2) ≤ 1)%nat.
Proof.
  intros Hv Hopen Hsig Hno Hk Hacc.
  rewrite handleChannelForward_unfold, agentVerification_spec. simpl.
  rewrite Hopen, Hv, Hsig.
  rewrite (range_signers_first_match E before after signer) by done.
  cbn [range_signers]. unfold mbind, M_bind, get, emit, logf, reject, return_, put. simpl.
  rewrite Hk. case_decide as Hne; [done|].
  assert (∀ s1 agentChan,
            length (filter (λ e, signature_request e = true)
                      (forwardRequest E newChannel agentChan s1).2) = 0) as Hzero.
  { intros s1 c. pose proof (forwardRequest_no_challenge E newChannel c s1) as Hnc.
    induction Hnc as [|e t He _ IH]; [done|]. rewrite filter_cons.
    destruct (decide (signature_request e = true)) as [Hs|]; [|done].
    by destruct e. }
  assert (∀ s1 agentChan,
            verified (forwardRequest E newChannel agentChan s1).1.2 = verified s1) as Hsame.
  { intros s1 c. apply forwardRequest_verified. }
  destruct (rand_Read E 128) as [randomToken|e]; simpl.
  2:{ split; [split; [congruence|by intros (? & ? & ? & _)]|]. split; [|lia].
      intros _. split; [done|]. by eexists [_; _; _; _; _], _. }
  destruct (Sign E signer randomToken) as [sig|e] eqn:Hsign; simpl.
  2:{ split; [split; [congruence|intros (? & ? & [= <-] & ? & _); congruence]|].
      split; [|lia].
      intros _. split; [done|]. by eexists [_; _; _; _; _; _], _. }
  destruct (Verify E (Key accountKey) randomToken sig) as [e|] eqn:Hver; simpl.
  { split; [split; [congruence|intros (? & ? & [= <-] & Hs & ?); rewrite Hsign in Hs;
                                 injection Hs as <-; congruence]|].
    split; [|lia].
    intros _. split; [done|]. by eexists [_; _; _; _; _; _; _], _. }
  specialize (Hzero (set_verified true (set_Agent (NewClient agentChan) s)) agentChan).
  specialize (Hsame (set_verified true (set_Agent (NewClient agentChan) s)) agentChan).
  destruct (forwardRequest E newChannel agentChan _) as [[r2 s2] t2]; simpl in *.
  split; [split; [intros _; by exists randomToken, sig|done]|].
  split; [intros Hf; congruence|].
  rewrite !filter_cons. simpl. rewrite Hzero. lia.
Qed.

End Challenge.

(** ** Notification and dial *)

Section Notify.

Import Forward ForwardTrace.

Lemma agentVerification_steps (E : Env) (s : SSHSession) :
  Forall (λ e, agent_step e = true) (agentVerification E s).2.
Proof.
  rewrite agentVerification_spec. simpl.
  destruct (OpenChannel E _) as [agentChan|e]; simpl; [|by repeat constructor].
  destruct (verified s); simpl; [by repeat constructor|].
  destruct (Signers E _) as [signers|e]; simpl; [|by repeat constructor].
  destruct (range_signers_spec E signers (set_Agent (NewClient agentChan) s))
    as [[-> _]|[(sg & ak & tok & sig & _ & _ & _ & ->)
               |(t & lmsg & msg & -> & Ht)]]; simpl.
  - by repeat constructor.
  - by repeat constructor.
  - destruct Ht as [(e & ->)|[(tok & sg & e & ->)|(tok & sg & sig & key & e & ->)]];
      by repeat constructor.
Qed.

Lemma notifications_all (s : SSHSession) (addr : string) :
  Forall (λ e, notification e = true) (notifications s addr).
Proof. unfold notifications. apply Forall_fmap, Forall_true. done. Qed.

(** The bastion announces a session exactly when it has put a certificate
    into the agent of the client.  When the agent has taken the key, the
    handler notifies every provider once, in the order of the configuration,
    right after the addition and right before it dials, and it dials whether
    anybody was notified or not; the notifications are out when the dial fails
    and the channel is rejected.  When no key was added, nobody is notified
    and nothing is dialled. *)
Theorem notified_exactly_when_injected (E : Env) (newChannel : NewChannel)
    (s : SSHSession) :
  (∃ a key t0 t1,
     (handleChannelForward E newChannel s).2 =
       t0 ++ EAdd a key None ::
         notifications s (RAddr (Unmarshal (ExtraData newChannel)).1) ++
         EDial "tcp"
           (RAddr (Unmarshal (ExtraData newChannel)).1 +:+ ":" +:+
            pretty (RPort (Unmarshal (ExtraData newChannel)).1))
           (Dial E "tcp"
              (RAddr (Unmarshal (ExtraData newChannel)).1 +:+ ":" +:+
               pretty (RPort (Unmarshal (ExtraData newChannel)).1))) :: t1 ∧
     Forall (λ e, notification e = false ∧ dial e = false) t0 ∧
     Forall (λ e, notification e = false ∧ dial e = false) t1)
  ∨ ((∀ a key, EAdd a key None ∉ (handleChannelForward E newChannel s).2) ∧
     Forall (λ e, notification e = false ∧ dial e = false)
       (handleChannelForward E newChannel s).2).
Proof.
  rewrite handleChannelForward_unfold.
  pose proof (agentVerification_steps E s) as Hsteps.
  pose proof (agentVerification_frame E s) as (Hu & Hst & Ha & Hc & _).
  assert (∀ t, Forall (λ e, agent_step e = true) t →
               Forall (λ e, notification e = false ∧ dial e = false) t ∧
               ∀ a key, EAdd a key None ∉ t) as Hquiet.
  { intros t Ht. split.
    - eapply Forall_impl; [exact Ht|]. by intros [].
    - intros a key Hin. rewrite Forall_forall in Ht. by specialize (Ht _ Hin). }
  destruct (agentVerification E s) as [[[agentChan| |] s1] t1]; simpl in *.
  2,3: right; destruct (Hquiet t1 Hsteps); by split.
  destruct (Hquiet t1 Hsteps) as [Hq1 Hq2].
  assert (∀ t2, Forall (λ e, notification e = false ∧ dial e = false) t2 →
                (∀ a key, EAdd a key None ∉ t2) →
                (∀ a key, EAdd a key None ∉ t1 ++ t2) ∧
                Forall (λ e, notification e = false ∧ dial e = false) (t1 ++ t2)) as Hright.
  { intros t2 H2 Hno. split; [|by apply Forall_app].
    intros a key [Hin|Hin]%elem_of_app; [by apply Hq2 in Hin|by apply Hno in Hin]. }
  rewrite forwardRequest_spec. simpl.
  assert (notifications s1 (RAddr (Unmarshal (ExtraData newChannel)).1)
          = notifications s (RAddr (Unmarshal (ExtraData newChannel)).1)) as Hn.
  { unfold notifications. by rewrite Hu, Hst, Hc. }
  destruct (canConnectTo s1 _) as [[]|].
  2,3: right; apply Hright; [by repeat constructor|];
       intros a key Hin; repeat (apply elem_of_cons in Hin as [?|Hin]; [done|]);
       by apply elem_of_nil in Hin.
  destruct (principal s1) as [username|]; simpl.
  2: right; apply Hright; [by repeat constructor|];
     intros a key Hin; by apply elem_of_nil in Hin.
  destruct (ca_Generate E _ _ _) as [[cert privateKey]|e].
  2: right; apply Hright; [by repeat constructor|];
     intros a key Hin; repeat (apply elem_of_cons in Hin as [?|Hin]; [done|]);
     by apply elem_of_nil in Hin.
  destruct (Agent_ s1) as [a|].
  2: right; apply Hright; [by repeat constructor|];
     intros a key Hin; repeat (apply elem_of_cons in Hin as [?|Hin]; [done|]);
     by apply elem_of_nil in Hin.
  destruct (Add E a _) as [e|] eqn:Hadd.
  1: right; apply Hright; [by repeat constructor|];
     intros a' key Hin; repeat (apply elem_of_cons in Hin as [?|Hin]; [done|]);
     by apply elem_of_nil in Hin.
  left. rewrite Hn.
  destruct (Dial E _ _) as [conn|e]; simpl.
  - eexists a, _, (t1 ++ [_]), _. rewrite <- app_assoc. simpl.
    split; [done|]. split; [|by repeat constructor].
    apply Forall_app. split; [done|by repeat constructor].
  - eexists a, _, (t1 ++ [_]), _. rewrite <- app_assoc. simpl.
    split; [done|]. split; [|by repeat constructor].
    apply Forall_app. split; [done|by repeat constructor].
Qed.

End Notify.

(** ** The request on the wire *)

Section WireFacts.

Import Forward Sample Wire.

Lemma byte_of_N_to_N (m : N) :
  (m < 256)%N → Byte.to_N (default "000"%byte (Byte.of_N m)) = m.
Proof.
  intros Hm. destruct (Byte.of_N m) as [b|] eqn:Hb; simpl.
  - by apply Byte.to_of_N.
  - apply Byte.of_N_None_iff in Hb. lia.
Qed.

Lemma parseUint32_putUint32 (n : N) (rest : list byte) :
  (n < 2 ^ 32)%N → parseUint32 (putUint32 n ++ rest) = Some (n, rest).
Proof.
  intros Hn. unfold putUint32, parseUint32. simpl.
  rewrite !byte_of_N_to_N by (apply N.mod_lt; lia).
  do 2 f_equal.
  change (256 ^ 3)%N with 16777216%N. change (256 ^ 2)%N with 65536%N.
  change (256 ^ 1)%N with 256%N. change (256 ^ 0)%N with 1%N.
  change (2 ^ 32)%N with 4294967296%N in Hn.
  zify. Z.to_euclidean_division_equations. lia.
Qed.

Lemma length_putUint32 (n : N) : length (putUint32 n) = 4.
Proof. done. Qed.

Lemma length_list_byte_of_string (s : string) :
  length (String.list_byte_of_string s) = String.length s.
Proof. induction s as [|a s IH]; [done|]. simpl. by rewrite <- IH. Qed.

Lemma parseString_putString (s : string) (rest : list byte) :
  (N.of_nat (length (putString s ++ rest)) < 2 ^ 32)%N →
  parseString (putString s ++ rest) = Some (s, rest).
Proof.
  unfold putString. rewrite <- app_assoc, !length_app, length_putUint32.
  rewrite length_list_byte_of_string. intros Hlen.
  unfold parseString. rewrite parseUint32_putUint32 by lia.
  rewrite length_app, length_list_byte_of_string.
  rewrite N.mod_small by lia.
  case_decide; [lia|]. rewrite Nat2N.id.
  rewrite take_app_length', drop_app_length'
    by (symmetry; apply length_list_byte_of_string).
  by rewrite String.string_of_list_byte_of_string.
Qed.

(** The handler reads the request of a [direct-tcpip] channel off the wire as
    it was written: the four fields come out as they went in, without error;
    and with bytes left over behind them the four fields come out all the same,
    now with an error (which the handler does not look at). *)
Theorem direct_tcpip_round_trip (raddr : string) (rport : N) (laddr : string)
    (lport : N) (extra : list byte) :
  (N.of_nat (length (direct_tcpip_data raddr rport laddr lport ++ extra)) < 2 ^ 32)%N →
  (rport < 2 ^ 32)%N →
  (lport < 2 ^ 32)%N →
  Unmarshal (direct_tcpip_data raddr rport laddr lport ++ extra) =
    ({| RAddr := raddr; RPort := rport; LAddr := laddr; LPort := lport |},
     match extra with
     | [] => None
     | _ => Some "ssh: parse error in message type 0"
     end).
Proof.
  unfold direct_tcpip_data. intros Hlen Hr Hl.
  rewrite <- !app_assoc in *.
  assert (∀ l1 l2 : list byte,
            (N.of_nat (length (l1 ++ l2)) < 2 ^ 32)%N → (N.of_nat (length l2) < 2 ^ 32)%N)
    as Htail by (intros l1 l2; rewrite length_app; lia).
  remember (putString raddr ++ putUint32 rport ++ putString laddr ++ putUint32 lport
            ++ extra) as data eqn:Hdata.
  destruct data as [|b data].
  { unfold putString in Hdata. by rewrite <- app_assoc in Hdata. }
  unfold Unmarshal. rewrite Hdata in *. clear b data Hdata.
  rewrite parseString_putString by done.
  apply Htail in Hlen. rewrite parseUint32_putUint32 by done.
  apply Htail in Hlen. rewrite parseString_putString by done.
  rewrite parseUint32_putUint32 by done. done.
Qed.

End WireFacts.

(** ** More on the account store *)

Section StoreIndex.

Import Shell StoreSpec.

Variable LoadAccounts : string → result (list Account).
Variable ParseAuthorizedKey : string → result (PublicKey * string * list string).

Local Abbreviation range_keys := (range_keys ParseAuthorizedKey).
Local Abbreviation range_accounts := (range_accounts ParseAuthorizedKey).
Local Abbreviation reloadAccounts := (reloadAccounts LoadAccounts ParseAuthorizedKey).
Local Abbreviation wires := (wires ParseAuthorizedKey).
Local Abbreviation from_line := (from_line ParseAuthorizedKey).

Lemma from_line_mono (l1 l2 : list string) k accountKey :
  l1 ⊆ l2 → from_line l1 k accountKey → from_line l2 k accountKey.
Proof. intros Hsub (Hid & raw & Hin & Hp). split; [done|]. exists raw. auto. Qed.

(** Every entry the inner loop adds is the key of one of its lines. *)
Lemma range_keys_entries p raws f k accountKey :
  f_keys (range_keys p raws f).2 !! k = Some accountKey →
  f_keys f !! k = Some accountKey ∨ from_line raws k accountKey.
Proof.
  revert f. induction raws as [|raw raws IH]; intros f; simpl; [by left|].
  unfold NewAccountKey.
  destruct (ParseAuthorizedKey raw) as [[[key comment] options]|err] eqn:Hparse.
  - destruct (f_keys f !! ID _) eqn:Hk; simpl; [by left|].
    intros [Hin|Hin]%IH.
    + simpl in Hin. rewrite lookup_insert in Hin. case_decide as Hid; [|by left].
      right. simplify_eq. split; [done|]. exists raw. split; [apply list_elem_of_here|done].
    + right. eapply from_line_mono; [|done]. by apply list_subseteq_cons.
  - intros [Hin|Hin]%IH; [by left|].
    right. eapply from_line_mono; [|done]. by apply list_subseteq_cons.
Qed.

(** What the outer loop has put into the two maps when it has run to its
    end: the users and the keys of the file, on top of what was there. *)
Lemma range_accounts_dom p rawAccounts f f' :
  range_accounts p rawAccounts f = (Next, f') →
  (∀ u, is_Some (f_accounts f' !! u) ↔
        is_Some (f_accounts f !! u) ∨ u ∈ Username <$> rawAccounts) ∧
  (∀ k, is_Some (f_keys f' !! k) ↔ is_Some (f_keys f !! k) ∨ k ∈ wires rawAccounts).
Proof.
  revert f. induction rawAccounts as [|account rawAccounts IH]; intros f; simpl.
  { intros [= <-]. split; intros x; rewrite elem_of_nil; tauto. }
  destruct (f_accounts f !! Username account) eqn:Hu; [done|].
  match goal with |- context [range_keys p ?raws ?g] =>
    pose proof (range_keys_frame ParseAuthorizedKey p raws g) as [Ha _];
    pose proof (range_keys_Next LoadAccounts ParseAuthorizedKey p raws g) as Hk;
    destruct (range_keys p raws g) as [[] f1] end; [|done].
  destruct (Hk f1 eq_refl) as (_ & _ & Hdom). simpl in *.
  intros [IHa IHk]%IH. split.
  - intros u. rewrite IHa, Ha, lookup_insert, elem_of_cons.
    case_decide as Hne; subst.
    + split; [auto|]. intros _. left. by eexists.
    + clear -Hne. intuition congruence.
  - intros k. unfold Shell.wires. simpl. rewrite IHk, Hdom, elem_of_app.
    fold (wires rawAccounts). tauto.
Qed.

Lemma range_accounts_entries p rawAccounts f k accountKey :
  f_keys (range_accounts p rawAccounts f).2 !! k = Some accountKey →
  f_keys f !! k = Some accountKey ∨ from_line (rawAccounts ≫= SSHKeysRaw) k accountKey.
Proof.
  revert f. induction rawAccounts as [|account rawAccounts IH]; intros f; simpl; [by left|].
  destruct (f_accounts f !! Username account) eqn:Hu; simpl; [by left|].
  match goal with |- context [range_keys p ?raws ?g] =>
    pose proof (range_keys_entries p raws g k accountKey) as Hk;
    destruct (range_keys p raws g) as [[] f1] end; simpl in *.
  - intros [Hin|Hin]%IH.
    + apply Hk in Hin as [Hin|Hin]; [by left|]. right.
      eapply from_line_mono; [|done]. intros x Hx. apply elem_of_app. by left.
    + right. eapply from_line_mono; [|done]. intros x Hx. apply elem_of_app. by right.
  - intros [Hin|Hin]%Hk; [by left|]. right.
    eapply from_line_mono; [|done]. intros x Hx. apply elem_of_app. by left.
Qed.

(** A reload of a file without duplicates replaces the store by the file:
    afterwards the users of the store are the users of the file, the keys of
    the index are the wire formats of the lines of the file that parse (a line
    that does not parse is left out and does not stop the reload), and every
    entry sits under the wire format of its own key with the comment and the
    options of one of those lines.  Users and keys of the store of before that
    the file does not list are gone. *)
Theorem reloadAccounts_replaces_store (s : SSHDState) (rawAccounts : list Account) :
  LoadAccounts (ConfigAccounts s) = Ok rawAccounts →
  NoDup (Username <$> rawAccounts) →
  NoDup (wires rawAccounts) →
  (∀ u, is_Some (accounts (reloadAccounts s) !! u) ↔ u ∈ Username <$> rawAccounts) ∧
  (∀ k, is_Some (keys (reloadAccounts s) !! k) ↔ k ∈ wires rawAccounts) ∧
  (∀ k accountKey,
     keys (reloadAccounts s) !! k = Some accountKey →
     from_line (rawAccounts ≫= SSHKeysRaw) k accountKey).
Proof.
  intros Hload Hnd1 Hnd2. unfold Shell.reloadAccounts. rewrite Hload.
  match goal with |- context [range_accounts ?p ?raws ?g] =>
    pose proof (range_accounts_complete LoadAccounts ParseAuthorizedKey p raws g Hnd1) as Hc;
    pose proof (range_accounts_dom p raws g) as Hdom;
    pose proof (range_accounts_entries p raws g) as Hent;
    destruct (range_accounts p raws g) as [r f1] end.
  simpl in *.
  assert (r = Next) as -> by (apply Hc; by intros ? ?%elem_of_nil || done).
  destruct (Hdom f1 eq_refl) as [Hda Hdk]. simpl. split; [|split].
  - intros u. rewrite Hda, lookup_empty. split; [intros [[? ?]|?]; done|auto].
  - intros k. rewrite Hdk, lookup_empty. split; [intros [[? ?]|?]; done|auto].
  - intros k accountKey [Hin|Hin]%Hent; [by rewrite lookup_empty in Hin|done].
Qed.

(** A reload that fails, because the file cannot be loaded or because it
    names a user or a key twice, changes nothing for the clients: the callback
    of the handshake answers every user and every key as it did before. *)
Theorem failed_reload_keeps_handshake (s : SSHDState) :
  (∀ k accountKey, keys s !! k = Some accountKey → akAccount accountKey < length (heap s)) →
  match LoadAccounts (ConfigAccounts s) with
  | Err _ => True
  | Ok rawAccounts => ¬ NoDup (Username <$> rawAccounts) ∨ ¬ NoDup (wires rawAccounts)
  end →
  ∀ user key,
    PublicKeyCallback (reloadAccounts s) user key = PublicKeyCallback s user key.
Proof.
  intros Hwf Hfail user key. unfold PublicKeyCallback, Shell.reloadAccounts.
  destruct (LoadAccounts (ConfigAccounts s)) as [rawAccounts|err]; [|done].
  match goal with |- context [range_accounts ?p ?raws ?g] =>
    pose proof (range_accounts_Next LoadAccounts ParseAuthorizedKey p raws g) as HN;
    pose proof (range_accounts_heap ParseAuthorizedKey p raws g) as HH;
    destruct (range_accounts p raws g) as [[] f1] end; simpl in *.
  { destruct (HN f1 eq_refl) as [[? _] [? _]]. tauto. }
  destruct (keys s !! Marshal key) as [accountKey|] eqn:Hk; [|done].
  specialize (Hwf _ _ Hk).
  rewrite HH by lia. by rewrite lookup_app_l.
Qed.

End StoreIndex.

(** ** The session of the shell variant *)

Section ShellSessionFacts.

Import Shell ShellSession.

Variable LoadAccounts : string → result (list Account).
Variable ParseAuthorizedKey : string → result (PublicKey * string * list string).

Local Abbreviation reloadAccounts := (reloadAccounts LoadAccounts ParseAuthorizedKey).
Local Abbreviation wires := (wires ParseAuthorizedKey).

(** The loop of the codes, from attempt [i] on with [n] attempts to go. *)
Lemma mfa_spec (E : Env) (a : Account) (i n : nat) :
  (mfa E (Some a) i n).1 ≠ None ∧
  ((mfa E (Some a) i n).1 = Some true ↔
   ∃ k, (k < n)%nat ∧
     (∃ line, ReadLine E (i + k) = Ok line ∧ Validate E (i + k) line (TOTP a) = true) ∧
     ∀ j, (j < k)%nat →
       ∃ line, ReadLine E (i + j) = Ok line ∧ Validate E (i + j) line (TOTP a) = false) ∧
  (length (filter (λ e, attempt e = true) (mfa E (Some a) i n).2) ≤ n)%nat ∧
  Forall (λ e, shell_start e = false) (mfa E (Some a) i n).2 ∧
  (∀ passcode secret ok,
     EValidate passcode secret ok ∈ (mfa E (Some a) i n).2 → secret = TOTP a).
Proof.
  revert i. induction n as [|n IH]; intros i; cbn [mfa].
  { simpl. split; [done|].
    split; [|split; [lia|split; [constructor|by intros ? ? ? ?%elem_of_nil]]].
    split; [done|]. intros (k & ? & _). lia. }
  destruct (ReadLine E i) as [line|err] eqn:Hread; cbn [fst snd app].
  - destruct (Validate E i line (TOTP a)) eqn:Hval; cbn [fst snd app].
    + split; [done|]. split; [|split; [|split]].
      * split; [|done]. intros _. exists 0. rewrite Nat.add_0_r.
        split; [lia|]. split; [by exists line|]. intros j ?. lia.
      * rewrite filter_cons_False by done. rewrite filter_cons_True by done. simpl. lia.
      * repeat constructor.
      * intros passcode secret ok Hin. rewrite !elem_of_cons, elem_of_nil in Hin.
        destruct Hin as [|[|[|]]]; by simplify_eq.
    + destruct (IH (S i)) as (IH0 & IH1 & IH2 & IH3 & IH4).
      destruct (mfa E (Some a) (S i) n) as [valid t'] eqn:Hrest. cbn [fst snd app] in *.
      split; [done|]. split; [|split; [|split]].
      * rewrite IH1. split.
        -- intros (k & Hk & (l & Hl & Hv) & Hbefore). exists (S k).
           rewrite <- Nat.add_succ_comm. split; [lia|]. split; [by exists l|].
           intros [|j] Hj.
           ++ rewrite Nat.add_0_r. by exists line.
           ++ rewrite <- Nat.add_succ_comm. apply Hbefore. lia.
        -- intros (k & Hk & (l & Hl & Hv) & Hbefore). destruct k as [|k].
           ++ rewrite Nat.add_0_r in Hl, Hv. congruence.
           ++ exists k. rewrite <- Nat.add_succ_comm in Hl, Hv.
              split; [lia|]. split; [by exists l|]. intros j Hj.
              specialize (Hbefore (S j) ltac:(lia)).
              by rewrite <- Nat.add_succ_comm in Hbefore.
      * rewrite filter_cons_False by done. rewrite filter_cons_True by done.
        rewrite filter_cons_False by done. simpl. lia.
      * repeat constructor. done.
      * intros passcode secret ok Hin. rewrite !elem_of_cons in Hin.
        destruct Hin as [|[|[|]]]; simplify_eq; [done|]. by eapply IH4.
  - split; [done|]. split; [|split; [|split]].
    + split; [done|]. intros (k & Hk & (l & Hl & Hv) & Hbefore). destruct k as [|k].
      * rewrite Nat.add_0_r in Hl. congruence.
      * destruct (Hbefore 0 ltac:(lia)) as (l' & Hl' & _).
        rewrite Nat.add_0_r in Hl'. congruence.
    + rewrite filter_cons_False by done. rewrite filter_cons_True by done. simpl. lia.
    + repeat constructor.
    + intros passcode secret ok Hin. rewrite !elem_of_cons, elem_of_nil in Hin.
      destruct Hin as [|[|]]; by simplify_eq.
Qed.

(** Without an account the loop reads at most one code and validates
    none. *)
Lemma mfa_nil (E : Env) (n : nat) :
  (mfa E None 0 n).1 ≠ Some true ∧
  ((mfa E None 0 n).1 = None ↔ (0 < n)%nat ∧ ∃ line, ReadLine E 0 = Ok line) ∧
  (length (filter (λ e, attempt e = true) (mfa E None 0 n).2) ≤ 1)%nat ∧
  Forall (λ e, shell_start e = false) (mfa E None 0 n).2 ∧
  (∀ passcode secret ok, EValidate passcode secret ok ∉ (mfa E None 0 n).2).
Proof.
  destruct n as [|n]; cbn [mfa].
  { simpl. split; [done|].
    split; [|split; [lia|split; [constructor|by intros ? ? ? ?%elem_of_nil]]].
    split; [done|]. intros [? _]. lia. }
  destruct (ReadLine E 0) as [line|err]; cbn [fst snd app].
  - split; [done|]. split; [|split; [|split]].
    + split; [|done]. intros _. split; [lia|by exists line].
    + rewrite filter_cons_False by done. rewrite filter_cons_True by done. simpl. lia.
    + repeat constructor.
    + intros passcode secret ok Hin. rewrite !elem_of_cons, elem_of_nil in Hin.
      destruct Hin as [|[|]]; by simplify_eq.
  - split; [done|]. split; [|split; [|split]].
    + split; [done|]. by intros [_ [? ?]].
    + rewrite filter_cons_False by done. rewrite filter_cons_True by done. simpl. lia.
    + repeat constructor.
    + intros passcode secret ok Hin. rewrite !elem_of_cons, elem_of_nil in Hin.
      destruct Hin as [|[|]]; by simplify_eq.
Qed.

(** The events of the loop of the codes: prompts, lines read and
    validations. *)
Lemma mfa_events (E : Env) (account : option Account) (i n : nat) :
  Forall (λ e, ∀ g, e ≠ EGo g) (mfa E account i n).2.
Proof.
  revert i. induction n as [|n IH]; intros i; cbn [mfa]; [constructor|].
  destruct (ReadLine E i) as [line|err]; [|by repeat constructor].
  destruct account as [a|]; [|by repeat constructor].
  destruct (Validate E i line (TOTP a)); [by repeat constructor|].
  specialize (IH (S i)). destruct (mfa E (Some a) (S i) n) as [valid t']. simpl in *.
  by repeat constructor.
Qed.

(** The loop of the codes of a session. *)
Lemma mfa_session (E : Env) (s : SSHSession) :
  ((mfa E (deref s) 0 3).1 = Some true ↔
   ∃ a k, deref s = Some a ∧ (k < 3)%nat ∧ passes E (TOTP a) k) ∧
  ((mfa E (deref s) 0 3).1 = None ↔ deref s = None ∧ ∃ line, ReadLine E 0 = Ok line) ∧
  (length (filter (λ e, attempt e = true) (mfa E (deref s) 0 3).2) ≤ 3)%nat ∧
  Forall (λ e, shell_start e = false) (mfa E (deref s) 0 3).2 ∧
  (∀ passcode secret ok,
     EValidate passcode secret ok ∈ (mfa E (deref s) 0 3).2 →
     ∃ a, deref s = Some a ∧ secret = TOTP a).
Proof.
  destruct (deref s) as [a|].
  - destruct (mfa_spec E a 0 3) as (H0 & H1 & H2 & H3 & H4).
    split; [|split; [|split; [done|split; [done|]]]].
    + rewrite H1. unfold passes. simpl. split.
      * intros (k & ? & ? & ?). by exists a, k.
      * intros (a' & k & [= <-] & ? & ? & ?). by exists k.
    + split; [done|]. by intros [? _].
    + intros passcode secret ok Hin. exists a. split; [done|]. by eapply H4.
  - destruct (mfa_nil E 3) as (H0 & H1 & H2 & H3 & H4).
    split; [|split; [|split; [lia|split; [done|]]]].
    + split; [done|]. by intros (? & ? & ? & _).
    + rewrite H1. split; [intros [_ ?]; done|]. intros [_ ?]. split; [lia|done].
    + intros passcode secret ok Hin. by apply H4 in Hin.
Qed.

(** The handler, path by path: the channel is refused for its type; or it
    cannot be accepted; or it is accepted, greeted and asked for codes, after
    which the handler panics on the account that is not there, closes the
    connection, starts the goroutines on the shell it has started, or panics in
    the teardown of the shell that did not start. *)
Lemma handleChannel_cases (E : Env) (newChannel : NewChannel) (s : SSHSession) :
  (ChannelType newChannel ≠ "session" ∧
   handleChannel E newChannel s =
     (Done, [EReject Forward.UnknownChannelType
               ("unknown channel type: " +:+ ChannelType newChannel)]))
  ∨ (ChannelType newChannel = "session" ∧ ∃ err,
       Accept E = Err err ∧
       handleChannel E newChannel s =
         (Done, [EAccept (Err err); ELog "warn" "Could not accept channel"]))
  ∨ (ChannelType newChannel = "session" ∧ ∃ connection r tail,
       Accept E = Ok connection ∧
       handleChannel E newChannel s =
         (r, [EAccept (Ok connection);
              ETermWrite ("Session " +:+ UUID s +:+ " opened" +:+ CRLF);
              ETermWrite (MOTD (Config_ s) +:+ CRLF)] ++
             (mfa E (deref s) 0 3).2 ++ tail) ∧
       (((mfa E (deref s) 0 3).1 = None ∧ r = Panic ∧ tail = [])
        ∨ ((mfa E (deref s) 0 3).1 = Some false ∧ r = Done ∧ tail = [EConnClose])
        ∨ ((mfa E (deref s) 0 3).1 = Some true ∧ ∃ a, deref s = Some a ∧
           ((∃ bashf, PtyStart E (Shell_ a) = Ok bashf ∧ r = Done ∧
               tail = [ELog "info" "shell created"; EPtyStart (Shell_ a) (Ok bashf);
                       EGo (CopyIn connection bashf); EGo (CopyOut connection bashf);
                       EGo (Requests bashf)])
            ∨ (∃ err, PtyStart E (Shell_ a) = Err err ∧ r = Panic ∧
                 tail = [ELog "info" "shell created"; EPtyStart (Shell_ a) (Err err);
                         ELog "warn" "could not start pty"; EConnClose]))))).
Proof.
  unfold handleChannel. case_decide as Htype; [by left|right].
  assert (ChannelType newChannel = "session") as Hsession
    by by destruct (decide (ChannelType newChannel = "session")).
  destruct (Accept E) as [connection|err]; [right|left; split; [done|by exists err]].
  split; [done|]. exists connection.
  destruct (mfa_session E s) as (Htrue & _).
  destruct (mfa E (deref s) 0 3) as [[[]|] t]; cbn [fst snd] in *.
  - destruct (proj1 Htrue eq_refl) as (a & k & Ha & _). rewrite Ha.
    destruct (PtyStart E (Shell_ a)) as [bashf|err] eqn:Hpty.
    + eexists Done, _. split; [done|]. split; [reflexivity|].
      right. right. split; [done|]. exists a. split; [done|]. left. by exists bashf.
    + eexists Panic, _. split; [done|]. split; [reflexivity|].
      right. right. split; [done|]. exists a. split; [done|]. right. by exists err.
  - eexists Done, _. split; [done|]. split; [reflexivity|]. right. left. done.
  - eexists Panic, []. split; [done|]. split; [by rewrite app_nil_r|]. by left.
Qed.

(** The shell is behind the codes.  The handler asks for the shell of the
    account of the session exactly when the channel is a [session] channel that
    could be accepted, the session has an account, and one of the first three
    codes validates against the secret of that account, every code before it
    having been read and refused; the goroutine that serves the requests of the
    channel runs on a shell exactly when, on top of that, this shell has
    started.  The handler reads at most three codes, and every code it has
    validated was checked against the secret of the account of the session.  It
    panics exactly when a code is read for a session without account, or when
    the codes pass and the shell does not start: the teardown then waits for a
    process that is not there. *)
Theorem shell_behind_mfa (E : Env) (newChannel : NewChannel) (s : SSHSession) :
  (Exists (λ e, shell_start e = true) (handleChannel E newChannel s).2 ↔
   ChannelType newChannel = "session" ∧
   (∃ connection, Accept E = Ok connection) ∧
   ∃ a k, deref s = Some a ∧ (k < 3)%nat ∧ passes E (TOTP a) k) ∧
  (∀ bashf,
     EGo (Requests bashf) ∈ (handleChannel E newChannel s).2 ↔
     ChannelType newChannel = "session" ∧
     (∃ connection, Accept E = Ok connection) ∧
     ∃ a k, deref s = Some a ∧ (k < 3)%nat ∧ passes E (TOTP a) k ∧
            PtyStart E (Shell_ a) = Ok bashf) ∧
  (length (filter (λ e, attempt e = true) (handleChannel E newChannel s).2) ≤ 3)%nat ∧
  (∀ passcode secret ok,
     EValidate passcode secret ok ∈ (handleChannel E newChannel s).2 →
     ∃ a, deref s = Some a ∧ secret = TOTP a) ∧
  (∀ shell r,
     EPtyStart shell r ∈ (handleChannel E newChannel s).2 →
     ∃ a, deref s = Some a ∧ shell = Shell_ a ∧ r = PtyStart E (Shell_ a)) ∧
  ((handleChannel E newChannel s).1 = Panic ↔
   ChannelType newChannel = "session" ∧
   (∃ connection, Accept E = Ok connection) ∧
   ((deref s = None ∧ ∃ line, ReadLine E 0 = Ok line) ∨
    ∃ a k err, deref s = Some a ∧ (k < 3)%nat ∧ passes E (TOTP a) k ∧
               PtyStart E (Shell_ a) = Err err)) ∧
  (handleChannel E newChannel s).1 ≠ Exit.
Proof.
  destruct (handleChannel_cases E newChannel s)
    as [[Htype ->]|[(Htype & err & Haccept & ->)
       |(Htype & connection & r & tail & Haccept & -> & Hcases)]]; cbn [fst snd].
  - split; [|split; [|split; [simpl; lia|split; [|split; [|split; [|done]]]]]].
    + split; [|by intros [? _]]. intros H. apply Exists_cons in H as [|H]; [done|].
      by apply Exists_nil in H.
    + intros bashf. rewrite elem_of_cons, elem_of_nil. split; [by intros [|]|by intros [? _]].
    + intros ? ? ?. rewrite elem_of_cons, elem_of_nil. by intros [|].
    + intros ? ?. rewrite elem_of_cons, elem_of_nil. by intros [|].
    + split; [done|]. by intros [? _].
  - split; [|split; [|split; [simpl; lia|split; [|split; [|split; [|done]]]]]].
    + split; [|intros (_ & [? ?] & _); congruence].
      intros H. repeat (apply Exists_cons in H as [|H]; [done|]). by apply Exists_nil in H.
    + intros bashf. rewrite !elem_of_cons, elem_of_nil.
      split; [by intros [|[|]]|intros (_ & [? ?] & _); congruence].
    + intros ? ? ?. rewrite !elem_of_cons, elem_of_nil. by intros [|[|]].
    + intros ? ?. rewrite !elem_of_cons, elem_of_nil. by intros [|[|]].
    + split; [done|]. intros (_ & [? ?] & _). congruence.
  - destruct (mfa_session E s) as (Htrue & Hnone & Hlen & Hshell & Hsecret).
    pose proof (mfa_events E (deref s) 0 3) as Hgo.
    rewrite Forall_forall in Hshell, Hgo.
    assert (∃ connection, Accept E = Ok connection) as Hacc by by exists connection.
    set (m := mfa E (deref s) 0 3) in *.
    destruct Hcases as [(Hm & -> & ->)|[(Hm & -> & ->)
                       |(Hm & a & Ha & [(bashf & Hpty & -> & ->)|(err & Hpty & -> & ->)])]];
      cbn [app].
    + (* no account, a code was read *)
      destruct (proj1 Hnone Hm) as [Hderef Hline].
      split; [|split; [|split; [|split; [|split; [|split; [|done]]]]]].
      * split; [|intros (_ & _ & ? & ? & ? & _); congruence].
        intros H. repeat (apply Exists_cons in H as [|H]; [done|]).
        rewrite app_nil_r in H. apply Exists_exists in H as (e & Hin & He).
        rewrite (Hshell e Hin) in He. done.
      * intros bashf. split; [|intros (_ & _ & ? & ? & ? & _); congruence].
        rewrite app_nil_r, !elem_of_cons. intros [|[|[|Hin]]]; try done.
        by destruct (Hgo _ Hin (Requests bashf)).
      * rewrite app_nil_r. rewrite !filter_cons_False by done. done.
      * intros ? ? ?. rewrite app_nil_r, !elem_of_cons. intros [|[|[|Hin]]]; try done.
        by eapply Hsecret.
      * intros ? ?. rewrite app_nil_r, !elem_of_cons. intros [|[|[|Hin]]]; try done.
        by specialize (Hshell _ Hin).
      * split; [|done]. intros _. split; [done|]. split; [done|]. by left.
    + (* the codes did not pass *)
      split; [|split; [|split; [|split; [|split; [|split; [|done]]]]]].
      * split.
        -- intros H. repeat (apply Exists_cons in H as [|H]; [done|]).
           apply Exists_app in H as [H|H].
           ++ apply Exists_exists in H as (e & Hin & He). rewrite (Hshell e Hin) in He. done.
           ++ apply Exists_cons in H as [|H]; [done|]. by apply Exists_nil in H.
        -- intros (_ & _ & Hp). apply Htrue in Hp. congruence.
      * intros bashf. split.
        -- rewrite !elem_of_cons, elem_of_app, elem_of_cons, elem_of_nil.
           intros [|[|[|[Hin|[|]]]]]; try done. by destruct (Hgo _ Hin (Requests bashf)).
        -- intros (_ & _ & a & k & ? & ? & ? & _).
           assert (m.1 = Some true) by (apply Htrue; by exists a, k). congruence.
      * rewrite !filter_cons_False by done. rewrite filter_app.
        rewrite filter_cons_False by done. rewrite filter_nil, app_nil_r. done.
      * intros ? ? ?. rewrite !elem_of_cons, elem_of_app, elem_of_cons, elem_of_nil.
        intros [|[|[|[Hin|[|]]]]]; try done. by eapply Hsecret.
      * intros ? ?. rewrite !elem_of_cons, elem_of_app, elem_of_cons, elem_of_nil.
        intros [|[|[|[Hin|[|]]]]]; try done. by specialize (Hshell _ Hin).
      * split; [done|]. intros (_ & _ & [[Hd ?]|(a & k & e & ? & ? & ? & _)]).
        -- assert (m.1 = None) by by apply Hnone. congruence.
        -- assert (m.1 = Some true) by (apply Htrue; by exists a, k). congruence.
    + (* the codes passed and the shell has started *)
      destruct (proj1 Htrue Hm) as (a' & k & Ha' & Hk & Hp).
      assert (a' = a) as -> by congruence.
      split; [|split; [|split; [|split; [|split; [|split; [|done]]]]]].
      * split; [|intros _; rewrite !Exists_cons, Exists_app, !Exists_cons; auto 10].
        intros _. split; [done|]. split; [done|]. by exists a, k.
      * intros bashf'. rewrite !elem_of_cons, elem_of_app, !elem_of_cons, elem_of_nil. split.
        -- intros [|[|[|[Hin|[|[|[|[|[Heq|]]]]]]]]]; try done.
           ++ by destruct (Hgo _ Hin (Requests bashf')).
           ++ simplify_eq. split; [done|]. split; [done|]. by exists a, k.
        -- intros (_ & _ & a' & k' & Ha'' & _ & _ & Hpty').
           assert (a' = a) as -> by congruence.
           assert (bashf' = bashf) as -> by congruence. auto 12.
      * rewrite !filter_cons_False by done. rewrite filter_app.
        rewrite !filter_cons_False by done. rewrite filter_nil, app_nil_r. done.
      * intros ? ? ?. rewrite !elem_of_cons, elem_of_app, !elem_of_cons, elem_of_nil.
        intros [|[|[|[Hin|[|[|[|[|[|]]]]]]]]]; try done. by eapply Hsecret.
      * intros ? ?. rewrite !elem_of_cons, elem_of_app, !elem_of_cons, elem_of_nil.
        intros [|[|[|[Hin|[|[Heq|[|[|[|]]]]]]]]]; try done.
        -- by specialize (Hshell _ Hin).
        -- simplify_eq. exists a. by rewrite Hpty.
      * split; [done|]. intros (_ & _ & [[Hd ?]|(a' & k' & e & Ha'' & _ & _ & Hpty')]); [congruence|].
        assert (a' = a) as -> by congruence. congruence.
    + (* the codes passed and the shell did not start *)
      destruct (proj1 Htrue Hm) as (a' & k & Ha' & Hk & Hp).
      assert (a' = a) as -> by congruence.
      split; [|split; [|split; [|split; [|split; [|split; [|done]]]]]].
      * split; [|intros _; rewrite !Exists_cons, Exists_app, !Exists_cons; auto 10].
        intros _. split; [done|]. split; [done|]. by exists a, k.
      * intros bashf'. rewrite !elem_of_cons, elem_of_app, !elem_of_cons, elem_of_nil. split.
        -- intros [|[|[|[Hin|[|[|[|[|]]]]]]]]; try done.
           by destruct (Hgo _ Hin (Requests bashf')).
        -- intros (_ & _ & a' & k' & Ha'' & _ & _ & Hpty').
           assert (a' = a) as -> by congruence. congruence.
      * rewrite !filter_cons_False by done. rewrite filter_app.
        rewrite !filter_cons_False by done. rewrite filter_nil, app_nil_r. done.
      * intros ? ? ?. rewrite !elem_of_cons, elem_of_app, !elem_of_cons, elem_of_nil.
        intros [|[|[|[Hin|[|[|[|[|]]]]]]]]; try done. by eapply Hsecret.
      * intros ? ?. rewrite !elem_of_cons, elem_of_app, !elem_of_cons, elem_of_nil.
        intros [|[|[|[Hin|[|[Heq|[|[|]]]]]]]]; try done.
        -- by specialize (Hshell _ Hin).
        -- simplify_eq. exists a. by rewrite Hpty.
      * split; [|done]. intros _. split; [done|]. split; [done|]. right. by exists a, k, err.
Qed.

End ShellSessionFacts.

(** ** The requests of a shell channel *)

Section RequestFacts.

Import Shell ShellSession Sample.

Lemma Uint32_putUint32 (n : N) (rest : list byte) :
  (n < 2 ^ 32)%N → Uint32 (putUint32 n ++ rest) = Some n.
Proof.
  intros Hn. pose proof (parseUint32_putUint32 n rest Hn) as Hp.
  unfold Forward.parseUint32 in Hp. unfold Uint32.
  destruct (putUint32 n ++ rest) as [|b0 [|b1 [|b2 [|b3 l]]]]; try done.
  by simplify_eq.
Qed.

Lemma Uint32_None (b : list byte) : Uint32 b = None ↔ (length b < 4)%nat.
Proof.
  destruct b as [|b0 [|b1 [|b2 [|b3 l]]]]; simpl; split; intros; try done; lia.
Qed.

Lemma parseDims_round_trip (w h : N) (rest : list byte) :
  (w < 2 ^ 32)%N → (h < 2 ^ 32)%N →
  parseDims (putUint32 w ++ putUint32 h ++ rest) = Some (w, h).
Proof.
  intros Hw Hh. unfold parseDims. rewrite Uint32_putUint32 by done.
  rewrite decide_False by (rewrite length_app, length_putUint32; lia).
  rewrite drop_app_length' by done. by rewrite Uint32_putUint32.
Qed.

Lemma parseDims_None (b : list byte) : parseDims b = None ↔ (length b < 8)%nat.
Proof.
  unfold parseDims. destruct (Uint32 b) as [w|] eqn:Hw; simpl.
  - assert (¬ (length b < 4)%nat) as Hlen by (rewrite <- Uint32_None; congruence).
    case_decide; [done|]. destruct (Uint32 (drop 4 b)) as [h|] eqn:Hh; simpl.
    + assert (¬ (length (drop 4 b) < 4)%nat) as Hlen' by (rewrite <- Uint32_None; congruence).
      rewrite length_drop in Hlen'. split; [done|lia].
    + apply Uint32_None in Hh. rewrite length_drop in Hh. split; [lia|done].
  - apply Uint32_None in Hw. split; [lia|done].
Qed.

(** The size of the terminal comes from the request, cut to sixteen bits.  A
    [pty-req] whose terminal name is shorter than 252 bytes sets the window of
    the shell to the columns and the rows that follow the name, modulo 65536,
    and is answered with success; a [window-change] sets the window to its
    columns and rows, modulo 65536, and is not answered. *)
Theorem window_size_from_request (bashf : File) (wantReply : bool) (term : string)
    (cols rows : N) (rest : list byte) :
  (String.length term < 252)%nat →
  (cols < 2 ^ 32)%N →
  (rows < 2 ^ 32)%N →
  serve bashf {| Type_ := "pty-req"; WantReply := wantReply;
                 Payload := pty_req_data term cols rows rest |} =
    (Done, [ESetWinsize bashf {| Height := rows `mod` 65536; Width := cols `mod` 65536;
                                 x := 0; y := 0 |}%N;
            EReply true]) ∧
  serve bashf {| Type_ := "window-change"; WantReply := wantReply;
                 Payload := window_change_data cols rows rest |} =
    (Done, [ESetWinsize bashf {| Height := rows `mod` 65536; Width := cols `mod` 65536;
                                 x := 0; y := 0 |}%N]).
Proof.
  intros Hterm Hcols Hrows. split.
  - unfold serve. cbn [Type_ Payload].
    rewrite (decide_False (P := "pty-req" = "shell")) by done.
    rewrite (decide_True (P := "pty-req" = "pty-req")) by done.
    unfold pty_req_data, putString.
    rewrite <- !app_assoc.
    assert (putUint32 (N.of_nat (String.length term)) !! 3 =
            Some (default "000"%byte (Byte.of_N (N.of_nat (String.length term))))) as H3.
    { unfold putUint32. simpl. change (256 ^ 0)%N with 1%N.
      rewrite N.div_1_r, N.mod_small by lia. done. }
    rewrite lookup_app_l by (rewrite length_putUint32; lia). rewrite H3.
    rewrite byte_of_N_to_N by lia. rewrite N.mod_small by lia.
    replace (N.to_nat (N.of_nat (String.length term) + 4))
      with (4 + String.length term)%nat by lia.
    case_decide as Hlen.
    { rewrite !length_app, length_putUint32, length_list_byte_of_string in Hlen. lia. }
    rewrite <- drop_drop. rewrite drop_app_length' by done.
    rewrite drop_app_length' by (symmetry; apply length_list_byte_of_string).
    by rewrite parseDims_round_trip.
  - unfold serve, window_change_data. cbn [Type_ Payload].
    rewrite (decide_False (P := "window-change" = "shell")) by done.
    rewrite (decide_False (P := "window-change" = "pty-req")) by done.
    rewrite (decide_True (P := "window-change" = "window-change")) by done.
    by rewrite parseDims_round_trip.
Qed.

(** What makes the loop of the requests panic: a [pty-req] that has no
    fourth byte, or fewer than eight bytes from the offset that its fourth
    byte plus four gives in eight bits; and a [window-change] of fewer than
    eight bytes.  No other request does. *)
Theorem serve_panics_iff (bashf : File) (req : Request) :
  ((serve bashf req).1 = Panic ↔
   (Type_ req = "pty-req" ∧
    ∀ termLen, Payload req !! 3 = Some termLen →
      (length (Payload req) < N.to_nat ((Byte.to_N termLen + 4) `mod` 256) + 8)%nat) ∨
   (Type_ req = "window-change" ∧ (length (Payload req) < 8)%nat)) ∧
  (serve bashf req).1 ≠ Exit.
Proof.
  unfold serve. case_decide as Hshell.
  { split; [|by case_decide]. split; [by case_decide|].
    rewrite Hshell. by intros [[? _]|[? _]]. }
  case_decide as Hpty.
  { destruct (Payload req !! 3) as [termLen|] eqn:H3; simpl.
    - case_decide as Hlen; simpl.
      + split; [|done]. split; [|done]. intros _. left. split; [done|].
        intros ? [= <-]. lia.
      + pose proof (parseDims_None
                      (drop (N.to_nat ((Byte.to_N termLen + 4) `mod` 256)) (Payload req)))
          as Hnone.
        rewrite length_drop in Hnone.
        destruct (parseDims _) as [[w h]|]; simpl.
        * split; [|done]. split; [done|]. intros [[_ Hshort]|[Hw _]].
          -- specialize (Hshort _ eq_refl).
             assert (Some (w, h) = None) by (apply Hnone; lia). done.
          -- rewrite Hpty in Hw. done.
        * split; [|done]. split; [|done]. intros _. left. split; [done|].
          intros ? [= <-]. assert (@None (N * N) = None) as Hs%Hnone by done. lia.
    - split; [|done]. split; [|done]. intros _. left. split; [done|]. by intros ? ?. }
  case_decide as Hwin.
  { pose proof (parseDims_None (Payload req)) as Hnone.
    destruct (parseDims (Payload req)) as [[w h]|]; simpl.
    - split; [|done]. split; [done|]. intros [[? _]|[_ Hshort]]; [done|].
      assert (Some (w, h) = None) by by apply Hnone. done.
    - split; [|done]. split; [|done]. intros _. right. split; [done|]. by apply Hnone. }
  split; [|done]. split; [done|]. by intros [[? _]|[? _]].
Qed.

Lemma serve_replies (bashf : File) (req : Request) :
  Forall (λ e, e ≠ EReply false) (serve bashf req).2 ∧
  (length (filter (λ e, reply e = true) (serve bashf req).2) ≤ 1)%nat ∧
  (Exists (λ e, reply e = true) (serve bashf req).2 →
   (Type_ req = "shell" ∧ Payload req = []) ∨ Type_ req = "pty-req").
Proof.
  unfold serve. case_decide as Hshell.
  { case_decide as Hlen; simpl.
    - split; [by repeat constructor|]. split; [done|]. intros _. left.
      split; [done|]. by destruct (Payload req).
    - split; [constructor|]. split; [simpl; lia|]. by intros ?%Exists_nil. }
  case_decide as Hpty.
  { assert (∀ r : ending * list Event,
              r = (Panic, []) ∨ (∃ w h, r = (Done, [SetWinsize bashf w h; EReply true])) →
              Forall (λ e, e ≠ EReply false) r.2 ∧
              (length (filter (λ e, reply e = true) r.2) ≤ 1)%nat ∧
              (Exists (λ e, reply e = true) r.2 →
               (Type_ req = "shell" ∧ Payload req = []) ∨ Type_ req = "pty-req"))
      as Hcases.
    { intros r [->|(w & h & ->)]; simpl.
      - split; [constructor|]. split; [lia|]. by intros ?%Exists_nil.
      - split; [by repeat constructor|]. split; [lia|by right]. }
    apply Hcases. destruct (Payload req !! 3); [|by left].
    case_decide; [by left|]. destruct (parseDims _) as [[w h]|]; [|by left].
    right. by exists w, h. }
  case_decide as Hwin.
  { destruct (parseDims (Payload req)) as [[w h]|]; simpl.
    - split; [by repeat constructor|]. split.
      + lia.
      + intros H. apply Exists_cons in H as [|H]; [done|]. by apply Exists_nil in H.
    - split; [constructor|]. split; [lia|]. by intros ?%Exists_nil. }
  simpl. split; [constructor|]. split; [lia|]. by intros ?%Exists_nil.
Qed.

(** The loop of the requests never refuses a request: every answer it sends
    is a success, it sends at most one answer for each request, and only for
    a [shell] request without command and for a [pty-req].  A [shell] request
    with a command, an [exec], an [env], a [subsystem] request is left without
    answer, whether it asked for one or not. *)
Theorem requests_never_refused (bashf : File) (requests : list Request) :
  Forall (λ e, e ≠ EReply false) (range_requests bashf requests).2 ∧
  (length (filter (λ e, reply e = true) (range_requests bashf requests).2)
   ≤ length (filter (λ req, (Type_ req = "shell" ∧ Payload req = []) ∨
                            Type_ req = "pty-req") requests))%nat.
Proof.
  induction requests as [|req requests [IH1 IH2]]; simpl; [split; [constructor|lia]|].
  destruct (serve_replies bashf req) as (H1 & H2 & H3).
  assert ((length (filter (λ e, reply e = true) (serve bashf req).2)
           ≤ length (filter (λ req, (Type_ req = "shell" ∧ Payload req = []) ∨
                                    Type_ req = "pty-req") [req]))%nat) as H4.
  { destruct (decide ((Type_ req = "shell" ∧ Payload req = []) ∨ Type_ req = "pty-req"))
      as [Hyes|Hno].
    - by rewrite filter_cons_True by done.
    - rewrite filter_cons_False by done.
      destruct (filter (λ e, reply e = true) (serve bashf req).2) as [|e l] eqn:Hf; [done|].
      exfalso. apply Hno, H3. apply Exists_exists. exists e.
      assert (e ∈ filter (λ e, reply e = true) (serve bashf req).2) as Hin
        by (rewrite Hf; apply list_elem_of_here).
      apply list_elem_of_filter in Hin as [? ?]. done. }
  change (req :: requests) with ([req] ++ requests). rewrite filter_app, length_app.
  destruct (serve bashf req) as [[] t]; simpl in *.
  - destruct (range_requests bashf requests) as [r t']. simpl in *.
    split; [by apply Forall_app|]. rewrite filter_app, length_app. lia.
  - split; [done|]. lia.
  - split; [done|]. lia.
Qed.

(** A request that makes the loop panic is the last one served. *)
Theorem panic_ends_requests (bashf : File) (before after : list Request)
    (req : Request) :
  Forall (λ req, (serve bashf req).1 = Done) before →
  (serve bashf req).1 = Panic →
  (range_requests bashf before).1 = Done ∧
  range_requests bashf (before ++ req :: after) =
    (Panic, (range_requests bashf before).2 ++ (serve bashf req).2).
Proof.
  intros Hbefore Hreq. induction before as [|req' before IH]; simpl.
  - split; [done|]. destruct (serve bashf req) as [[] t]; simplify_eq/=. done.
  - apply Forall_cons in Hbefore as [Hreq' Hbefore]. destruct (IH Hbefore) as [IH1 IH2].
    rewrite IH2. destruct (serve bashf req') as [[] t]; simplify_eq/=.
    destruct (range_requests bashf before) as [r t']. simpl in *.
    split; [done|]. by rewrite app_assoc.
Qed.

End RequestFacts.

(** ** The copy loops and the accept loop of the shell variant *)

Section LoopFacts.

Import Shell ShellSession.

Lemma copy_out_written (recording : option File) (reads : list (list byte * option error)) :
  (copy_out recording reads).2 ≫= written ToClient = until_EOF reads ≫= fst ∧
  (∀ file, recording = Some file →
     (copy_out recording reads).2 ≫= written (ToRecording file) = until_EOF reads ≫= fst) ∧
  ((copy_out recording reads).1 = true ↔ Exists (λ r, r.2 = Some io_EOF) reads) ∧
  (EOnceDo ∈ (copy_out recording reads).2 ↔ (copy_out recording reads).1 = true).
Proof.
  induction reads as [|[data err] reads (IH1 & IH2 & IH3 & IH4)]; cbn [copy_out until_EOF].
  { simpl. split; [done|]. split; [done|]. split.
    - split; [done|]. by intros ?%Exists_nil.
    - split; [by intros ?%elem_of_nil|done]. }
  destruct (decide (err = Some io_EOF)) as [Heof|Heof].
  - cbn [fst snd]. split; [|split; [|split]].
    + destruct recording; simpl; by rewrite ?app_nil_r.
    + intros file ->. simpl. rewrite decide_True by done. by rewrite ?app_nil_r.
    + split; [|done]. intros _. by apply Exists_cons_hd.
    + split; [done|]. intros _. apply elem_of_app. right. apply list_elem_of_here.
  - destruct (copy_out recording reads) as [over t']. cbn [fst snd] in *.
    split; [|split; [|split]].
    + rewrite !bind_cons, !bind_app, IH1. cbn [fst].
      destruct recording; simpl; by rewrite ?app_nil_r.
    + intros file ->. rewrite !bind_cons, !bind_app, (IH2 file eq_refl). simpl.
      rewrite decide_True by done. by rewrite ?app_nil_r.
    + rewrite IH3, Exists_cons. simpl. clear -Heof. intuition congruence.
    + rewrite <- IH4. rewrite elem_of_app. split; [|auto].
      intros [Hin|Hin]; [|done].
      destruct recording; rewrite !elem_of_cons, elem_of_nil in Hin;
        clear -Hin; intuition discriminate.
Qed.

(** The recording holds what the client was sent.  The goroutine that copies
    the output of the shell writes to the client the bytes of every read up to
    the first read that returns [io.EOF], that read included, and to the
    recording file, when the session has one, the same bytes in the same order;
    it comes to the teardown exactly when a read has returned [io.EOF], so that
    a read that fails with another error is followed by the next read. *)
Theorem recording_mirrors_output (file : File) (reads : list (list byte * option error)) :
  (copy_out (Some file) reads).2 ≫= written (ToRecording file) =
    (copy_out (Some file) reads).2 ≫= written ToClient ∧
  (copy_out (Some file) reads).2 ≫= written ToClient = until_EOF reads ≫= fst ∧
  (copy_out None reads).2 ≫= written ToClient = until_EOF reads ≫= fst ∧
  (∀ recording,
     ((copy_out recording reads).1 = true ↔ Exists (λ r, r.2 = Some io_EOF) reads) ∧
     (EOnceDo ∈ (copy_out recording reads).2 ↔ (copy_out recording reads).1 = true)).
Proof.
  destruct (copy_out_written (Some file) reads) as (H1 & H2 & _).
  destruct (copy_out_written None reads) as (H3 & _).
  split; [by rewrite H1, (H2 file eq_refl)|]. split; [done|]. split; [done|].
  intros recording. by destruct (copy_out_written recording reads) as (_ & _ & ? & ?).
Qed.

(** The goroutine that copies the input of the client hands the shell the
    bytes of every read up to the first that returns [io.EOF], and comes to the
    teardown exactly when one has. *)
Theorem input_reaches_shell (reads : list (list byte * option error)) :
  (copy_in reads).2 ≫= written ToShell = until_EOF reads ≫= fst ∧
  ((copy_in reads).1 = true ↔ Exists (λ r, r.2 = Some io_EOF) reads) ∧
  (EOnceDo ∈ (copy_in reads).2 ↔ (copy_in reads).1 = true).
Proof.
  induction reads as [|[data err] reads (IH1 & IH2 & IH3)]; cbn [copy_in until_EOF].
  { simpl. split; [done|]. split.
    - split; [done|]. by intros ?%Exists_nil.
    - split; [by intros ?%elem_of_nil|done]. }
  destruct (decide (err = Some io_EOF)) as [Heof|Heof].
  - cbn [fst snd]. split; [|split].
    + simpl. by rewrite ?app_nil_r.
    + split; [|done]. intros _. by apply Exists_cons_hd.
    + split; [done|]. intros _. rewrite !elem_of_cons. auto.
  - destruct (copy_in reads) as [over t']. cbn [fst snd] in *.
    rewrite !bind_cons. cbn [fst]. split; [|split].
    + by rewrite IH1.
    + rewrite IH2, Exists_cons. simpl. clear -Heof. intuition congruence.
    + rewrite <- IH3. rewrite elem_of_cons. split; [|auto]. by intros [|].
Qed.

Lemma accept_loop_app (config : Config) (s : SSHDState) (before after : list Incoming) :
  Forall (λ c, ∀ err, c ≠ HandshakeFails err) before →
  accept_loop config s (before ++ after) =
    ((accept_loop config s after).1,
     (accept_loop config s before).2 ++ (accept_loop config s after).2) ∧
  (accept_loop config s before).1 = Done ∧
  omap started (accept_loop config s before).2 = sessions_of config s before.
Proof.
  intros Hbefore. induction before as [|c before IH]; simpl.
  { split; [by destruct (accept_loop config s after)|done]. }
  apply Forall_cons in Hbefore as [Hc Hbefore].
  destruct (IH Hbefore) as (IH1 & IH2 & IH3). rewrite IH1.
  destruct c as [err|err|conn id create]; [|by destruct (Hc err)|].
  - destruct (accept_loop config s before) as [r t]. simpl in *. done.
  - destruct (accept_loop config s before) as [r t]. simpl in *.
    split; [by rewrite <- !app_assoc|]. split; [done|].
    unfold sessions_of in *. rewrite omap_app. cbn [omap]. rewrite <- IH3.
    destruct create; by simpl.
Qed.

(** A handshake that fails ends the daemon.  As long as every handshake
    goes well the accept loop goes on and starts one session for each
    connection, the account of the session being the entry of its user in the
    map of accounts; the first handshake that fails makes [Run] panic, on the
    nil connection it asks for its user, before anything of that failure is
    logged, and the connections that come after it are not served. *)
Theorem failed_handshake_ends_Run (config : Config) (s : SSHDState)
    (before : list Incoming) :
  Forall (λ c, ∀ err, c ≠ HandshakeFails err) before →
  (Run config None None None s before).1 = Done ∧
  omap started (Run config None None None s before).2 = sessions_of config s before ∧
  Forall (λ session, Account_ session = accounts s !! User (Conn session))
    (sessions_of config s before) ∧
  ∀ err after,
    Run config None None None s (before ++ HandshakeFails err :: after) =
      (Panic, (Run config None None None s before).2).
Proof.
  intros Hbefore. unfold Run.
  destruct (accept_loop_app config s before [] Hbefore) as (_ & H1 & H2).
  split; [|split; [|split]].
  - by destruct (accept_loop config s before).
  - destruct (accept_loop config s before) as [r t]. simpl in *. done.
  - clear. unfold sessions_of. induction before as [|[| |] before IH]; simpl;
      [constructor|done|done|]. by constructor.
  - intros err after.
    destruct (accept_loop_app config s before (HandshakeFails err :: after) Hbefore)
      as (Happ & _). rewrite Happ. simpl. rewrite app_nil_r.
    by destruct (accept_loop config s before).
Qed.

End LoopFacts.

(** ** The client of the HTTP API *)

Section APIFacts.

Import API.

Lemma Split_cons (s : string) : ∃ piece pieces, Split s = piece :: pieces.
Proof.
  induction s as [|c s (piece & pieces & IH)]; cbn [Split]; [by eexists _, _|].
  case_decide; [by eexists _, _|]. rewrite IH. by eexists _, _.
Qed.

Lemma Split_no_space (s : string) : Ascii.Space ∉ chars s → Split s = [s].
Proof.
  induction s as [|c s IH]; cbn [Split chars]; [done|].
  intros [Hc Hs]%not_elem_of_cons.
  destruct (decide (c = Ascii.Space)) as [->|_]; [done|]. by rewrite IH.
Qed.

Lemma Split_space (piece rest : string) :
  Ascii.Space ∉ chars piece →
  Split (piece +:+ String Ascii.Space rest) = piece :: Split rest.
Proof.
  induction piece as [|c piece IH].
  - intros _. change ("" +:+ String Ascii.Space rest) with (String Ascii.Space rest).
    cbn [Split]. by destruct (decide (Ascii.Space = Ascii.Space)).
  - cbn [chars]. intros [Hc Hs]%not_elem_of_cons.
    change (String c piece +:+ String Ascii.Space rest)
      with (String c (piece +:+ String Ascii.Space rest)).
    cbn [Split]. destruct (decide (c = Ascii.Space)) as [->|_]; [done|]. by rewrite IH.
Qed.

(** The first piece of a string holds no space, and the string is that piece
    alone or that piece, a space and the string of the other pieces. *)
Lemma Split_first (s piece : string) (pieces : list string) :
  Split s = piece :: pieces →
  (Ascii.Space ∉ chars piece) ∧
  (pieces = [] ∧ s = piece ∨
   ∃ rest, s = piece +:+ String Ascii.Space rest ∧ Split rest = pieces).
Proof.
  revert piece pieces. induction s as [|c s IH]; intros piece pieces; cbn [Split].
  - intros [= <- <-]. split; [by intros ?%elem_of_nil|by left].
  - case_decide as Hc.
    + intros [= <- <-]. split; [by intros ?%elem_of_nil|]. right. exists s. by subst.
    + destruct (Split_cons s) as (piece' & pieces' & Hs). rewrite Hs.
      intros [= <- <-]. destruct (IH _ _ Hs) as [Hno Hcases]. split.
      * cbn [chars]. apply not_elem_of_cons. split; [congruence|done].
      * destruct Hcases as [[-> ->]|(rest & -> & Hrest)]; [by left|].
        right. by exists rest.
Qed.

(** Where the connection of the client is read from.  The call fails exactly
    when [SSH_CLIENT] holds no space, an unset variable included; otherwise
    the host is the text before the first space and the port the text between
    the first space and the second, or the end; neither is checked any
    further. *)
Theorem ssh_client_connection (E : Env) :
  (GetSSHClientConnection E = Err InvalidSSHClientInformation ↔
   Ascii.Space ∉ chars (Getenv E "SSH_CLIENT")) ∧
  (∀ err, GetSSHClientConnection E = Err err → err = InvalidSSHClientInformation) ∧
  (∀ host port,
     GetSSHClientConnection E = Ok (host, port) →
     (Ascii.Space ∉ chars host) ∧ (Ascii.Space ∉ chars port) ∧
     (Getenv E "SSH_CLIENT" = host +:+ " " +:+ port ∨
      ∃ rest, Getenv E "SSH_CLIENT" = host +:+ " " +:+ port +:+ " " +:+ rest)).
Proof.
  unfold GetSSHClientConnection.
  destruct (Split (Getenv E "SSH_CLIENT")) as [|part0 [|part1 parts]] eqn:Hsplit.
  - destruct (Split_cons (Getenv E "SSH_CLIENT")) as (? & ? & ?). congruence.
  - destruct (Split_first _ _ _ Hsplit) as [Hno [[_ ->]|(rest & _ & Hrest)]].
    + split; [done|]. split; [by intros ? [= <-]|done].
    + destruct (Split_cons rest) as (? & ? & ?). congruence.
  - destruct (Split_first _ _ _ Hsplit) as [Hno0 [[? _]|(rest & Hs & Hrest)]]; [done|].
    destruct (Split_first _ _ _ Hrest) as [Hno1 Hcases]. split; [|split; [done|]].
    + split; [done|]. intros Hno. rewrite Hs in Hno. exfalso. apply Hno.
      clear. induction part0 as [|c part0 IH]; [apply list_elem_of_here|].
      change (String c part0 +:+ String Ascii.Space rest)
        with (String c (part0 +:+ String Ascii.Space rest)). cbn [chars].
      by apply list_elem_of_further.
    + intros host port [= <- <-]. split; [done|]. split; [done|].
      rewrite Hs. destruct Hcases as [[_ ->]|(rest' & -> & _)]; [by left|].
      right. by exists rest'.
Qed.

(** The value [sshd] gives to [SSH_CLIENT], the address and the port of the
    client and the port of the server, is read back as the address and the
    port of the client. *)
Theorem ssh_client_round_trip (E : Env) (host port rest : string) :
  Ascii.Space ∉ chars host →
  Ascii.Space ∉ chars port →
  Getenv E "SSH_CLIENT" = host +:+ " " +:+ port +:+ " " +:+ rest →
  GetSSHClientConnection E = Ok (host, port).
Proof.
  intros Hhost Hport Henv. unfold GetSSHClientConnection. rewrite Henv.
  change (host +:+ " " +:+ port +:+ " " +:+ rest)
    with (host +:+ String Ascii.Space (port +:+ String Ascii.Space rest)).
  rewrite Split_space by done. rewrite Split_space by done. done.
Qed.

(** What [AuthenticateRequest] has done when it returns or panics. *)
Lemma AuthenticateRequest_spec (E : Env) (req : Request) :
  let '(r, req', t) := AuthenticateRequest E req in
  (r ≠ Return None ∧ req' = req ∧ (length (omap signed t) ≤ 1)%nat ∧ omap sent t = [] ∧
   (r = Panics ↔
    Getenv E "SSH_AUTH_SOCK" ≠ "" ∧
    ∃ socket, DialTimeout E "unix" (Getenv E "SSH_AUTH_SOCK") = Ok socket ∧
              List_ E socket = Ok []))
  ∨ (r = Return None ∧
     ∃ key data,
       omap signed t = [(key, data)] ∧ omap sent t = [] ∧
       authenticated E req' key data ∧
       Method req' = Method req ∧ URL req' = URL req ∧ Body req' = Body req ∧
       ∀ k, k ∉ ["SSH-Auth-Key"; "SSH-Auth-Connection"; "SSH-Auth-Signature";
                 "SSH-Auth-Timestamp"] →
            Header req' !! k = Header req !! k).
Proof.
  unfold AuthenticateRequest. case_decide as Hsock.
  { left. split; [done|]. split; [done|]. split; [simpl; lia|]. split; [done|].
    split; [done|]. by intros [? _]. }
  destruct (DialTimeout E "unix" (Getenv E "SSH_AUTH_SOCK")) as [socket|err] eqn:Hdial.
  2:{ left. split; [done|]. split; [done|]. split; [simpl; lia|]. split; [done|].
      split; [done|]. by intros [_ (? & ? & _)]. }
  destruct (List_ E socket) as [keys|err] eqn:Hlist.
  2:{ left. split; [done|]. split; [done|]. split; [simpl; lia|]. split; [done|].
      split; [done|]. intros [_ (? & ? & ?)]. congruence. }
  destruct keys as [|key keys].
  { left. split; [done|]. split; [done|]. split; [simpl; lia|]. split; [done|].
    split; [|done]. intros _. split; [done|]. by exists socket. }
  destruct (Sign E socket key _) as [sig|err] eqn:Hsign.
  2:{ left. split; [done|]. split; [done|]. split; [simpl; lia|]. split; [done|].
      split; [done|]. intros [_ (? & ? & ?)]. congruence. }
  destruct (GetSSHClientConnection E) as [[sourceHost sourcePort]|err] eqn:Hconn.
  2:{ left. split; [done|]. split; [done|]. split; [simpl; lia|]. split; [done|].
      split; [done|]. intros [_ (? & ? & ?)]. congruence. }
  right. split; [done|].
  exists key, (String.list_byte_of_string (pretty (int32 (Now_Unix E)))).
  split; [done|]. split; [done|]. split.
  { unfold authenticated.
    exists (pretty (int32 (Now_Unix E))), sig, sourceHost, sourcePort.
    split; [done|]. split; [done|]. cbn [Header Set_].
    split; [by rewrite lookup_insert_eq|].
    split; [by rewrite !lookup_insert_ne, lookup_insert_eq by done|].
    split; [by exists socket|].
    split; [by rewrite !lookup_insert_ne, lookup_insert_eq by done|].
    split; [done|].
    by rewrite !lookup_insert_ne, lookup_insert_eq by done. }
  split; [done|]. split; [done|]. split; [done|].
  intros k Hk. cbn [Header Set_]. rewrite !not_elem_of_cons in Hk.
  destruct Hk as (? & ? & ? & ? & _). by rewrite !lookup_insert_ne by done.
Qed.

(** The authentication of a request is all or nothing.  When the call
    returns an error or panics the request is as it was: none of the four
    headers has been set.  When it returns without error the agent has signed
    once, with its first key, the decimal text of the time in 32 bits, and the
    request carries that text, that key, the signature and the connection of
    the client. *)
Theorem authentication_all_or_nothing (E : Env) (req : Request) :
  ((AuthenticateRequest E req).1.1 ≠ Return None →
   (AuthenticateRequest E req).1.2 = req) ∧
  ((AuthenticateRequest E req).1.1 = Return None →
   ∃ key data socket keys,
     omap signed (AuthenticateRequest E req).2 = [(key, data)] ∧
     List_ E socket = Ok (key :: keys) ∧
     authenticated E (AuthenticateRequest E req).1.2 key data).
Proof.
  pose proof (AuthenticateRequest_spec E req) as Hspec.
  assert ((AuthenticateRequest E req).1.1 = Return None →
          ∃ socket key keys,
            DialTimeout E "unix" (Getenv E "SSH_AUTH_SOCK") = Ok socket ∧
            List_ E socket = Ok (key :: keys) ∧
            (key, String.list_byte_of_string (pretty (int32 (Now_Unix E))))
              ∈ omap signed (AuthenticateRequest E req).2) as Hkey.
  { unfold AuthenticateRequest. case_decide; [done|].
    destruct (DialTimeout E "unix" (Getenv E "SSH_AUTH_SOCK")) as [socket|]; [|done].
    destruct (List_ E socket) as [[|key keys]|] eqn:Hlist; [done| |done].
    intros _. exists socket, key, keys. split; [done|]. split; [done|].
    destruct (Sign E socket key _); [destruct (GetSSHClientConnection E) as [[]|]|];
      simpl; apply list_elem_of_here. }
  destruct (AuthenticateRequest E req) as [[r req'] t]. simpl in *.
  destruct Hspec as [(Hr & -> & _)|(-> & key & data & Hsigned & _ & Hauth & _)].
  - split; [done|]. done.
  - split; [done|]. intros _.
    destruct (Hkey eq_refl) as (socket & key' & keys & _ & Hlist & Hin).
    exists key, data, socket, keys. split; [done|]. split; [|done].
    rewrite Hsigned in Hin. apply list_elem_of_singleton in Hin. by simplify_eq.
Qed.

(** An agent that holds no key makes the call panic, and nothing else
    does: the socket of the agent is set and can be dialled, and the agent
    answers the request for its keys with an empty list. *)
Theorem authentication_panics_without_key (E : Env) (req : Request) :
  (AuthenticateRequest E req).1.1 = Panics ↔
  Getenv E "SSH_AUTH_SOCK" ≠ "" ∧
  ∃ socket, DialTimeout E "unix" (Getenv E "SSH_AUTH_SOCK") = Ok socket ∧
            List_ E socket = Ok [].
Proof.
  pose proof (AuthenticateRequest_spec E req) as Hspec.
  destruct (AuthenticateRequest E req) as [[r req'] t] eqn:Hrun. simpl.
  destruct Hspec as [(_ & _ & _ & _ & Hpanic)|(-> & _)]; [done|].
  split; [done|]. intros (Hsock & socket & Hdial & Hlist). exfalso.
  unfold AuthenticateRequest in Hrun. rewrite decide_False in Hrun by done.
  rewrite Hdial, Hlist in Hrun. done.
Qed.

(** What one call of [request] sends. *)
Lemma request_spec (E : Env) (b : BowserAPIClient) (method path : string)
    (body : option string) :
  let '(r, t) := request E b method path body in
  (omap sent t = [] ∧ (length (omap signed t) ≤ 1)%nat ∧
   (∀ res err, r = Return (res, err) → res = None ∧ err ≠ None))
  ∨ (∃ req key data,
       omap sent t = [req] ∧ omap signed t = [(key, data)] ∧
       authenticated E req key data ∧
       Method req = method ∧ URL req = url b +:+ path ∧ Body req = body ∧
       Header req !! "Content-Type" = Some ["application/x-www-form-urlencoded"] ∧
       r ≠ Panics ∧ r ≠ Return (None, None) ∧
       (∀ res, r = Return (Some res, None) ↔
               Do E req = Ok res ∧ (StatusCode res = 200 ∨ StatusCode res = 204)%Z)).
Proof.
  unfold request. destruct (NewRequest_err E method (url b +:+ path)) as [err|].
  { left. split; [done|]. split; [simpl; lia|]. by intros ? ? [= <- <-]. }
  match goal with |- context [AuthenticateRequest E ?r] =>
    pose proof (AuthenticateRequest_spec E r) as Hspec;
    destruct (AuthenticateRequest E r) as [[r0 req] t0] end.
  destruct Hspec as [(Hr & -> & Hlen & Hsent & _)|
                     (-> & key & data & Hsigned & Hsent & Hauth & Hm & Hu & Hb & Hh)].
  - destruct r0 as [[err|]|]; [|done|]; left.
    + split; [done|]. split; [done|]. by intros ? ? [= <- <-].
    + split; [done|]. split; [done|]. done.
  - simpl in Hm, Hu, Hb.
    assert (Header req !! "Content-Type" = Some ["application/x-www-form-urlencoded"])
      as Hct.
    { rewrite Hh.
      - simpl. by rewrite lookup_insert_eq.
      - rewrite !not_elem_of_cons. repeat split; try done. by intros ?%elem_of_nil. }
    assert (omap sent (t0 ++ [EDo req (Do E req)]) = [req] ∧
            omap signed (t0 ++ [EDo req (Do E req)]) = [(key, data)]) as [Hs1 Hs2].
    { rewrite !omap_app, Hsent, Hsigned. done. }
    destruct (Do E req) as [res|err] eqn:HDo; [case_decide as Hstatus|];
      right; exists req, key, data; do 9 (split; [done|]).
    + intros res'. split; [done|]. intros [Heq ?]. rewrite HDo in Heq.
      simplify_eq. exfalso. lia.
    + intros res'. split.
      * intros Heq. simplify_eq. split; [done|]. lia.
      * intros [Heq _]. rewrite HDo in Heq. by simplify_eq.
    + intros res'. split; [done|]. intros [Heq _]. rewrite HDo in Heq. done.
Qed.

(** What [Jump] sends.  Every request it sends has been authenticated by a
    signature of its own; it sends at most two; the second is the [POST] to
    the session that the answer to the first, a [GET], was decoded to, and it
    is sent only when that answer had status 200 or 204; [Jump] returns
    without error only when the [POST] has been answered with 200 or 204; and
    when the answer to the [GET] has status 200 or 204 and decodes to no
    session at all (the JSON value [null]), [Jump] panics on the nil session
    without sending the [POST]. *)
Theorem Jump_requests (E : Env) (b : BowserAPIClient) (destination : string) :
  (Forall (λ req, ∃ key data,
             (key, data) ∈ omap signed (Jump E b destination).2 ∧
             authenticated E req key data)
     (omap sent (Jump E b destination).2) ∧
   (length (omap sent (Jump E b destination).2) ≤ 2)%nat ∧
   (length (omap signed (Jump E b destination).2) ≤ 2)%nat ∧
   (∀ get post others,
      omap sent (Jump E b destination).2 = get :: post :: others →
      others = [] ∧ Method get = "GET" ∧ Method post = "POST" ∧
      ∃ res data uuid,
        Do E get = Ok res ∧ (StatusCode res = 200 ∨ StatusCode res = 204)%Z ∧
        ReadAll E (ResponseBody res) = Ok data ∧ Decode E data = Ok (Some uuid) ∧
        URL post = url b +:+ "/sessions/" +:+ uuid +:+ "/jump" ∧
        Body post = Some ("destination=" +:+ QueryEscape E destination))) ∧
  ((Jump E b destination).1 = Return None →
   ∃ get post res,
     omap sent (Jump E b destination).2 = [get; post] ∧
     Do E post = Ok res ∧ (StatusCode res = 200 ∨ StatusCode res = 204)%Z) ∧
  (∀ get res data,
     head (omap sent (Jump E b destination).2) = Some get →
     Do E get = Ok res → (StatusCode res = 200 ∨ StatusCode res = 204)%Z →
     ReadAll E (ResponseBody res) = Ok data → Decode E data = Ok None →
     (Jump E b destination).1 = Panics ∧
     omap sent (Jump E b destination).2 = [get]).
Proof.
  assert (∀ t : list Event, omap sent t = [] → (length (omap signed t) ≤ 1)%nat →
            Forall (λ req, ∃ key data, (key, data) ∈ omap signed t ∧
                                       authenticated E req key data) (omap sent t) ∧
            (length (omap sent t) ≤ 2)%nat ∧ (length (omap signed t) ≤ 2)%nat ∧
            (∀ get post others, omap sent t = get :: post :: others →
               others = [] ∧ Method get = "GET" ∧ Method post = "POST" ∧
               ∃ res data uuid,
                 Do E get = Ok res ∧ (StatusCode res = 200 ∨ StatusCode res = 204)%Z ∧
                 ReadAll E (ResponseBody res) = Ok data ∧ Decode E data = Ok (Some uuid) ∧
                 URL post = url b +:+ "/sessions/" +:+ uuid +:+ "/jump" ∧
                 Body post = Some ("destination=" +:+ QueryEscape E destination)))
    as Hnone.
  { intros t -> Hlen. split; [constructor|]. split; [simpl; lia|]. split; [lia|]. done. }
  assert (∀ (t : list Event) req key data,
            omap sent t = [req] → omap signed t = [(key, data)] →
            authenticated E req key data →
            Forall (λ req, ∃ key data, (key, data) ∈ omap signed t ∧
                                       authenticated E req key data) (omap sent t) ∧
            (length (omap sent t) ≤ 2)%nat ∧ (length (omap signed t) ≤ 2)%nat ∧
            (∀ get post others, omap sent t = get :: post :: others →
               others = [] ∧ Method get = "GET" ∧ Method post = "POST" ∧
               ∃ res data uuid,
                 Do E get = Ok res ∧ (StatusCode res = 200 ∨ StatusCode res = 204)%Z ∧
                 ReadAll E (ResponseBody res) = Ok data ∧ Decode E data = Ok (Some uuid) ∧
                 URL post = url b +:+ "/sessions/" +:+ uuid +:+ "/jump" ∧
                 Body post = Some ("destination=" +:+ QueryEscape E destination)))
    as Hone.
  { intros t req key data -> -> Hauth. split.
    - constructor; [|constructor]. exists key, data. split; [apply list_elem_of_here|done].
    - split; [simpl; lia|]. split; [simpl; lia|]. done. }
  unfold Jump, GetCurrentSessionInfo.
  destruct (GetSSHClientConnection E) as [[remoteHost remotePort]|err].
  2:{ cbn [fst snd]. split; [apply Hnone; [done|simpl; lia]|done]. }
  match goal with |- context [request E b "GET" ?p None] =>
    pose proof (request_spec E b "GET" p None) as Hget;
    destruct (request E b "GET" p None) as [r t] end.
  destruct Hget as [(Hsent & Hlen & Hr)|
    (get & key & data & Hsent & Hsigned & Hauth & Hm & Hu & Hb & _ & Hp & Hnn & Hok)].
  { destruct r as [[[res|] [err|]]|]; cbn [fst snd];
      try (split; [by apply Hnone|split; [done|]];
           intros ? ? ? Hhead; rewrite Hsent in Hhead; done).
    by destruct (Hr _ _ eq_refl). }
  assert (∀ get0 res0, Some get = Some get0 → Do E get0 = Ok res0 →
            (StatusCode res0 = 200 ∨ StatusCode res0 = 204)%Z →
            get0 = get ∧ r = Return (Some res0, None)) as Hanswer.
  { intros get0 res0 [= <-] HDo0 Hst0. split; [done|]. by apply Hok. }
  destruct r as [[[res|] [err|]]|]; cbn [fst snd]; try done;
    try (split; [by eapply Hone|split; [done|]];
         intros get0 res0 data0 Hhead HDo0 Hst0 _ _; rewrite Hsent in Hhead;
         by destruct (Hanswer get0 res0 Hhead HDo0 Hst0)).
  destruct (proj1 (Hok res) eq_refl) as [HDo Hstatus].
  assert (omap sent (t ++ [EReadAll (ResponseBody res) (ReadAll E (ResponseBody res))])
            = [get] ∧
          omap signed (t ++ [EReadAll (ResponseBody res) (ReadAll E (ResponseBody res))])
            = [(key, data)]) as [Hs1 Hs2].
  { rewrite !omap_app, Hsent, Hsigned. done. }
  destruct (ReadAll E (ResponseBody res)) as [bytes|err] eqn:Hread; cbn [fst snd].
  2:{ split; [by eapply Hone|split; [done|]].
      intros get0 res0 data0 Hhead HDo0 Hst0 Hrd0 _. rewrite Hs1 in Hhead.
      destruct (Hanswer get0 res0 Hhead HDo0 Hst0) as [-> Heq]. simplify_eq. congruence. }
  destruct (Decode E bytes) as [[uuid|]|err] eqn:Hdecode; cbn [fst snd].
  3:{ split; [by eapply Hone|split; [done|]].
      intros get0 res0 data0 Hhead HDo0 Hst0 Hrd0 Hdc0. rewrite Hs1 in Hhead.
      destruct (Hanswer get0 res0 Hhead HDo0 Hst0) as [-> Heq]. simplify_eq. congruence. }
  2:{ split; [by eapply Hone|split; [done|]].
      intros get0 res0 data0 Hhead _ _ _ _. rewrite Hs1 in Hhead. simpl in Hhead.
      simplify_eq. by split. }
  match goal with |- context [request E b "POST" ?p ?bd] =>
    pose proof (request_spec E b "POST" p bd) as Hpost;
    destruct (request E b "POST" p bd) as [r' t'] end.
  assert (∀ (tr : list Event) get0 res0 data0,
            head (omap sent tr) = Some get0 → head (omap sent tr) = Some get →
            Do E get0 = Ok res0 → (StatusCode res0 = 200 ∨ StatusCode res0 = 204)%Z →
            ReadAll E (ResponseBody res0) = Ok data0 → Decode E data0 = Ok None →
            False) as Hnull.
  { intros tr get0 res0 data0 Hhead Hhead' HDo0 Hst0 Hrd0 Hdc0.
    rewrite Hhead' in Hhead.
    destruct (Hanswer get0 res0 Hhead HDo0 Hst0) as [-> Heq]. simplify_eq. congruence. }
  destruct Hpost as [(Hsent' & Hlen' & Hr')|
    (post & key' & data' & Hsent' & Hsigned' & Hauth' & Hm' & Hu' & Hb' & _ & Hp' & Hnn' & Hok')].
  - assert (∀ r'' : returns (option error) * list Event,
              r''.2 = (t ++ [EReadAll (ResponseBody res) (Ok bytes)]) ++ t' →
              omap sent r''.2 = [get] ∧ (length (omap signed r''.2) ≤ 2)%nat ∧
              ∀ key data, (key, data) ∈ omap signed (t ++ [EReadAll (ResponseBody res)
                                                             (Ok bytes)]) →
                          (key, data) ∈ omap signed r''.2) as Htrace.
    { intros r'' ->. rewrite !(omap_app _ _ t'), Hs1, Hs2, Hsent'. split; [done|].
      split; [rewrite length_app; simpl; lia|]. intros ? ? Hin. apply elem_of_app. by left. }
    destruct r' as [[res' err']|]; cbn [fst snd].
    + match goal with |- context [omap sent ?tr] =>
        destruct (Htrace (Panics, tr) eq_refl) as (Hsent1 & Hlen1 & Hin1) end.
      simpl in *. rewrite Hsent1.
      split; [split; [|split; [simpl; lia|split; [done|done]]]|split].
      * constructor; [|constructor]. exists key, data. split; [|done].
        apply Hin1. rewrite Hs2. apply list_elem_of_here.
      * intros Heq. simplify_eq. by destruct (Hr' _ _ eq_refl).
      * intros get0 res0 data0 Hhead HDo0 Hst0 Hrd0 Hdc0. exfalso.
        by eapply (Hnull [EDo get (Ok res)] get0 res0 data0).
    + match goal with |- context [omap sent ?tr] =>
        destruct (Htrace (Panics, tr) eq_refl) as (Hsent1 & Hlen1 & Hin1) end.
      simpl in *. rewrite Hsent1.
      split; [split; [|split; [simpl; lia|split; [done|done]]]|split].
      * constructor; [|constructor]. exists key, data. split; [|done].
        apply Hin1. rewrite Hs2. apply list_elem_of_here.
      * done.
      * intros get0 res0 data0 Hhead HDo0 Hst0 Hrd0 Hdc0. exfalso.
        by eapply (Hnull [EDo get (Ok res)] get0 res0 data0).
  - assert (∀ r'' : returns (option error) * list Event,
              r''.2 = (t ++ [EReadAll (ResponseBody res) (Ok bytes)]) ++ t' →
              omap sent r''.2 = [get; post] ∧
              omap signed r''.2 = [(key, data); (key', data')]) as Htrace.
    { intros r'' ->. by rewrite !(omap_app _ _ t'), Hs1, Hs2, Hsent', Hsigned'. }
    destruct r' as [[res' err']|]; [|done]. cbn [fst snd].
    match goal with |- context [omap sent ?tr] =>
      destruct (Htrace (Panics, tr) eq_refl) as (Hsent1 & Hsigned1) end.
    simpl in *. rewrite Hsent1, Hsigned1.
    split; [split; [|split; [simpl; lia|split; [simpl; lia|]]]|split].
    + constructor; [|constructor; [|constructor]].
      * exists key, data. split; [apply list_elem_of_here|done].
      * exists key', data'. split; [apply list_elem_of_further, list_elem_of_here|done].
    + intros ? ? ? Heq. simplify_eq. split; [done|]. split; [exact Hm|].
      split; [exact Hm'|]. exists res, bytes, uuid. repeat split; assumption.
    + intros Heq. simplify_eq. destruct res' as [res'|]; [|done].
      exists get, post, res'. split; [done|]. by apply Hok'.
    + intros get0 res0 data0 Hhead HDo0 Hst0 Hrd0 Hdc0. exfalso.
      by eapply (Hnull [EDo get (Ok res)] get0 res0 data0).
Qed.

End APIFacts.

(** ** The account-creation utility *)

Section CreateAccountFacts.

Import CreateAccount.

Lemma substring_prefix (s t : string) :
  String.substring 0 (String.length s) (s +:+ t) = s.
Proof.
  induction s as [|c s IH]; [by destruct t|].
  change (String c s +:+ t) with (String c (s +:+ t)). cbn [String.length String.substring].
  by rewrite IH.
Qed.

Lemma length_append (s t : string) :
  String.length (s +:+ t) = (String.length s + String.length t)%nat.
Proof.
  induction s as [|c s IH]; [done|].
  change (String c s +:+ t) with (String c (s +:+ t)). cbn [String.length]. by rewrite IH.
Qed.

Lemma string_snoc (s : string) : s ≠ "" → ∃ s' c, s = s' +:+ String c "".
Proof.
  induction s as [|c s IH]; [done|]. intros _. destruct s as [|c' s].
  - by exists "", c.
  - destruct IH as (s' & c'' & ->); [done|]. by exists (String c s'), c''.
Qed.

(** The slice [s[:len(s)-1]]: it panics on the empty string and drops the
    last character of any other. *)
Lemma upto_chop (s : string) :
  (s = "" → upto (Z.of_nat (String.length s) - 1) s = None) ∧
  (∀ s' c, s = s' +:+ String c "" →
     upto (Z.of_nat (String.length s) - 1) s = Some s').
Proof.
  split.
  - intros ->. done.
  - intros s' c ->. unfold upto. rewrite length_append. cbn [String.length].
    rewrite decide_True by lia.
    replace (Z.to_nat (Z.of_nat (String.length s' + 1) - 1)) with (String.length s') by lia.
    by rewrite substring_prefix.
Qed.

Lemma append_snoc_inj (s1 s2 : string) (c1 c2 : Ascii.ascii) :
  s1 +:+ String c1 "" = s2 +:+ String c2 "" → s1 = s2 ∧ c1 = c2.
Proof.
  revert s2. induction s1 as [|a1 s1 IH]; intros [|a2 s2] Heq.
  - by simplify_eq/=.
  - destruct s2; simplify_eq/=.
  - destruct s1; simplify_eq/=.
  - change (String a1 (s1 +:+ String c1 "") = String a2 (s2 +:+ String c2 "")) in Heq.
    simplify_eq. destruct (IH s2) as [-> ->]; done.
Qed.

(** Of the 32 random bytes the secret keeps ten: the sixteen characters it
    is cut to are the encoding of the first ten bytes. *)
Theorem secret_from_first_ten_bytes (totpRaw : list byte) :
  (10 ≤ length totpRaw)%nat →
  upto 16 (EncodeToString totpRaw) = Some (EncodeToString (take 10 totpRaw)).
Proof.
  intros Hlen.
  destruct totpRaw as [|b0 [|b1 [|b2 [|b3 [|b4 [|b5 [|b6 [|b7 [|b8 [|b9 rest]]]]]]]]]];
    simpl in Hlen; try lia.
  cbn [take EncodeToString]. unfold octet. cbn [fmap list_fmap String.string_of_list_ascii].
  unfold upto.
  repeat match goal with
         | |- context [String ?c ?s +:+ ?t] =>
             change (String c s +:+ t) with (String c (s +:+ t))
         | |- context ["" +:+ ?t] => change ("" +:+ t) with t
         end.
  cbn [String.length]. rewrite decide_True by lia.
  change (Z.to_nat 16) with 16%nat. cbn [String.substring].
  by destruct (EncodeToString rest).
Qed.

Lemma upto_chop_cases (s : string) :
  (s = "" ∧ upto (Z.of_nat (String.length s) - 1) s = None) ∨
  (∃ s' c, s = s' +:+ String c "" ∧ upto (Z.of_nat (String.length s) - 1) s = Some s').
Proof.
  destruct (decide (s = "")) as [->|Hs]; [by left|]. right.
  destruct (string_snoc s Hs) as (s' & c & Heq). exists s', c. split; [done|].
  by apply (proj2 (upto_chop s) s' c).
Qed.

(** What [main] does, by cases. *)
Lemma main_cases (I : Input) :
  (omap printed (main I).2 = [] ∧
   ((main I).1 = Panic ↔
    MakeRaw I ≠ None ∨
    a I = b I ∧ ∃ totpRaw, rand_Read I = Ok totpRaw ∧
      ((String.length (EncodeToString totpRaw) < 16)%nat ∨
       username I = "" ∨ sshKey I = "")) ∧
   (MakeRaw I ≠ None ∨ a I ≠ b I ∨ (∃ err, rand_Read I = Err err) ∨
    ∃ totpRaw, rand_Read I = Ok totpRaw ∧
      ((String.length (EncodeToString totpRaw) < 16)%nat ∨
       username I = "" ∨ sshKey I = "")))
  ∨ (∃ name c key c' totpRaw totpEncoded,
       (main I).1 = Done ∧
       omap printed (main I).2 =
         [{| Username := name; Password := GenerateFromPassword I (a I) 12;
             SSHKeysRaw := [key]; TOTP := totpEncoded |}] ∧
       MakeRaw I = None ∧ a I = b I ∧
       username I = name +:+ String c "" ∧ sshKey I = key +:+ String c' "" ∧
       rand_Read I = Ok totpRaw ∧ upto 16 (EncodeToString totpRaw) = Some totpEncoded).
Proof.
  unfold main. destruct (MakeRaw I) as [err|] eqn:Hraw.
  { left. split; [done|]. split; [|by left]. split; [by left|done]. }
  unfold deferred. case_decide as Hab.
  { left. cbn [fst snd]. split; [done|]. split; [|by right; left].
    split; [done|]. intros [?|[? _]]; done. }
  destruct (rand_Read I) as [totpRaw|err] eqn:Hrand.
  2:{ left. cbn [fst snd]. split; [done|]. split; [|right; right; left; by eexists].
      split; [done|]. intros [?|[_ (? & ? & _)]]; done. }
  assert (a I = b I) as Heq by by destruct (decide (a I = b I)).
  assert (upto 16 (EncodeToString totpRaw) = None ↔
          (String.length (EncodeToString totpRaw) < 16)%nat) as Hshort.
  { unfold upto. case_decide; split; intros; try done; lia. }
  destruct (upto 16 (EncodeToString totpRaw)) as [totpEncoded|] eqn:Hsecret.
  2:{ left. cbn [fst snd]. split; [done|].
      assert ((String.length (EncodeToString totpRaw) < 16)%nat) by by apply Hshort.
      split; [|right; right; right; exists totpRaw; auto].
      split; [|done]. intros _. right. split; [done|]. exists totpRaw. auto. }
  assert (¬ (String.length (EncodeToString totpRaw) < 16)%nat) as Hlong.
  { intros Hlt%Hshort. done. }
  destruct (upto_chop_cases (username I)) as [[Hu ->]|(name & c & Hu & ->)].
  { left. cbn [fst snd]. split; [done|].
    split; [|right; right; right; exists totpRaw; auto].
    split; [|done]. intros _. right. split; [done|]. exists totpRaw. auto. }
  destruct (upto_chop_cases (sshKey I)) as [[Hk ->]|(key & c' & Hk & ->)].
  { left. cbn [fst snd]. split; [done|].
    split; [|right; right; right; exists totpRaw; auto].
    split; [|done]. intros _. right. split; [done|]. exists totpRaw. auto. }
  right. exists name, c, key, c', totpRaw, totpEncoded. cbn [fst snd].
  split; [done|]. split; [done|]. done.
Qed.

(** No account without confirmation.  An account is printed only when the
    two passwords typed are the same, and then it is the only one: its password
    is the hash of the password typed, at cost 12; its name and its key are the
    two lines read without their last character, whatever that character is;
    and its secret is the first sixteen characters of the encoding of the
    random bytes. *)
Theorem account_only_when_confirmed (I : Input) (account : Account) :
  account ∈ omap printed (main I).2 →
  omap printed (main I).2 = [account] ∧
  (main I).1 = Done ∧
  a I = b I ∧
  Password account = GenerateFromPassword I (a I) 12 ∧
  (∃ c, username I = Username account +:+ String c "") ∧
  (∃ key c, SSHKeysRaw account = [key] ∧ sshKey I = key +:+ String c "") ∧
  (∃ totpRaw, rand_Read I = Ok totpRaw ∧
              upto 16 (EncodeToString totpRaw) = Some (TOTP account)).
Proof.
  destruct (main_cases I) as [(Hnone & _)|
    (name & c & key & c' & totpRaw & totpEncoded & Hdone & Hprinted & _ & Hab & Hu & Hk &
     Hrand & Hsecret)].
  { rewrite Hnone. by intros ?%elem_of_nil. }
  rewrite Hprinted. intros ->%list_elem_of_singleton. simpl.
  split; [done|]. split; [done|]. split; [done|]. split; [done|].
  split; [by exists c|]. split; [by exists key, c'|]. by exists totpRaw.
Qed.

(** The account holds what was typed.  With a name and a key that end in a
    line feed, two passwords that are the same and the 32 random bytes drawn,
    the utility prints one account: the name and the key without their line
    feed, the hash of the password, and for secret the encoding of the first
    ten random bytes. *)
Theorem account_holds_what_was_typed (I : Input) (name key : string)
    (totpRaw : list byte) :
  username I = name +:+ newline →
  sshKey I = key +:+ newline →
  MakeRaw I = None →
  a I = b I →
  rand_Read I = Ok totpRaw →
  length totpRaw = 32%nat →
  (main I).1 = Done ∧
  omap printed (main I).2 =
    [{| Username := name; Password := GenerateFromPassword I (a I) 12;
        SSHKeysRaw := [key]; TOTP := EncodeToString (take 10 totpRaw) |}].
Proof.
  intros Hu Hk Hraw Hab Hrand Hlen.
  pose proof (secret_from_first_ten_bytes totpRaw ltac:(lia)) as Hsecret.
  destruct (main_cases I) as [(_ & _ & Hwhy)|
    (name' & c & key' & c' & totpRaw' & totpEncoded & Hdone & Hprinted & _ & _ & Hu' & Hk' &
     Hrand' & Hsecret')].
  - exfalso. destruct Hwhy as [?|[?|[[err ?]|(raw & Hraw' & Hcases)]]];
      [done|done|congruence|].
    assert (raw = totpRaw) as -> by congruence.
    destruct Hcases as [Hshort|[Hempty|Hempty]].
    + unfold upto in Hsecret. case_decide; [lia|done].
    + rewrite Hu in Hempty. by destruct name.
    + rewrite Hk in Hempty. by destruct key.
  - split; [done|]. rewrite Hprinted.
    assert (totpRaw' = totpRaw) as -> by congruence.
    rewrite Hu in Hu'. rewrite Hk in Hk'.
    apply append_snoc_inj in Hu' as [-> _]. apply append_snoc_inj in Hk' as [-> _].
    rewrite Hsecret in Hsecret'. by simplify_eq.
Qed.

(** What makes the utility panic: a terminal that cannot be made raw; and,
    once the passwords are the same and the random bytes drawn, a name or a key
    read as the empty string, which is what a closed standard input gives (or
    an encoding of fewer than sixteen characters, which 32 bytes do not
    have). *)
Theorem main_panics_iff (I : Input) :
  (main I).1 = Panic ↔
  MakeRaw I ≠ None ∨
  a I = b I ∧ ∃ totpRaw, rand_Read I = Ok totpRaw ∧
    ((String.length (EncodeToString totpRaw) < 16)%nat ∨
     username I = "" ∨ sshKey I = "").
Proof.
  destruct (main_cases I) as [(_ & Hpanic & _)|
    (name & c & key & c' & totpRaw & totpEncoded & Hdone & _ & Hraw & _ & Hu & Hk &
     Hrand & Hsecret)]; [done|].
  rewrite Hdone. split; [done|]. intros [?|[_ (raw & Hraw' & Hcases)]]; [done|].
  assert (raw = totpRaw) as -> by congruence. exfalso.
  destruct Hcases as [Hshort|[Hempty|Hempty]].
  - unfold upto in Hsecret. case_decide; [lia|done].
  - rewrite Hu in Hempty. by destruct name.
  - rewrite Hk in Hempty. by destruct key.
Qed.

End CreateAccountFacts.

(** ** Runs of the further properties *)

Section StoreRuns.

Import Shell StoreSpec Sample.

(** The store loaded from [accounts.json] holds [alice] and [bob] and their
    two keys. *)
Lemma reloadAccounts_replaces_store_run :
  (∀ u, is_Some (accounts store !! u) ↔ u ∈ Username <$> [alice; bob]) ∧
  (∀ k, is_Some (keys store !! k) ↔ k ∈ wires ParseAuthorizedKey [alice; bob]) ∧
  (∀ k accountKey,
     keys store !! k = Some accountKey →
     from_line ParseAuthorizedKey ([alice; bob] ≫= SSHKeysRaw) k accountKey).
Proof.
  apply (reloadAccounts_replaces_store LoadAccounts ParseAuthorizedKey boot [alice; bob]).
  - reflexivity.
  - apply (bool_decide_unpack _). by vm_compute.
  - apply (bool_decide_unpack _). by vm_compute.
Defined.

(** After the failed reload of [duplicate.json], the key of [bob] is still
    accepted for [bob] and still refused for [alice]. *)
Lemma failed_reload_keeps_handshake_run :
  PublicKeyCallback (reloadAccounts LoadAccounts ParseAuthorizedKey store_duplicate)
    "bob" key_bob = Some None ∧
  PublicKeyCallback (reloadAccounts LoadAccounts ParseAuthorizedKey store_duplicate)
    "alice" key_bob = Some (Some badKeyError).
Proof.
  assert (∀ user key,
            PublicKeyCallback
              (reloadAccounts LoadAccounts ParseAuthorizedKey store_duplicate) user key
            = PublicKeyCallback store_duplicate user key) as Hsame.
  { apply (failed_reload_keeps_handshake LoadAccounts ParseAuthorizedKey store_duplicate).
    - intros k accountKey Hk.
      assert (map_Forall (λ _ accountKey, akAccount accountKey < 1) (keys store_duplicate))
        as Hall by (apply (bool_decide_unpack _); by vm_compute).
      apply (Hall k accountKey Hk).
    - left. intros Hnd. apply NoDup_cons in Hnd as [Hnotin _]. apply Hnotin.
      rewrite !elem_of_cons. auto. }
  rewrite !Hsame. split; by vm_compute.
Defined.

End StoreRuns.

Section ForwardRuns.

Import Forward ForwardTrace Wire Sample.

(** When the channels of [alice] have come to their end, her session is out
    of the table and the session of [bob] is still in it. *)
Lemma handleChannels_leaves_table_run :
  (UUID session_alice ∉
    sessions (State (handleChannels [(honest, direct_tcpip "db-01" 5432)]
                       session_alice).1.2)) ∧
  UUID session_bob ∈
    sessions (State (handleChannels [(honest, direct_tcpip "db-01" 5432)]
                       session_alice).1.2).
Proof.
  destruct (handleChannels [(honest, direct_tcpip "db-01" 5432)] session_alice)
    as [[r s'] t] eqn:Hrun.
  assert (r = Value tt) as ->.
  { apply (f_equal (λ x, x.1.1)) in Hrun. simpl in Hrun. rewrite <- Hrun. by vm_compute. }
  destruct (handleChannels_leaves_table _ _ _ _ Hrun) as (_ & Hout & Hkeep).
  split; [done|]. apply Hkeep; [by vm_compute|].
  apply (bool_decide_unpack _). by vm_compute.
Defined.

(** A second channel of [alice], once verified, asks her agent nothing. *)
Lemma verified_session_not_challenged_run :
  Forall (λ e, challenge e = false)
    (handleChannelForward honest_again (direct_tcpip "db-01" 22)
       (handleChannelForward honest (direct_tcpip "db-01" 5432) session_alice).1.2).2.
Proof.
  apply (verified_session_not_challenged honest_again (direct_tcpip "db-01" 22)).
  by vm_compute.
Defined.

(** The agent of [alice] lists the key of a stranger, then hers: hers is the
    one that signs, once, and its signature does not verify. *)
Lemma first_matching_signer_decides_run :
  verified (handleChannelForward
              (client (Ok 7) (Ok [signer_stranger; signer_alice])
                 (Some "ssh: signature did not verify") None)
              (direct_tcpip "db-01" 5432) session_alice).1.2 = false.
Proof.
  destruct (first_matching_signer_decides
              (client (Ok 7) (Ok [signer_stranger; signer_alice])
                 (Some "ssh: signature did not verify") None)
              (direct_tcpip "db-01" 5432) session_alice 7 [signer_stranger] []
              signer_alice
              {| akAccount := 0; Key := key_alice; Comment := ""; Options := [] |})
    as (Hiff & _ & _).
  - reflexivity.
  - reflexivity.
  - reflexivity.
  - constructor; [|constructor]. intros (accountKey & Hk & _).
    vm_compute in Hk. discriminate.
  - by vm_compute.
  - by vm_compute.
  - apply not_true_is_false. intros Hv. apply Hiff in Hv as (token & sig & _ & _ & Hverify).
    vm_compute in Hverify. discriminate.
Defined.

(** The request for [db-01:5432] from [127.0.0.1:50100]. *)
Lemma direct_tcpip_round_trip_run :
  Unmarshal (direct_tcpip_data "db-01" 5432 "127.0.0.1" 50100 ++ []) =
    ({| RAddr := "db-01"; RPort := 5432; LAddr := "127.0.0.1"; LPort := 50100 |}, None).
Proof.
  apply (direct_tcpip_round_trip "db-01" 5432 "127.0.0.1" 50100 []); by vm_compute.
Defined.

End ForwardRuns.

Section ShellRuns.

Import Shell ShellSession SampleShell.

(** An [xterm] of 65616 columns and 24 rows gives a window of 80 columns. *)
Lemma window_size_from_request_run :
  serve 9 {| Type_ := "pty-req"; WantReply := true;
             Payload := pty_req_data "xterm" 65616 24 [] |} =
    (Done, [ESetWinsize 9 {| Height := 24; Width := 80; x := 0; y := 0 |}; EReply true]) ∧
  serve 9 {| Type_ := "window-change"; WantReply := true;
             Payload := window_change_data 65616 24 [] |} =
    (Done, [ESetWinsize 9 {| Height := 24; Width := 80; x := 0; y := 0 |}]).
Proof.
  apply (window_size_from_request 9 true "xterm" 65616 24 []); [simpl; lia|done|done].
Defined.

(** A [pty-req] without payload after a [shell] request: the change of the
    window that follows is not served. *)
Lemma panic_ends_requests_run :
  range_requests 9 [shell_request; empty_pty_req; window_change 100 30] =
    (Panic, [EReply true]).
Proof.
  destruct (panic_ends_requests 9 [shell_request] [window_change 100 30] empty_pty_req)
    as [_ Hrun].
  - by repeat constructor.
  - reflexivity.
  - exact Hrun.
Defined.

(** [carol] connects, a connection cannot be accepted, then a handshake
    fails: [dave], who comes next, is not served. *)
Lemma failed_handshake_ends_Run_run :
  Run config None None None boot
    ([Handshaken conn_carol "6ba7b810" (Ok 11); AcceptFails "accept: timeout"] ++
     HandshakeFails "ssh: no auth passed yet" :: [Handshaken conn_dave "6ba7b811" (Ok 12)])
  = (Panic,
     (Run config None None None boot
        [Handshaken conn_carol "6ba7b810" (Ok 11); AcceptFails "accept: timeout"]).2).
Proof.
  destruct (failed_handshake_ends_Run config boot
              [Handshaken conn_carol "6ba7b810" (Ok 11); AcceptFails "accept: timeout"])
    as (_ & _ & _ & Hrun).
  - by repeat constructor.
  - apply Hrun.
Defined.

End ShellRuns.

Section ToolRuns.

Import SampleTools.

(** The client of [198.51.100.7], port 50022. *)
Lemma ssh_client_round_trip_run :
  API.GetSSHClientConnection env = Ok ("198.51.100.7", "50022").
Proof.
  apply (ssh_client_round_trip env "198.51.100.7" "50022" "22").
  - apply (bool_decide_unpack _). by vm_compute.
  - apply (bool_decide_unpack _). by vm_compute.
  - reflexivity.
Defined.

(** Thirty-two bytes that differ after the tenth give the same secret. *)
Lemma secret_from_first_ten_bytes_run :
  CreateAccount.upto 16
    (CreateAccount.EncodeToString
       (String.list_byte_of_string "0123456789abcdefghijklmnopqrstuv")) =
  Some "GAYTEMZUGU3DOOBZ" ∧
  CreateAccount.upto 16
    (CreateAccount.EncodeToString
       (String.list_byte_of_string "0123456789ABCDEFGHIJKLMNOPQRSTUV")) =
  Some "GAYTEMZUGU3DOOBZ".
Proof.
  split.
  - rewrite (secret_from_first_ten_bytes
               (String.list_byte_of_string "0123456789abcdefghijklmnopqrstuv"))
      by (simpl; lia).
    by vm_compute.
  - by vm_compute.
Defined.

(** The account of [carol]. *)
Lemma account_holds_what_was_typed_run :
  omap CreateAccount.printed (CreateAccount.main typed).2 =
    [{| CreateAccount.Username := "carol"; CreateAccount.Password := "$2a$12$hash";
        CreateAccount.SSHKeysRaw := ["ssh-ed25519 AAAA-carol"];
        CreateAccount.TOTP := "GAYTEMZUGU3DOOBZ" |}].
Proof.
  destruct (account_holds_what_was_typed typed "carol" "ssh-ed25519 AAAA-carol"
              (String.list_byte_of_string "0123456789abcdefghijklmnopqrstuv"))
    as [_ Hprinted]; [reflexivity..|].
  rewrite Hprinted. by vm_compute.
Defined.

Lemma account_only_when_confirmed_run :
  CreateAccount.a typed = CreateAccount.b typed ∧
  (CreateAccount.main typed).1 = CreateAccount.Done.
Proof.
  destruct (account_only_when_confirmed typed
              {| CreateAccount.Username := "carol"; CreateAccount.Password := "$2a$12$hash";
                 CreateAccount.SSHKeysRaw := ["ssh-ed25519 AAAA-carol"];
                 CreateAccount.TOTP := "GAYTEMZUGU3DOOBZ" |})
    as (_ & Hdone & Hab & _).
  - apply list_elem_of_lookup_2 with (i := 0%nat). by vm_compute.
  - done.
Defined.

End ToolRuns.
